(** * A shallow embedding of the state-space search engine

    The development follows the Python sources file by file:
    [search_constants.py], [state.py], [search_node.py],
    [search_statistics.py] and [search_engine.py].

    Conventions of the embedding.
    - Python integers are [Z]; the counters that only ever count up from
      zero ([SearchNode.n], [StateSpace.n], the pruning counters) are [nat].
      Path costs, heuristic values and clock readings are taken to be
      integers (the Sokoban domain of the repository uses integer costs).
    - A Python exception is a [Raise] result.
    - Class attributes and the operating system (the clock read through
      [os.times()[0]], the text written by [print]) form the [Process]
      record, which is passed along explicitly next to the engine object.
    - The diagnostic tracing ([trace_on]) only prints; the engine is
      modelled with tracing switched off. *)

From Stdlib Require Import ZArith Sorted.
From stdpp Require Import base option list strings pretty gmap.

Set Warnings "-register-all".

Local Open Scope Z_scope.

(** ** Exceptions *)

Inductive exn := ValueError | KeyError | IndexError | AttributeError | TypeError.

Inductive result (A : Type) :=
| Ok (a : A)
| Raise (e : exn).
Arguments Ok {A} a.
Arguments Raise {A} e.

Definition bind {A B} (r : result A) (k : A -> result B) : result B :=
  match r with
  | Ok a => k a
  | Raise e => Raise e
  end.

#[global] Instance result_bind : MBind result := λ A B k r, bind r k.
#[global] Instance result_ret : MRet result := @Ok.

(** ** search_constants.py *)

Module search_constants.

Definition _DEPTH_FIRST : Z := 0.
Definition _BREADTH_FIRST : Z := 1.
Definition _BEST_FIRST : Z := 2.
Definition _ASTAR : Z := 3.
Definition _UCS : Z := 4.
Definition _CUSTOM : Z := 5.

Definition _DEPTH_FIRST_STR : string := "depth_first".
Definition _BREADTH_FIRST_STR : string := "breadth_first".
Definition _BEST_FIRST_STR : string := "best_first".
Definition _ASTAR_STR : string := "astar".
Definition _UCS_STR : string := "ucs".
Definition _CUSTOM_STR : string := "custom".

Definition _SEARCH_STRATEGY_MAP : gmap string Z :=
  list_to_map
    [ (_DEPTH_FIRST_STR, _DEPTH_FIRST);
      (_BREADTH_FIRST_STR, _BREADTH_FIRST);
      (_BEST_FIRST_STR, _BEST_FIRST);
      (_ASTAR_STR, _ASTAR);
      (_UCS_STR, _UCS);
      (_CUSTOM_STR, _CUSTOM) ].

Definition _SUM_HG : Z := 0.
Definition _H : Z := 1.
Definition _G : Z := 2.
Definition _C : Z := 3.

Definition _CC_NONE : Z := 0.
Definition _CC_PATH : Z := 1.
Definition _CC_FULL : Z := 2.

Definition _CC_NONE_STR : string := "none".
Definition _CC_PATH_STR : string := "path".
Definition _CC_FULL_STR : string := "full".
Definition _CC_DEFAULT_STR : string := "default".

Definition _CYCLE_CHECK_MAP : gmap string Z :=
  list_to_map
    [ (_CC_DEFAULT_STR, _CC_FULL);
      (_CC_NONE_STR, _CC_NONE);
      (_CC_PATH_STR, _CC_PATH);
      (_CC_FULL_STR, _CC_FULL) ].

End search_constants.
Import search_constants.

(** ** The interpreter-level state

  [SearchNode_n], [SearchNode_lt_type] and [StateSpace_n] are the class
  attributes [SearchNode.n], [SearchNode.lt_type] and [StateSpace.n].
  [os_times] is the sequence of values that successive calls of
  [os.times()[0]] return and [os_ticks] the number of calls made so far.
  [stdout] collects the lines printed. *)

Record Process := mkProcess {
  SearchNode_n : nat;
  SearchNode_lt_type : Z;
  StateSpace_n : nat;
  os_times : nat -> Z;
  os_ticks : nat;
  stdout : list string
}.

Definition set_SearchNode_n (v : nat) (p : Process) : Process :=
  mkProcess v (SearchNode_lt_type p) (StateSpace_n p) (os_times p) (os_ticks p) (stdout p).
Definition set_SearchNode_lt_type (v : Z) (p : Process) : Process :=
  mkProcess (SearchNode_n p) v (StateSpace_n p) (os_times p) (os_ticks p) (stdout p).
Definition set_StateSpace_n (v : nat) (p : Process) : Process :=
  mkProcess (SearchNode_n p) (SearchNode_lt_type p) v (os_times p) (os_ticks p) (stdout p).

(** [os.times()[0]]: the next reading of the clock. *)
Definition os_times_0 (p : Process) : Z * Process :=
  (os_times p (os_ticks p),
   mkProcess (SearchNode_n p) (SearchNode_lt_type p) (StateSpace_n p)
             (os_times p) (S (os_ticks p)) (stdout p)).

Definition print (line : string) (p : Process) : Process :=
  mkProcess (SearchNode_n p) (SearchNode_lt_type p) (StateSpace_n p)
            (os_times p) (os_ticks p) (stdout p ++ [line]).

(** A process as it is when the modules have just been loaded. *)
Definition fresh_process (times : nat -> Z) : Process :=
  mkProcess 0 _SUM_HG 0 times 0 [].

(** ** state.py *)

Module StateSpace.
Section StateSpace.
Context {Config : Type}.

(** A state: the fields set by [StateSpace.__init__], and [config] for
    whatever a problem subclass adds. *)
Inductive t := Build {
  action : string;
  gval : Z;
  parent : option t;
  index : nat;
  config : Config
}.

(** [StateSpace.__init__] (through the subclass constructor). *)
Definition __init__ (action : string) (gval : Z) (parent : option t)
    (config : Config) (p : Process) : t * Process :=
  (Build action gval parent (StateSpace_n p) config,
   set_StateSpace_n (S (StateSpace_n p)) p).

(** The states met by following [parent] links from [s], [s] excluded. *)
Fixpoint ancestors (s : t) : list t :=
  match s with
  | Build _ _ (Some q) _ _ => q :: ancestors q
  | Build _ _ None _ _ => []
  end.

(** Induction along the [parent] links. *)
Fixpoint parent_ind (P : t -> Prop)
    (Hroot : forall a g i c, P (Build a g None i c))
    (Hchild : forall a g q i c, P q -> P (Build a g (Some q) i c))
    (s : t) : P s :=
  match s with
  | Build a g None i c => Hroot a g i c
  | Build a g (Some q) i c => Hchild a g q i c (parent_ind P Hroot Hchild q)
  end.

End StateSpace.
Arguments t : clear implicits.

(** The abstract methods of [StateSpace], which a problem subclass
    supplies.  [hashable_state] is the canonical identity of a state.
    [moves s] lists, for every successor of [s] in the order in which
    [s.successors()] returns them, the action, the path cost and the
    problem data handed to the constructor; as in
    [SokobanState.successors], every successor is built by the constructor
    with [parent=self]. *)
Class Problem (Config Key : Type) `{Countable Key} := {
  hashable_state : t Config -> Key;
  moves : t Config -> list (string * Z * Config)
}.

Section Methods.
Context {Config Key : Type} `{Countable Key} {problem : Problem Config Key}.

Fixpoint build_successors (self : t Config) (ms : list (string * Z * Config))
    (p : Process) : list (t Config) * Process :=
  match ms with
  | [] => ([], p)
  | (a, g, c) :: ms =>
      let '(new_state, p) := __init__ a g (Some self) c p in
      let '(rest, p) := build_successors self ms p in
      (new_state :: rest, p)
  end.

Definition successors (self : t Config) (p : Process) : list (t Config) * Process :=
  build_successors self (moves self) p.

(** The loop [while s: ...] of [has_path_cycle], entered with [s]. *)
Fixpoint has_path_cycle_loop (hc : Key) (s : t Config) : bool :=
  if bool_decide (hashable_state s = hc) then true
  else match s with
       | Build _ _ (Some q) _ _ => has_path_cycle_loop hc q
       | Build _ _ None _ _ => false
       end.

Definition has_path_cycle (self : t Config) : bool :=
  match parent self with
  | Some s => has_path_cycle_loop (hashable_state self) s
  | None => false
  end.

End Methods.
End StateSpace.

(** ** search_node.py *)

Module SearchNode.
Section SearchNode.
Context {Config : Type}.

(** A node.  [fval_function] is applied to a node in the source; here it
    receives the node's other attributes ([state], [hval], [gval],
    [index]). *)
Record t := Build {
  state : StateSpace.t Config;
  hval : Z;
  gval : Z;
  index : nat;
  fval_function : StateSpace.t Config -> Z -> Z -> nat -> Z
}.

Definition fval (f : StateSpace.t Config -> Z -> Z -> nat -> Z) (node : t) : Z :=
  f (state node) (hval node) (gval node) (index node).

Definition __init__ (state : StateSpace.t Config) (hval : Z)
    (fval_function : StateSpace.t Config -> Z -> Z -> nat -> Z)
    (p : Process) : t * Process :=
  (Build state hval (StateSpace.gval state) (SearchNode_n p) fval_function,
   set_SearchNode_n (S (SearchNode_n p)) p).

(** [SearchNode.__lt__], reading the class attribute [lt_type].  (The
    message printed for an invalid [lt_type] is not modelled.) *)
Definition __lt__ (lt_type : Z) (self other : t) : bool :=
  if bool_decide (lt_type = _SUM_HG) then
    if bool_decide (gval self + hval self = gval other + hval other) then
      bool_decide (gval self > gval other)
    else
      bool_decide (gval self + hval self < gval other + hval other)
  else if bool_decide (lt_type = _G) then
    bool_decide (gval self < gval other)
  else if bool_decide (lt_type = _H) then
    if bool_decide (hval self = hval other) then
      bool_decide (gval self > gval other)
    else
      bool_decide (hval self < hval other)
  else if bool_decide (lt_type = _C) then
    bool_decide (fval (fval_function self) self < fval (fval_function other) other)
  else
    bool_decide (gval self < gval other).

End SearchNode.
Arguments t : clear implicits.
End SearchNode.

(** ** heapq (the Python standard library module used by the frontier)

    The heap is a list; positions are always within the list, so the
    reads fall back on the item in hand only formally. *)

Module heapq.
Section heapq.
Context {A : Type} (lt : A -> A -> bool).

(** [_siftdown(heap, startpos, pos)]: the loop, with [newitem] in hand;
    [pos] bounds the number of rounds. *)
Fixpoint _siftdown_loop (rounds : nat) (heap : list A) (newitem : A)
    (startpos pos : nat) : list A :=
  match rounds with
  | O => <[pos := newitem]> heap
  | S rounds =>
      if bool_decide (startpos < pos)%nat then
        let parentpos := ((pos - 1) / 2)%nat in
        let parent := default newitem (heap !! parentpos) in
        if lt newitem parent then
          _siftdown_loop rounds (<[pos := parent]> heap) newitem startpos parentpos
        else <[pos := newitem]> heap
      else <[pos := newitem]> heap
  end.

Definition _siftdown (heap : list A) (startpos pos : nat) : list A :=
  match heap !! pos with
  | Some newitem => _siftdown_loop pos heap newitem startpos pos
  | None => heap
  end.

(** [_siftup(heap, pos)]: the loop moving the smaller child up; returns
    the heap and the final [pos]. *)
Fixpoint _siftup_loop (rounds : nat) (heap : list A) (endpos pos : nat)
    : list A * nat :=
  match rounds with
  | O => (heap, pos)
  | S rounds =>
      let childpos := (2 * pos + 1)%nat in
      if bool_decide (childpos < endpos)%nat then
        let rightpos := (childpos + 1)%nat in
        let childpos :=
          if bool_decide (rightpos < endpos)%nat then
            match heap !! childpos, heap !! rightpos with
            | Some c, Some r => if negb (lt c r) then rightpos else childpos
            | _, _ => childpos
            end
          else childpos in
        match heap !! childpos with
        | Some c => _siftup_loop rounds (<[pos := c]> heap) endpos childpos
        | None => (heap, pos)
        end
      else (heap, pos)
  end.

Definition _siftup (heap : list A) (pos : nat) : list A :=
  match heap !! pos with
  | Some newitem =>
      let '(heap, last) := _siftup_loop (length heap) heap (length heap) pos in
      _siftdown (<[last := newitem]> heap) pos last
  | None => heap
  end.

Definition heappush (heap : list A) (item : A) : list A :=
  _siftdown (heap ++ [item]) 0 (length heap).

(** [heappop]: [None] stands for the [IndexError] of an empty heap. *)
Definition heappop (heap : list A) : option (A * list A) :=
  match reverse heap with
  | [] => None
  | lastelt :: rest =>
      let heap := reverse rest in
      match heap with
      | [] => Some (lastelt, [])
      | returnitem :: _ => Some (returnitem, _siftup (<[0%nat := lastelt]> heap) 0)
      end
  end.

End heapq.
End heapq.

(** ** search_node.py: the collection of unexpanded nodes *)

Module OpenNodeCollection.
Section OpenNodeCollection.
Context {Config : Type}.

(** [open] is the underlying list, deque or heap.  The bound methods
    [insert] and [extract] chosen by the constructor are determined by
    [search_strategy], which is kept for that purpose. *)
Record t := Build {
  open : list (SearchNode.t Config);
  search_strategy : Z
}.

Definition uses_heap (search_strategy : Z) : bool :=
  bool_decide (search_strategy = _UCS) || bool_decide (search_strategy = _BEST_FIRST)
  || bool_decide (search_strategy = _ASTAR) || bool_decide (search_strategy = _CUSTOM).

Definition __init__ (search_strategy : Z) (p : Process) : t * Process :=
  if bool_decide (search_strategy = _DEPTH_FIRST) then (Build [] search_strategy, p)
  else if bool_decide (search_strategy = _BREADTH_FIRST) then (Build [] search_strategy, p)
  else if bool_decide (search_strategy = _UCS) then
    (Build [] search_strategy, set_SearchNode_lt_type _G p)
  else if bool_decide (search_strategy = _BEST_FIRST) then
    (Build [] search_strategy, set_SearchNode_lt_type _H p)
  else if bool_decide (search_strategy = _ASTAR) then
    (Build [] search_strategy, set_SearchNode_lt_type _SUM_HG p)
  else if bool_decide (search_strategy = _CUSTOM) then
    (Build [] search_strategy, set_SearchNode_lt_type _C p)
  else (Build [] search_strategy, p).

(** For a strategy outside the six, the constructor sets no attribute and
    every later use fails with [AttributeError]. *)
Definition insert (self : t) (node : SearchNode.t Config) (p : Process) : result t :=
  if bool_decide (search_strategy self = _DEPTH_FIRST) then
    Ok (Build (open self ++ [node]) (search_strategy self))
  else if bool_decide (search_strategy self = _BREADTH_FIRST) then
    Ok (Build (open self ++ [node]) (search_strategy self))
  else if uses_heap (search_strategy self) then
    Ok (Build (heapq.heappush (SearchNode.__lt__ (SearchNode_lt_type p)) (open self) node)
              (search_strategy self))
  else Raise AttributeError.

Definition extract (self : t) (p : Process) : result (SearchNode.t Config * t) :=
  if bool_decide (search_strategy self = _DEPTH_FIRST) then
    match reverse (open self) with
    | node :: rest => Ok (node, Build (reverse rest) (search_strategy self))
    | [] => Raise IndexError
    end
  else if bool_decide (search_strategy self = _BREADTH_FIRST) then
    match open self with
    | node :: rest => Ok (node, Build rest (search_strategy self))
    | [] => Raise IndexError
    end
  else if uses_heap (search_strategy self) then
    match heapq.heappop (SearchNode.__lt__ (SearchNode_lt_type p)) (open self) with
    | Some (node, rest) => Ok (node, Build rest (search_strategy self))
    | None => Raise IndexError
    end
  else Raise AttributeError.

Definition known_strategy (search_strategy : Z) : bool :=
  bool_decide (search_strategy = _DEPTH_FIRST)
  || bool_decide (search_strategy = _BREADTH_FIRST)
  || uses_heap search_strategy.

Definition is_empty (self : t) : result bool :=
  if known_strategy (search_strategy self) then
    Ok (match open self with [] => true | _ :: _ => false end)
  else Raise AttributeError.

End OpenNodeCollection.
Arguments t : clear implicits.
End OpenNodeCollection.

(** ** search_statistics.py *)

Module SearchStatistics.

Record t := Build {
  states_expanded : nat;
  states_generated : nat;
  states_pruned_cycles : nat;
  states_pruned_cost : nat;
  total_time : Z
}.

End SearchStatistics.

(** ** search_engine.py *)

Module SearchEngine.
Section SearchEngine.
Context {Config Key : Type} `{Countable Key} {problem : StateSpace.Problem Config Key}.

Local Abbreviation State := (StateSpace.t Config).
Local Abbreviation Node := (SearchNode.t Config).
Local Abbreviation FvalFn := (StateSpace.t Config -> Z -> Z -> nat -> Z).

(** [_zero_hfn] and the default [_fval_function] (which returns the
    [hval] of the node it is given). *)
Definition _zero_hfn (state : State) : Z := 0.
Definition _fval_function : FvalFn := fun _ hval _ _ => hval.

(** The engine object.  [path_to_gval] is the cycle-check dictionary. *)
Record t := Build {
  strategy : Z;
  cc : Z;
  n_cc_pruned : nat;
  n_cost_pruned : nat;
  open_nodes : option (OpenNodeCollection.t Config);
  path_to_gval : gmap Key Z;
  goal_fn : option (State -> bool);
  heur_fn : option (State -> Z);
  fval_function : option FvalFn;
  search_start_time : Z;
  search_stop_time : option Z
}.

Definition set_strategy_field (v : Z) (e : t) : t :=
  Build v (cc e) (n_cc_pruned e) (n_cost_pruned e) (open_nodes e) (path_to_gval e)
        (goal_fn e) (heur_fn e) (fval_function e) (search_start_time e) (search_stop_time e).
Definition set_cc (v : Z) (e : t) : t :=
  Build (strategy e) v (n_cc_pruned e) (n_cost_pruned e) (open_nodes e) (path_to_gval e)
        (goal_fn e) (heur_fn e) (fval_function e) (search_start_time e) (search_stop_time e).
Definition set_n_cc_pruned (v : nat) (e : t) : t :=
  Build (strategy e) (cc e) v (n_cost_pruned e) (open_nodes e) (path_to_gval e)
        (goal_fn e) (heur_fn e) (fval_function e) (search_start_time e) (search_stop_time e).
Definition set_n_cost_pruned (v : nat) (e : t) : t :=
  Build (strategy e) (cc e) (n_cc_pruned e) v (open_nodes e) (path_to_gval e)
        (goal_fn e) (heur_fn e) (fval_function e) (search_start_time e) (search_stop_time e).
Definition set_open_nodes (v : option (OpenNodeCollection.t Config)) (e : t) : t :=
  Build (strategy e) (cc e) (n_cc_pruned e) (n_cost_pruned e) v (path_to_gval e)
        (goal_fn e) (heur_fn e) (fval_function e) (search_start_time e) (search_stop_time e).
Definition set_path_to_gval (v : gmap Key Z) (e : t) : t :=
  Build (strategy e) (cc e) (n_cc_pruned e) (n_cost_pruned e) (open_nodes e) v
        (goal_fn e) (heur_fn e) (fval_function e) (search_start_time e) (search_stop_time e).
Definition set_functions (g : State -> bool) (h : State -> Z) (f : FvalFn) (e : t) : t :=
  Build (strategy e) (cc e) (n_cc_pruned e) (n_cost_pruned e) (open_nodes e) (path_to_gval e)
        (Some g) (Some h) (Some f) (search_start_time e) (search_stop_time e).
Definition set_times (start : Z) (stop : option Z) (e : t) : t :=
  Build (strategy e) (cc e) (n_cc_pruned e) (n_cost_pruned e) (open_nodes e) (path_to_gval e)
        (goal_fn e) (heur_fn e) (fval_function e) start stop.

Definition init_statistics (p : Process) : Process :=
  set_StateSpace_n 1 (set_SearchNode_n 0 p).

Definition set_strategy (self : t) (strategy : string) : result t :=
  match _SEARCH_STRATEGY_MAP !! strategy with
  | None => Raise ValueError
  | Some v => Ok (set_strategy_field v self)
  end.

Definition set_cycle_check (self : t) (cc : string) : result t :=
  match _CYCLE_CHECK_MAP !! cc with
  | None => Raise ValueError
  | Some v =>
      if bool_decide (cc = _CC_DEFAULT_STR) && bool_decide (strategy self = _DEPTH_FIRST)
      then Ok (set_cc _CC_PATH self)
      else Ok (set_cc v self)
  end.

(** The attributes as [__init__] first assigns them. *)
Definition blank : t := Build (-1) (-1) 0 0 None ∅ None None None (-1) (Some (-1)).

Definition __init__ (strategy cc : string) : result t :=
  let self := blank in
  self ← set_strategy self strategy;
  set_cycle_check self cc.

Definition init_search (self : t) (init_state : State) (goal_fn : State -> bool)
    (heur_fn : State -> Z) (fval_fn : FvalFn) (p : Process) : result (t * Process) :=
  let p := init_statistics p in
  let '(open_nodes, p) := OpenNodeCollection.__init__ (strategy self) p in
  let '(node, p) := SearchNode.__init__ init_state (heur_fn init_state) fval_fn p in
  let self :=
    if bool_decide (cc self = _CC_FULL) then
      set_path_to_gval
        (<[StateSpace.hashable_state init_state := StateSpace.gval init_state]>
           (path_to_gval self)) self
    else self in
  open_nodes ← OpenNodeCollection.insert open_nodes node p;
  Ok (set_functions goal_fn heur_fn fval_fn (set_open_nodes (Some open_nodes) self), p).

Definition is_prunable (self : t) (successor : State) : bool :=
  let successor_hash := StateSpace.hashable_state successor in
  let contains_full_cycle :=
    bool_decide (cc self = _CC_FULL)
    && match path_to_gval self !! successor_hash with
       | Some c => bool_decide (StateSpace.gval successor > c)
       | None => false
       end in
  let contains_path_cycle :=
    bool_decide (cc self = _CC_PATH) && StateSpace.has_path_cycle successor in
  contains_full_cycle || contains_path_cycle.

(** Python truthiness of an optional number ([if timebound:],
    [if self.search_stop_time:]). *)
Definition truthy (v : option Z) : bool :=
  match v with
  | Some z => bool_decide (z ≠ 0)
  | None => false
  end.

(** Calling an attribute that may still be [None]. *)
Definition callable {F : Type} (f : option F) : result F :=
  match f with
  | Some f => Ok f
  | None => Raise TypeError
  end.

Definition over_costbound (costbound : option (Z * Z * Z)) (gval hval : Z) : bool :=
  match costbound with
  | None => false
  | Some (b0, b1, b2) =>
      bool_decide (gval > b0) || bool_decide (hval > b1) || bool_decide (gval + hval > b2)
  end.

(** The body of [for succ in successors:] in [_searchOpen]. *)
Definition visit_successor (heur_fn : option (State -> Z)) (costbound : option (Z * Z * Z))
    (node : Node) (self : t) (p : Process) (succ : State) : result (t * Process) :=
  let hash_state := StateSpace.hashable_state succ in
  if is_prunable self succ then
    Ok (set_n_cc_pruned (S (n_cc_pruned self)) self, p)
  else
    h ← callable heur_fn;
    let succ_hval := h succ in
    if over_costbound costbound (StateSpace.gval succ) succ_hval then
      Ok (set_n_cost_pruned (S (n_cost_pruned self)) self, p)
    else
      match open_nodes self with
      | None => Raise AttributeError
      | Some open_nodes =>
          let '(new_node, p) :=
            SearchNode.__init__ succ succ_hval (SearchNode.fval_function node) p in
          open_nodes ← OpenNodeCollection.insert open_nodes new_node p;
          let self := set_open_nodes (Some open_nodes) self in
          let self :=
            if bool_decide (cc self = _CC_FULL) then
              set_path_to_gval (<[hash_state := StateSpace.gval succ]> (path_to_gval self)) self
            else self in
          Ok (self, p)
      end.

Fixpoint visit_successors (heur_fn : option (State -> Z)) (costbound : option (Z * Z * Z))
    (node : Node) (self : t) (p : Process) (successors : list State)
    : result (t * Process) :=
  match successors with
  | [] => Ok (self, p)
  | succ :: successors =>
      '(self, p) ← visit_successor heur_fn costbound node self p succ;
      visit_successors heur_fn costbound node self p successors
  end.

(** What one round of [while not self.open_nodes.is_empty():] does:
    [Exhausted] when the loop condition fails (OPEN is empty), [Found]
    for [return node], [TimedOut] for [return False] after the time bound,
    [Superseded] for the [continue] taken when a cheaper path is recorded,
    and [Expanded] when the successors of the node were enumerated. *)
Inductive Outcome :=
| Exhausted
| Found (node : Node)
| TimedOut
| Superseded (node : Node)
| Expanded (node : Node).

(** [if self.search_stop_time: if os.times()[0] > self.search_stop_time:]:
    the clock is read only when a stop time is set. *)
Definition past_stop_time (self : t) (p : Process) : bool * Process :=
  if truthy (search_stop_time self) then
    let '(now, p) := os_times_0 p in
    (bool_decide (now > default 0 (search_stop_time self)), p)
  else (false, p).

(** [self.cc == _CC_FULL and self.path_to_gval[...] < node.gval]: the
    subscript raises [KeyError] for a missing key. *)
Definition superseded (self : t) (node : Node) : result bool :=
  if bool_decide (cc self = _CC_FULL) then
    match path_to_gval self !! StateSpace.hashable_state (SearchNode.state node) with
    | Some c => Ok (bool_decide (c < SearchNode.gval node))
    | None => Raise KeyError
    end
  else Ok false.

(** [successors = node.state.successors()] and the loop over them. *)
Definition expand (heur_fn : option (State -> Z)) (costbound : option (Z * Z * Z))
    (node : Node) (self : t) (p : Process) : result (t * Process) :=
  let '(successors, p) := StateSpace.successors (SearchNode.state node) p in
  visit_successors heur_fn costbound node self p successors.

Definition round (goal_fn : option (State -> bool)) (heur_fn : option (State -> Z))
    (costbound : option (Z * Z * Z)) (self : t) (p : Process)
    : result (Outcome * t * Process) :=
  match open_nodes self with
  | None => Raise AttributeError
  | Some open_nodes =>
      empty ← OpenNodeCollection.is_empty open_nodes;
      if (empty : bool) then Ok (Exhausted, self, p)
      else
        '(node, open_nodes) ← OpenNodeCollection.extract open_nodes p;
        let self := set_open_nodes (Some open_nodes) self in
        g ← callable goal_fn;
        if (g (SearchNode.state node) : bool) then Ok (Found node, self, p)
        else
          let '(late, p) := past_stop_time self p in
          if (late : bool) then
            Ok (TimedOut, self, print "Search has exceeded the time bound provided." p)
          else
            stale ← superseded self node;
            if (stale : bool) then Ok (Superseded node, self, p)
            else
              '(self, p) ← expand heur_fn costbound node self p;
              Ok (Expanded node, self, p)
  end.

(** [_searchOpen]: [None] when [fuel] rounds were not enough to leave
    the loop. *)
Fixpoint _searchOpen (fuel : nat) (goal_fn : option (State -> bool))
    (heur_fn : option (State -> Z)) (costbound : option (Z * Z * Z))
    (self : t) (p : Process) : option (result (option Node * t * Process)) :=
  match fuel with
  | O => None
  | S fuel =>
      match round goal_fn heur_fn costbound self p with
      | Raise e => Some (Raise e)
      | Ok (Exhausted, self, p) => Some (Ok (None, self, p))
      | Ok (Found node, self, p) => Some (Ok (Some node, self, p))
      | Ok (TimedOut, self, p) => Some (Ok (None, self, p))
      | Ok (Superseded _, self, p) => _searchOpen fuel goal_fn heur_fn costbound self p
      | Ok (Expanded _, self, p) => _searchOpen fuel goal_fn heur_fn costbound self p
      end
  end.

(** The first lines of [search]: the start time is read and the stop
    time is either unset or [timebound] later. *)
Definition search_set_times (self : t) (timebound : option Z) (p : Process) : t * Process :=
  let '(start, p) := os_times_0 p in
  let self := set_times start None self in
  let self :=
    if truthy timebound then
      set_times start (Some (start + default 0 timebound)) self
    else self in
  (self, p).

(** [search]: the pair returned has [None] for [False]. *)
Definition search (fuel : nat) (self : t) (timebound : option Z)
    (costbound : option (Z * Z * Z)) (p : Process)
    : option (result (option State * SearchStatistics.t * t * Process)) :=
  let '(self, p) := search_set_times self timebound p in
  match _searchOpen fuel (goal_fn self) (heur_fn self) costbound self p with
  | None => None
  | Some (Raise e) => Some (Raise e)
  | Some (Ok (goal_node, self, p)) =>
      let '(stop, p) := os_times_0 p in
      let total_search_time := stop - search_start_time self in
      let stats :=
        SearchStatistics.Build (SearchNode_n p) (StateSpace_n p)
          (n_cc_pruned self) (n_cost_pruned self) total_search_time in
      match goal_node with
      | Some goal_node => Some (Ok (Some (SearchNode.state goal_node), stats, self, p))
      | None => Some (Ok (None, stats, self, p))
      end
  end.

(** *** Observing a run

    [leaves_loop o] tells whether the outcome [o] of a round ends
    [_searchOpen].  [rounds n] performs up to [n] rounds of the loop, as
    [_searchOpen] does, and returns the outcomes of the rounds performed
    together with the engine and the process reached. *)
Definition leaves_loop (o : Outcome) : bool :=
  match o with
  | Exhausted | Found _ | TimedOut => true
  | Superseded _ | Expanded _ => false
  end.

Fixpoint rounds (n : nat) (goal_fn : option (State -> bool))
    (heur_fn : option (State -> Z)) (costbound : option (Z * Z * Z))
    (self : t) (p : Process) : result (list Outcome * t * Process) :=
  match n with
  | O => Ok ([], self, p)
  | S n =>
      '(o, self, p) ← round goal_fn heur_fn costbound self p;
      if leaves_loop o then Ok ([o], self, p)
      else
        '(log, self, p) ← rounds n goal_fn heur_fn costbound self p;
        Ok (o :: log, self, p)
  end.

(** The rounds of the loop that [search] performs. *)
Definition search_rounds (n : nat) (self : t) (timebound : option Z)
    (costbound : option (Z * Z * Z)) (p : Process)
    : result (list Outcome * t * Process) :=
  let '(self, p) := search_set_times self timebound p in
  rounds n (goal_fn self) (heur_fn self) costbound self p.

(** What [_searchOpen] returns after a round that leaves the loop. *)
Definition returned (o : Outcome) : option Node :=
  match o with
  | Found node => Some node
  | _ => None
  end.

Definition is_expansion (o : Outcome) : bool :=
  match o with
  | Expanded _ => true
  | _ => false
  end.

(** The number of nodes whose successors were enumerated. *)
Definition expansions (log : list Outcome) : nat :=
  length (filter (fun o => is_expansion o = true) log).

(** The identity of the state of a node. *)
Definition node_hash (node : Node) : Key :=
  StateSpace.hashable_state (SearchNode.state node).

(** [m'] records every identity that [m] records, at a cost no higher. *)
Definition ledger_le (m m' : gmap Key Z) : Prop :=
  forall k c, m !! k = Some c -> exists c', m' !! k = Some c' /\ c' <= c.

(** The identity of [node] is recorded at a cost no higher than the
    cost of [node]. *)
Definition recorded (m : gmap Key Z) (node : Node) : Prop :=
  exists c, m !! node_hash node = Some c /\ c <= SearchNode.gval node.

(** Every node on OPEN is recorded in the cycle-check dictionary. *)
Definition frontier_recorded (self : t) : Prop :=
  exists open_nodes,
    SearchEngine.open_nodes self = Some open_nodes
    /\ Forall (recorded (path_to_gval self)) (OpenNodeCollection.open open_nodes).

(** The engine is fit for a round of the loop: OPEN exists for a known
    strategy, the goal test and the heuristic are set, and under full
    cycle checking every node on OPEN is recorded. *)
Definition ready (self : t) : Prop :=
  (exists open_nodes,
      SearchEngine.open_nodes self = Some open_nodes
      /\ OpenNodeCollection.known_strategy
           (OpenNodeCollection.search_strategy open_nodes) = true)
  /\ is_Some (goal_fn self)
  /\ is_Some (heur_fn self)
  /\ (cc self = _CC_FULL -> frontier_recorded self).

(** The attributes that a search does not assign. *)
Definition same_settings (self self' : t) : Prop :=
  strategy self' = strategy self
  /\ cc self' = cc self
  /\ goal_fn self' = goal_fn self
  /\ heur_fn self' = heur_fn self
  /\ fval_function self' = fval_function self
  /\ search_start_time self' = search_start_time self
  /\ search_stop_time self' = search_stop_time self.

End SearchEngine.
Arguments t Config Key {_ _}.
Arguments Outcome : clear implicits.
End SearchEngine.

(** ** A small problem for the examples

    States are the vertices of a graph given by its edge table.  From
    vertex 0 two different actions lead to vertex 1 at the same cost;
    vertex 1 leads on to vertex 2 and back to vertex 0. *)

Module Examples.

Definition graph_problem (edges : nat -> list (string * Z * nat))
    : StateSpace.Problem nat nat :=
  {| StateSpace.hashable_state := fun s => StateSpace.config s;
     StateSpace.moves := fun s =>
       map (fun '(a, w, v) => (a, StateSpace.gval s + w, v))
           (edges (StateSpace.config s)) |}.

Definition two_ways_edges (v : nat) : list (string * Z * nat) :=
  match v with
  | 0%nat => [("a", 1, 1%nat); ("b", 1, 1%nat)]
  | 1%nat => [("c", 1, 2%nat); ("back", 1, 0%nat)]
  | _ => []
  end.

#[export] Instance two_ways : StateSpace.Problem nat nat := graph_problem two_ways_edges.

(** Three clocks: one that advances by one at every reading, one that
    jumps from 0 to 5 after the first reading, and one that does so after
    the second reading. *)
Definition steady (n : nat) : Z := Z.of_nat n.
Definition sudden (n : nat) : Z := match n with O => 0 | S _ => 5 end.
Definition late (n : nat) : Z := match n with O => 0 | S O => 0 | S (S _) => 5 end.

Definition ticking : Process := fresh_process steady.

(** The initial state at vertex [v]. *)
Definition initial (v : nat) : StateSpace.t nat :=
  fst (StateSpace.__init__ "START" 0 None v ticking).

Definition start : StateSpace.t nat := initial 0.

Definition never (s : StateSpace.t nat) : bool := false.
Definition always (s : StateSpace.t nat) : bool := true.

(** A caller: the initial state at vertex [v] is built, an engine is
    made by the constructor and prepared by [init_search]. *)
Definition prepared (times : nat -> Z) (v : nat) (strategy cc : string)
    (goal_fn : StateSpace.t nat -> bool)
    : result (unit * SearchEngine.t nat nat * Process) :=
  let '(init_state, p) := StateSpace.__init__ "START" 0 None v (fresh_process times) in
  self ← SearchEngine.__init__ strategy cc;
  '(self, p) ← SearchEngine.init_search self init_state goal_fn SearchEngine._zero_hfn
                 SearchEngine._fval_function p;
  Ok ((), self, p).

(** The engine as the constructor returns it, and the process once the
    initial state at vertex [v] is built. *)
Definition made (strategy cc : string) : SearchEngine.t nat nat :=
  match SearchEngine.__init__ strategy cc with
  | Ok self => self
  | Raise _ => SearchEngine.blank
  end.

Definition built (times : nat -> Z) (v : nat) : Process :=
  snd (StateSpace.__init__ "START" 0 None v (fresh_process times)).

Definition engine_of {A} (r : result (A * SearchEngine.t nat nat * Process))
    : SearchEngine.t nat nat :=
  match r with
  | Ok (_, self, _) => self
  | Raise _ => SearchEngine.blank
  end.

Definition process_of {A} (r : result (A * SearchEngine.t nat nat * Process)) : Process :=
  match r with
  | Ok (_, _, p) => p
  | Raise _ => ticking
  end.

Definition log_of
    (r : result (list (SearchEngine.Outcome nat) * SearchEngine.t nat nat * Process))
    : list (SearchEngine.Outcome nat) :=
  match r with
  | Ok (log, _, _) => log
  | Raise _ => []
  end.

(** What the caller of [search] receives. *)
Definition answer
    (r : option (result (option (StateSpace.t nat) * SearchStatistics.t
                         * SearchEngine.t nat nat * Process)))
    : option (option (StateSpace.t nat) * SearchStatistics.t) :=
  match r with
  | Some (Ok (found, stats, _, _)) => Some (found, stats)
  | _ => None
  end.

(** The two successors of [start], both at vertex 1 with cost 1, and a
    successor that returns to vertex 0. *)
Definition via_a : StateSpace.t nat := StateSpace.Build "a" 1 (Some start) 1 1%nat.
Definition via_b : StateSpace.t nat := StateSpace.Build "b" 1 (Some start) 2 1%nat.
Definition back_home : StateSpace.t nat := StateSpace.Build "back" 2 (Some via_a) 4 0%nat.

Definition start_node : SearchNode.t nat :=
  SearchNode.Build start 0 0 0 SearchEngine._fval_function.

(** Breadth-first search with full cycle checking and a goal that is
    never met: the engine as prepared, when [search] without bounds
    enters the loop, after the start node is taken from OPEN, after its
    successors are generated, after the first successor is visited, and
    after the second. *)
Definition bfs_prepared : result (unit * SearchEngine.t nat nat * Process) :=
  prepared steady 0 "breadth_first" "full" never.

Definition bfs_searching : result (unit * SearchEngine.t nat nat * Process) :=
  let '(self, p) :=
    SearchEngine.search_set_times (engine_of bfs_prepared) None (process_of bfs_prepared) in
  Ok ((), self, p).

Definition bfs_extracted : result (unit * SearchEngine.t nat nat * Process) :=
  match SearchEngine.open_nodes (engine_of bfs_searching) with
  | Some open_nodes =>
      '(_, open_nodes) ← OpenNodeCollection.extract open_nodes (process_of bfs_searching);
      Ok ((), SearchEngine.set_open_nodes (Some open_nodes) (engine_of bfs_searching),
          process_of bfs_searching)
  | None => Raise AttributeError
  end.

Definition bfs_generated : result (unit * SearchEngine.t nat nat * Process) :=
  let '(_, p) := StateSpace.successors start (process_of bfs_extracted) in
  Ok ((), engine_of bfs_extracted, p).

Definition bfs_seen_a : result (unit * SearchEngine.t nat nat * Process) :=
  '(self, p) ← SearchEngine.visit_successor (Some SearchEngine._zero_hfn) None start_node
                 (engine_of bfs_generated) (process_of bfs_generated) via_a;
  Ok ((), self, p).

Definition bfs_seen_b : result (unit * SearchEngine.t nat nat * Process) :=
  '(self, p) ← SearchEngine.visit_successor (Some SearchEngine._zero_hfn) None start_node
                 (engine_of bfs_seen_a) (process_of bfs_seen_a) via_b;
  Ok ((), self, p).

(** The same search of the dead end under a time bound of 1, with the
    clock jumping before the first round and after it. *)
Definition hurried : result (unit * SearchEngine.t nat nat * Process) :=
  prepared sudden 2 "breadth_first" "full" never.
Definition unhurried : result (unit * SearchEngine.t nat nat * Process) :=
  prepared late 2 "breadth_first" "full" never.

(** A search whose initial state is a goal. *)
Definition at_goal : result (unit * SearchEngine.t nat nat * Process) :=
  prepared steady 0 "breadth_first" "full" always.

End Examples.

(** ** search_engine.py: [get_strategy]

    The two dictionaries of [search_constants.py] as the sequences of
    their items, in the order in which they are written.  A dictionary
    comprehension inserts the items in that order, a later item replacing
    an earlier one with the same key. *)

Module Reporting.

Definition _SEARCH_STRATEGY_MAP_items : list (string * Z) :=
  [ (_DEPTH_FIRST_STR, _DEPTH_FIRST);
    (_BREADTH_FIRST_STR, _BREADTH_FIRST);
    (_BEST_FIRST_STR, _BEST_FIRST);
    (_ASTAR_STR, _ASTAR);
    (_UCS_STR, _UCS);
    (_CUSTOM_STR, _CUSTOM) ].

Definition _CYCLE_CHECK_MAP_items : list (string * Z) :=
  [ (_CC_DEFAULT_STR, _CC_FULL);
    (_CC_NONE_STR, _CC_NONE);
    (_CC_PATH_STR, _CC_PATH);
    (_CC_FULL_STR, _CC_FULL) ].

(** [{i: name for name, i in items}] *)
Definition inverted (items : list (string * Z)) : gmap Z string :=
  foldl (fun m '(name, i) => <[i := name]> m) ∅ items.

Section Reporting.
Context {Config Key : Type} `{Countable Key}.

Definition get_strategy (self : SearchEngine.t Config Key) : result string :=
  match inverted _SEARCH_STRATEGY_MAP_items !! SearchEngine.strategy self with
  | None => Raise KeyError
  | Some strategy =>
      match inverted _CYCLE_CHECK_MAP_items !! SearchEngine.cc self with
      | None => Raise KeyError
      | Some cc => Ok (strategy +:+ " with " +:+ cc +:+ " cycle checking")
      end
  end.

End Reporting.
End Reporting.

(** ** Filling and emptying a collection of open nodes *)

Module Frontier.
Section Frontier.
Context {Config : Type}.

(** [insert] called for each node of a list in turn. *)
Fixpoint insert_all (self : OpenNodeCollection.t Config)
    (nodes : list (SearchNode.t Config)) (p : Process)
    : result (OpenNodeCollection.t Config) :=
  match nodes with
  | [] => Ok self
  | node :: nodes =>
      self ← OpenNodeCollection.insert self node p;
      insert_all self nodes p
  end.

(** [extract] called for as long as [is_empty] is false, at most [fuel]
    times; the nodes in the order in which they come out. *)
Fixpoint extract_all (fuel : nat) (self : OpenNodeCollection.t Config) (p : Process)
    : result (list (SearchNode.t Config)) :=
  match fuel with
  | O => Ok []
  | S fuel =>
      empty ← OpenNodeCollection.is_empty self;
      if (empty : bool) then Ok []
      else
        '(node, self) ← OpenNodeCollection.extract self p;
        nodes ← extract_all fuel self p;
        Ok (node :: nodes)
  end.

(** The number by which [__lt__] orders nodes in each comparison mode,
    with the number that breaks ties. *)
Definition priority (lt_type : Z) (node : SearchNode.t Config) : Z * Z :=
  if bool_decide (lt_type = _SUM_HG) then
    (SearchNode.gval node + SearchNode.hval node, - SearchNode.gval node)
  else if bool_decide (lt_type = _G) then (SearchNode.gval node, 0)
  else if bool_decide (lt_type = _H) then (SearchNode.hval node, - SearchNode.gval node)
  else if bool_decide (lt_type = _C) then
    (SearchNode.fval (SearchNode.fval_function node) node, 0)
  else (SearchNode.gval node, 0).

(** Pairs of numbers compared by the first component, then the second. *)
Definition lex_lt (a b : Z * Z) : Prop :=
  a.1 < b.1 \/ (a.1 = b.1 /\ a.2 < b.2).

End Frontier.
End Frontier.

(** ** Heaps *)

Module Heap.
Section Heap.
Context {A : Type} (lt : A -> A -> bool).

(** [lt] is a strict weak order. *)
Record strict_weak : Prop := {
  sw_irrefl : forall a, lt a a = false;
  sw_trans : forall a b c, lt a b = true -> lt b c = true -> lt a c = true;
  sw_incomp : forall a b c, lt b a = false -> lt c b = false -> lt c a = false
}.

(** No item is smaller than the item at its parent position. *)
Definition is_heap (heap : list A) : Prop :=
  forall (i : nat) (x y : A),
    (0 < i)%nat -> heap !! i = Some x -> heap !! ((i - 1) / 2)%nat = Some y ->
    lt x y = false.

(** The same with the item at [pos] left out of account: the items at
    other positions are in order with their parents, and the items just
    below [pos] are in order with the item just above it. *)
Definition is_heap_around (heap : list A) (pos : nat) : Prop :=
  (forall (i : nat) (x y : A),
      (0 < i)%nat -> i <> pos -> ((i - 1) / 2)%nat <> pos ->
      heap !! i = Some x -> heap !! ((i - 1) / 2)%nat = Some y ->
      lt x y = false)
  /\ (forall (c : nat) (x y : A),
        (0 < c)%nat -> ((c - 1) / 2)%nat = pos -> (0 < pos)%nat ->
        heap !! c = Some x -> heap !! ((pos - 1) / 2)%nat = Some y ->
        lt x y = false).

(** No item just below [pos] is smaller than [newitem]. *)
Definition fits_above (heap : list A) (pos : nat) (newitem : A) : Prop :=
  forall (c : nat) (x : A),
    (0 < c)%nat -> ((c - 1) / 2)%nat = pos -> heap !! c = Some x ->
    lt x newitem = false.

End Heap.
End Heap.

(** ** sokoban_direction.py *)

Module sokoban_direction.

Record t := Build {
  name : string;
  dx : Z;
  dy : Z
}.

Definition move (self : t) (pos : Z * Z) : Z * Z :=
  (pos.1 + dx self, pos.2 + dy self).

Definition __repr__ (self : t) : string := name self.

Definition UP : t := Build "UP" 0 (-1).
Definition DOWN : t := Build "DOWN" 0 1.
Definition LEFT : t := Build "LEFT" (-1) 0.
Definition RIGHT : t := Build "RIGHT" 1 0.

End sokoban_direction.

(** ** sokoban_state.py

    The attributes that [SokobanState] adds to a state are its [Config].
    [hash] is the built-in function of that name, applied by
    [hashable_state] to the pair of the robots and the boxes. *)

Module SokobanState.
Import sokoban_direction.

Record Config := BuildConfig {
  width : Z;
  height : Z;
  robots : list (Z * Z);
  boxes : gset (Z * Z);
  storage : gset (Z * Z);
  obstacles : gset (Z * Z)
}.

Definition t : Type := StateSpace.t Config.

Definition _in_bounds (self : t) (loc : Z * Z) : bool :=
  let '(x, y) := loc in
  bool_decide (0 <= x < width (StateSpace.config self))
  && bool_decide (0 <= y < height (StateSpace.config self)).

(** The body of the inner loop of [successors]: [None] for [continue],
    otherwise the arguments of the constructor call. *)
Definition step (self : t) (robot_idx : nat) (robot_pos : Z * Z) (direction : sokoban_direction.t)
    : option (string * Z * Config) :=
  let c := StateSpace.config self in
  let new_pos := move direction robot_pos in
  if negb (_in_bounds self new_pos) || bool_decide (new_pos ∈ obstacles c) then None
  else
    let action :=
      "Move robot " +:+ pretty robot_idx +:+ " " +:+ __repr__ direction in
    if bool_decide (new_pos ∈ boxes c) then
      let box_dest := move direction new_pos in
      if negb (_in_bounds self box_dest) || bool_decide (box_dest ∈ obstacles c)
         || bool_decide (box_dest ∈ boxes c)
      then None
      else
        Some (action, StateSpace.gval self + 1,
              BuildConfig (width c) (height c) (<[robot_idx := new_pos]> (robots c))
                ((boxes c ∖ {[new_pos]}) ∪ {[box_dest]}) (storage c) (obstacles c))
    else
      Some (action, StateSpace.gval self + 1,
            BuildConfig (width c) (height c) (<[robot_idx := new_pos]> (robots c))
              (boxes c) (storage c) (obstacles c)).

(** The constructor calls that [successors] makes, in order. *)
Definition moves (self : t) : list (string * Z * Config) :=
  mjoin (imap (fun robot_idx robot_pos =>
                 omap (step self robot_idx robot_pos) [UP; RIGHT; DOWN; LEFT])
              (robots (StateSpace.config self))).

Definition problem (hash : list (Z * Z) * gset (Z * Z) -> Z) : StateSpace.Problem Config Z :=
  {| StateSpace.hashable_state := fun self =>
       hash (robots (StateSpace.config self), boxes (StateSpace.config self));
     StateSpace.moves := moves |}.

Definition sokoban_goal_state (state : t) : bool :=
  forallb (fun box => bool_decide (box ∈ storage (StateSpace.config state)))
          (elements (boxes (StateSpace.config state))).

(** The room is as the successors of a state keep it: robots and boxes
    within the bounds and off the obstacles. *)
Definition tidy (self : t) : Prop :=
  let c := StateSpace.config self in
  (forall pos, pos ∈ robots c -> _in_bounds self pos = true /\ pos ∉ obstacles c)
  /\ (forall box, box ∈ boxes c -> _in_bounds self box = true /\ box ∉ obstacles c).

(** Two states of the same puzzle: the same room, storage and
    obstacles, and as many robots and boxes. *)
Definition same_puzzle (self other : t) : Prop :=
  let c := StateSpace.config self in
  let d := StateSpace.config other in
  width d = width c /\ height d = height c
  /\ storage d = storage c /\ obstacles d = obstacles c
  /\ length (robots d) = length (robots c)
  /\ size (boxes d) = size (boxes c).

End SokobanState.

(** ** solution.py: the heuristics that are implemented with integers

    [heur_manhattan_distance] adds integers to the float [0.0].  A float
    that holds an integer is kept as that integer; floats hold the
    integers up to [2 ^ 53] exactly, and where a sum leaves that range
    the model stops with [None] instead of rounding. *)

Module solution.
Import SokobanState.

Definition heur_zero (state : SokobanState.t) : Z := 0.

(** [min] of a sequence: [ValueError] when it is empty. *)
Definition min_of (values : list Z) : result Z :=
  match values with
  | [] => Raise ValueError
  | v :: values => Ok (foldl Z.min v values)
  end.

Definition closest_dist (state : SokobanState.t) (box : Z * Z) : result Z :=
  min_of (map (fun s => Z.abs (box.1 - s.1) + Z.abs (box.2 - s.2))
              (elements (storage (StateSpace.config state)))).

(** [x + n] for a float [x] and an integer [n]. *)
Definition float_add (x n : Z) : option Z :=
  if bool_decide (Z.abs n <= 2 ^ 53) && bool_decide (Z.abs (x + n) <= 2 ^ 53)
  then Some (x + n)
  else None.

Fixpoint sum_closest (state : SokobanState.t) (unstored : list (Z * Z)) (manhattan_sum : Z)
    : option (result Z) :=
  match unstored with
  | [] => Some (Ok manhattan_sum)
  | box :: unstored =>
      match closest_dist state box with
      | Raise e => Some (Raise e)
      | Ok closest =>
          match float_add manhattan_sum closest with
          | Some manhattan_sum => sum_closest state unstored manhattan_sum
          | None => None
          end
      end
  end.

Definition heur_manhattan_distance (state : SokobanState.t) : option (result Z) :=
  let unstored_boxes :=
    boxes (StateSpace.config state) ∖ storage (StateSpace.config state) in
  sum_closest state (elements unstored_boxes) 0.

End solution.

(** ** Distances on the grid, to state what the heuristic computes *)

Module Distance.
Import SokobanState.

Definition manhattan (a b : Z * Z) : Z := Z.abs (a.1 - b.1) + Z.abs (a.2 - b.2).

(** The distance from [box] to the storage point nearest to it, as
    [closest_dist] returns it; [0] stands for the error. *)
Definition nearest (state : SokobanState.t) (box : Z * Z) : Z :=
  match solution.closest_dist state box with
  | Ok d => d
  | Raise _ => 0
  end.

(** The sum of [f] over a set of cells. *)
Definition total (f : Z * Z -> Z) (cells : gset (Z * Z)) : Z :=
  foldr Z.add 0 (map f (elements cells)).

Definition unstored (state : SokobanState.t) : gset (Z * Z) :=
  boxes (StateSpace.config state) ∖ storage (StateSpace.config state).

(** Boxes and storage points are within the bounds, and the room is
    small enough for the heuristic to stay among the integers that
    floats hold exactly. *)
Definition small_room (state : SokobanState.t) : Prop :=
  let c := StateSpace.config state in
  (forall cell, cell ∈ boxes c ∪ storage c -> _in_bounds state cell = true)
  /\ Z.of_nat (size (boxes c)) * (width c + height c) <= 2 ^ 53.

End Distance.

(** ** Predicates on runs of the engine *)

Module Runs.
Section Runs.
Context {Config Key : Type} `{Countable Key} {problem : StateSpace.Problem Config Key}.

(** [s] is the initial state or was returned by [successors] called on
    a state that is. *)
Inductive generated (init_state : StateSpace.t Config) : StateSpace.t Config -> Prop :=
| generated_init : generated init_state init_state
| generated_step (s s' : StateSpace.t Config) (p : Process) :
    generated init_state s ->
    s' ∈ (StateSpace.successors s p).1 ->
    generated init_state s'.

(** The identities along the path of a state, the state first. *)
Definition identities (s : StateSpace.t Config) : list Key :=
  map StateSpace.hashable_state (s :: StateSpace.ancestors s).

(** The state of every node on OPEN satisfies [Q]. *)
Definition every_open (Q : StateSpace.t Config -> Prop) (self : SearchEngine.t Config Key)
    : Prop :=
  exists open_nodes,
    SearchEngine.open_nodes self = Some open_nodes
    /\ Forall (fun node => Q (SearchNode.state node)) (OpenNodeCollection.open open_nodes).

(** The node of an outcome, when it has one. *)
Definition outcome_node (o : SearchEngine.Outcome Config) : option (SearchNode.t Config) :=
  match o with
  | SearchEngine.Found node | SearchEngine.Superseded node | SearchEngine.Expanded node =>
      Some node
  | SearchEngine.Exhausted | SearchEngine.TimedOut => None
  end.

End Runs.
End Runs.

(** ** More runs and a Sokoban room, on which the properties are instantiated *)

Module Scenarios.
Import Examples.

(** The goal test of a search for vertex [v]. *)
Definition reaches (v : nat) (s : StateSpace.t nat) : bool :=
  bool_decide (StateSpace.config s = v).

(** The parts of what [search] returns. *)
Definition found_of
    (r : option (result (option (StateSpace.t nat) * SearchStatistics.t
                         * SearchEngine.t nat nat * Process)))
    : StateSpace.t nat :=
  match r with
  | Some (Ok (Some s, _, _, _)) => s
  | _ => start
  end.

Definition stats_of
    (r : option (result (option (StateSpace.t nat) * SearchStatistics.t
                         * SearchEngine.t nat nat * Process)))
    : SearchStatistics.t :=
  match r with
  | Some (Ok (_, stats, _, _)) => stats
  | _ => SearchStatistics.Build 0 0 0 0 0
  end.

Definition engine_after
    (r : option (result (option (StateSpace.t nat) * SearchStatistics.t
                         * SearchEngine.t nat nat * Process)))
    : SearchEngine.t nat nat :=
  match r with
  | Some (Ok (_, _, self, _)) => self
  | _ => SearchEngine.blank
  end.

Definition process_after
    (r : option (result (option (StateSpace.t nat) * SearchStatistics.t
                         * SearchEngine.t nat nat * Process)))
    : Process :=
  match r with
  | Some (Ok (_, _, _, p)) => p
  | _ => ticking
  end.

(** Searches for vertex 2 from vertex 0: breadth-first with full cycle
    checking, without and with a cost bound, and depth-first with path
    checking. *)
Definition bfs_to_end : result (unit * SearchEngine.t nat nat * Process) :=
  prepared steady 0 "breadth_first" "full" (reaches 2).

Definition bfs_run
    : option (result (option (StateSpace.t nat) * SearchStatistics.t
                      * SearchEngine.t nat nat * Process)) :=
  SearchEngine.search 10 (engine_of bfs_to_end) None None (process_of bfs_to_end).


Definition dfs_to_end : result (unit * SearchEngine.t nat nat * Process) :=
  prepared steady 0 "depth_first" "path" (reaches 2).

Definition dfs_run
    : option (result (option (StateSpace.t nat) * SearchStatistics.t
                      * SearchEngine.t nat nat * Process)) :=
  SearchEngine.search 10 (engine_of dfs_to_end) None None (process_of dfs_to_end).

(** The same engine prepared and run a second time, after [bfs_run]. *)
Definition bfs_again : result (unit * SearchEngine.t nat nat * Process) :=
  '(self, p) ← SearchEngine.init_search (engine_after bfs_run) start (reaches 2)
                 SearchEngine._zero_hfn SearchEngine._fval_function (process_after bfs_run);
  Ok ((), self, p).

Definition bfs_again_run
    : option (result (option (StateSpace.t nat) * SearchStatistics.t
                      * SearchEngine.t nat nat * Process)) :=
  SearchEngine.search 10 (engine_of bfs_again) None None (process_of bfs_again).

(** The breadth-first search without cycle checking. *)
Definition plain_to_end : result (unit * SearchEngine.t nat nat * Process) :=
  prepared steady 0 "breadth_first" "none" (reaches 2).

Definition plain_run
    : option (result (option (StateSpace.t nat) * SearchStatistics.t
                      * SearchEngine.t nat nat * Process)) :=
  SearchEngine.search 10 (engine_of plain_to_end) None None (process_of plain_to_end).

(** Three nodes with different path costs and heuristic values. *)
Definition node_of (gval hval : Z) (index : nat) : SearchNode.t nat :=
  SearchNode.Build (StateSpace.Build "a" gval None index 0%nat) hval gval index
    SearchEngine._fval_function.

Definition three_nodes : list (SearchNode.t nat) :=
  [node_of 3 1 0; node_of 1 4 1; node_of 2 0 2].

(** A corridor of three cells: the robot, a box, a storage point.  The
    one move is to the right and pushes the box onto the storage
    point. *)
Definition corridor : SokobanState.Config :=
  SokobanState.BuildConfig 3 1 [(0, 0)] {[ (1, 0) ]} {[ (2, 0) ]} ∅.

Definition room : SokobanState.t := fst (StateSpace.__init__ "START" 0 None corridor ticking).

Definition after_room : Process := snd (StateSpace.__init__ "START" 0 None corridor ticking).

Definition pushed : SokobanState.t :=
  StateSpace.Build "Move robot 0 RIGHT" 1 (Some room) 1
    (SokobanState.BuildConfig 3 1 [(1, 0)] {[ (2, 0) ]} {[ (2, 0) ]} ∅).

(** The same corridor without the storage point. *)
Definition bare_room : SokobanState.t :=
  fst (StateSpace.__init__ "START" 0 None
         (SokobanState.BuildConfig 3 1 [(0, 0)] {[ (1, 0) ]} ∅ ∅) ticking).

Definition toy_hash (key : list (Z * Z) * gset (Z * Z)) : Z :=
  foldr (fun pos acc => pos.1 + 10 * pos.2 + 100 * acc) 0 (key.1 ++ elements key.2).

End Scenarios.

(** * Properties *)

(** ** state.py *)

Module StateSpaceTheory.
Section StateSpaceTheory.
Context {Config Key : Type} `{Countable Key} {problem : StateSpace.Problem Config Key}.

Lemma has_path_cycle_loop_true (hc : Key) (s : StateSpace.t Config) :
  StateSpace.has_path_cycle_loop hc s = true <->
  exists a, a ∈ s :: StateSpace.ancestors s /\ StateSpace.hashable_state a = hc.
Proof.
  induction s as [a g i c | a g q i c IH] using StateSpace.parent_ind; simpl.
  - case_bool_decide as Hk.
    + split; [intros _ | done]. eexists. split; [apply list_elem_of_here | done].
    + split; [done |]. intros (x & Hx & Hkx).
      apply list_elem_of_singleton in Hx. by subst.
  - case_bool_decide as Hk.
    + split; [intros _ | done]. eexists. split; [apply list_elem_of_here | done].
    + rewrite IH. split.
      * intros (x & Hx & Hkx). exists x. split; [by apply list_elem_of_further | done].
      * intros (x & Hx & Hkx). apply elem_of_cons in Hx as [-> | Hx]; [done |].
        by exists x.
Qed.

Lemma has_path_cycle_true (self : StateSpace.t Config) :
  StateSpace.has_path_cycle self = true <->
  exists a, a ∈ StateSpace.ancestors self
            /\ StateSpace.hashable_state a = StateSpace.hashable_state self.
Proof.
  unfold StateSpace.has_path_cycle.
  destruct self as [a g [q |] i c]; simpl.
  - apply has_path_cycle_loop_true.
  - split; [done |]. intros (x & Hx & _). by apply elem_of_nil in Hx.
Qed.

End StateSpaceTheory.
End StateSpaceTheory.

(** ** search_node.py *)

Module SearchNodeTheory.
Section SearchNodeTheory.
Context {Config : Type}.

Lemma lt_type_best_first (p : Process) :
  SearchNode_lt_type (snd (OpenNodeCollection.__init__ (Config := Config) _BEST_FIRST p)) = _H.
Proof. reflexivity. Qed.

Lemma lt_type_astar (p : Process) :
  SearchNode_lt_type (snd (OpenNodeCollection.__init__ (Config := Config) _ASTAR p)) = _SUM_HG.
Proof. reflexivity. Qed.

(** C7.  With the comparison mode that the greedy best-first frontier
    installs, [a < b] holds exactly when [a] has the lower h, or the same
    h and the larger g; with the mode that the A* frontier installs,
    exactly when [a] has the lower g+h, or the same g+h and the larger g. *)
Theorem lt_best_first_and_astar (p : Process) (a b : SearchNode.t Config) :
  (SearchNode.__lt__
     (SearchNode_lt_type (snd (OpenNodeCollection.__init__ (Config := Config) _BEST_FIRST p)))
     a b = true
   <-> SearchNode.hval a < SearchNode.hval b
       \/ (SearchNode.hval a = SearchNode.hval b /\ SearchNode.gval a > SearchNode.gval b))
  /\
  (SearchNode.__lt__
     (SearchNode_lt_type (snd (OpenNodeCollection.__init__ (Config := Config) _ASTAR p)))
     a b = true
   <-> SearchNode.gval a + SearchNode.hval a < SearchNode.gval b + SearchNode.hval b
       \/ (SearchNode.gval a + SearchNode.hval a = SearchNode.gval b + SearchNode.hval b
           /\ SearchNode.gval a > SearchNode.gval b)).
Proof.
  rewrite lt_type_best_first, lt_type_astar. unfold SearchNode.__lt__.
  split.
  - rewrite (bool_decide_eq_false_2 (_H = _SUM_HG)) by done.
    rewrite (bool_decide_eq_false_2 (_H = _G)) by done.
    rewrite (bool_decide_eq_true_2 (_H = _H)) by done.
    case_bool_decide; rewrite bool_decide_eq_true; lia.
  - rewrite (bool_decide_eq_true_2 (_SUM_HG = _SUM_HG)) by done.
    case_bool_decide; rewrite bool_decide_eq_true; lia.
Qed.

End SearchNodeTheory.

Lemma lt_best_first_and_astar_witness :
  SearchNode.__lt__ _H
    (SearchNode.Build Examples.via_a 3 5 1 SearchEngine._fval_function)
    (SearchNode.Build Examples.via_b 3 2 2 SearchEngine._fval_function) = true.
Proof.
  apply (proj1 (lt_best_first_and_astar Examples.ticking _ _)).
  right. simpl. lia.
Defined.

End SearchNodeTheory.

(** ** heapq: the heap operations only move items around *)

Module HeapqTheory.
Section HeapqTheory.
Context {A : Type} (lt : A -> A -> bool) (P : A -> Prop).

Lemma _siftdown_loop_Forall (rounds : nat) :
  forall (heap : list A) (newitem : A) (startpos pos : nat),
    Forall P heap -> P newitem ->
    Forall P (heapq._siftdown_loop lt rounds heap newitem startpos pos).
Proof.
  induction rounds as [| rounds IH]; intros heap newitem startpos pos Hheap Hnew; simpl.
  - by apply Forall_insert.
  - case_bool_decide; [| by apply Forall_insert].
    assert (P (default newitem (heap !! ((pos - 1) / 2)%nat))) as Hparent.
    { destruct (heap !! ((pos - 1) / 2)%nat) as [parent |] eqn:Hl; simpl; [| done].
      by eapply Forall_lookup_1. }
    destruct (lt newitem _); [| by apply Forall_insert].
    apply IH; [by apply Forall_insert | done].
Qed.

Lemma _siftdown_Forall (heap : list A) (startpos pos : nat) :
  Forall P heap -> Forall P (heapq._siftdown lt heap startpos pos).
Proof.
  intros Hheap. unfold heapq._siftdown.
  destruct (heap !! pos) as [newitem |] eqn:Hl; [| done].
  apply _siftdown_loop_Forall; [done |]. by eapply Forall_lookup_1.
Qed.

Lemma _siftup_loop_Forall (rounds : nat) :
  forall (heap : list A) (endpos pos : nat),
    Forall P heap -> Forall P (heapq._siftup_loop lt rounds heap endpos pos).1.
Proof.
  induction rounds as [| rounds IH]; intros heap endpos pos Hheap; simpl; [done |].
  case_bool_decide; [| done].
  match goal with |- context [heap !! ?i] =>
    destruct (heap !! i) as [c |] eqn:Hc; [| done] end.
  apply IH, Forall_insert; [done |]. by eapply Forall_lookup_1.
Qed.

Lemma _siftup_Forall (heap : list A) (pos : nat) :
  Forall P heap -> Forall P (heapq._siftup lt heap pos).
Proof.
  intros Hheap. unfold heapq._siftup.
  destruct (heap !! pos) as [newitem |] eqn:Hl; [| done].
  pose proof (_siftup_loop_Forall (length heap) heap (length heap) pos Hheap) as Hloop.
  destruct (heapq._siftup_loop lt (length heap) heap (length heap) pos) as [heap' last].
  apply _siftdown_Forall, Forall_insert; [done |].
  exact (Forall_lookup_1 _ _ _ _ Hheap Hl).
Qed.

Lemma heappush_Forall (heap : list A) (item : A) :
  Forall P heap -> P item -> Forall P (heapq.heappush lt heap item).
Proof.
  intros Hheap Hitem. apply _siftdown_Forall, Forall_app. by split; [| constructor].
Qed.

Lemma heappop_Forall (heap rest : list A) (item : A) :
  heapq.heappop lt heap = Some (item, rest) ->
  Forall P heap -> P item /\ Forall P rest.
Proof.
  unfold heapq.heappop. intros Hpop Hheap.
  apply Forall_reverse in Hheap.
  destruct (reverse heap) as [| lastelt others]; [done |].
  apply Forall_cons in Hheap as [Hlast Hothers].
  apply Forall_reverse in Hothers.
  destruct (reverse others) as [| returnitem tail] eqn:Hrev.
  - by simplify_eq.
  - simplify_eq. apply Forall_cons in Hothers as [Hret Htail].
    split; [done |]. apply _siftup_Forall. simpl. by constructor.
Qed.

Lemma heappop_nonempty (heap : list A) :
  heap <> [] -> is_Some (heapq.heappop lt heap).
Proof.
  intros Hne. unfold heapq.heappop.
  destruct (reverse heap) as [| lastelt others] eqn:Hrev.
  - apply (f_equal reverse) in Hrev. rewrite reverse_involutive in Hrev. done.
  - destruct (reverse others); eauto.
Qed.

End HeapqTheory.
End HeapqTheory.

(** ** The frontier holds only nodes that were inserted *)

Module OpenNodeCollectionTheory.
Section OpenNodeCollectionTheory.
Context {Config : Type} (P : SearchNode.t Config -> Prop).

Lemma insert_Forall (self self' : OpenNodeCollection.t Config)
    (node : SearchNode.t Config) (p : Process) :
  OpenNodeCollection.insert self node p = Ok self' ->
  Forall P (OpenNodeCollection.open self) -> P node ->
  Forall P (OpenNodeCollection.open self')
  /\ OpenNodeCollection.search_strategy self' = OpenNodeCollection.search_strategy self.
Proof.
  unfold OpenNodeCollection.insert. intros Hins Hopen Hnode.
  repeat case_match; simplify_eq; simpl; (split; [| done]).
  - apply Forall_app. by split; [| constructor].
  - apply Forall_app. by split; [| constructor].
  - by apply HeapqTheory.heappush_Forall.
Qed.

Lemma extract_Forall (self self' : OpenNodeCollection.t Config)
    (node : SearchNode.t Config) (p : Process) :
  OpenNodeCollection.extract self p = Ok (node, self') ->
  Forall P (OpenNodeCollection.open self) ->
  P node /\ Forall P (OpenNodeCollection.open self')
  /\ OpenNodeCollection.search_strategy self' = OpenNodeCollection.search_strategy self.
Proof.
  unfold OpenNodeCollection.extract. intros Hext Hopen.
  repeat case_match; simplify_eq; simpl.
  - apply Forall_reverse in Hopen.
    match goal with Hr : reverse _ = _ |- _ => rewrite Hr in Hopen end.
    apply Forall_cons in Hopen as [Hn Hrest]. by rewrite Forall_reverse.
  - by apply Forall_cons in Hopen as [Hn Hrest].
  - match goal with Hp : heapq.heappop _ _ = _ |- _ =>
      destruct (HeapqTheory.heappop_Forall _ P _ _ _ Hp Hopen) end.
    done.
Qed.

End OpenNodeCollectionTheory.
End OpenNodeCollectionTheory.

(** ** search_engine.py *)

Module SearchEngineTheory.
Import SearchEngine.

Ltac unfold_bind := unfold mbind, result_bind, bind in *.

Section SearchEngineTheory.
Context {Config Key : Type} `{Countable Key} {problem : StateSpace.Problem Config Key}.

Local Abbreviation State := (StateSpace.t Config).
Local Abbreviation Node := (SearchNode.t Config).
Local Abbreviation Engine := (SearchEngine.t Config Key).
Local Abbreviation Outcome := (SearchEngine.Outcome Config).

(** *** The order on dictionaries *)

Lemma ledger_le_refl (m : gmap Key Z) : ledger_le m m.
Proof. intros k c Hk. exists c. split; [done | lia]. Qed.

Lemma ledger_le_trans (m1 m2 m3 : gmap Key Z) :
  ledger_le m1 m2 -> ledger_le m2 m3 -> ledger_le m1 m3.
Proof.
  intros H12 H23 k c Hk.
  destruct (H12 k c Hk) as (c2 & Hk2 & Hle2).
  destruct (H23 k c2 Hk2) as (c3 & Hk3 & Hle3).
  exists c3. split; [done | lia].
Qed.

Lemma recorded_mono (m m' : gmap Key Z) (node : Node) :
  ledger_le m m' -> recorded m node -> recorded m' node.
Proof.
  intros Hle (c & Hk & Hc). destruct (Hle _ _ Hk) as (c' & Hk' & Hc').
  exists c'. split; [done | lia].
Qed.

Lemma same_settings_refl (self : Engine) : same_settings self self.
Proof. by repeat split. Qed.

Lemma same_settings_trans (e1 e2 e3 : Engine) :
  same_settings e1 e2 -> same_settings e2 e3 -> same_settings e1 e3.
Proof.
  unfold same_settings. intros (?&?&?&?&?&?&?) (?&?&?&?&?&?&?).
  repeat split; congruence.
Qed.

(** *** One successor *)

Lemma is_prunable_false_full (self : Engine) (succ : State) (c : Z) :
  is_prunable self succ = false -> cc self = _CC_FULL ->
  path_to_gval self !! StateSpace.hashable_state succ = Some c ->
  StateSpace.gval succ <= c.
Proof.
  unfold is_prunable. intros Hp Hcc Hk. rewrite Hk, Hcc in Hp. simpl in Hp.
  apply orb_false_iff in Hp as [Hp _].
  apply bool_decide_eq_false in Hp. lia.
Qed.

Lemma visit_successor_inv (heur_fn : option (State -> Z)) (costbound : option (Z * Z * Z))
    (node : Node) (self self' : Engine) (p p' : Process) (succ : State) :
  visit_successor heur_fn costbound node self p succ = Ok (self', p') ->
  same_settings self self'
  /\ ledger_le (path_to_gval self) (path_to_gval self')
  /\ (cc self = _CC_FULL -> frontier_recorded self -> frontier_recorded self').
Proof.
  unfold visit_successor. intros Hv.
  destruct (is_prunable self succ) eqn:Hprune.
  { simplify_eq. split_and!; [by repeat split | apply ledger_le_refl | intros _ Hf; exact Hf]. }
  unfold_bind. destruct heur_fn as [h |]; simpl in Hv; [| done].
  destruct (over_costbound _ _ _).
  { simplify_eq. split_and!; [by repeat split | apply ledger_le_refl | intros _ Hf; exact Hf]. }
  destruct (open_nodes self) as [open_nodes |] eqn:Hopen; [| done].
  simpl in Hv.
  destruct (OpenNodeCollection.insert _ _ _) as [open_nodes' |] eqn:Hins; [| done].
  simpl in Hv. case_bool_decide as Hcc; simplify_eq; simpl.
  - assert (ledger_le (path_to_gval self)
              (<[StateSpace.hashable_state succ := StateSpace.gval succ]> (path_to_gval self)))
      as Hle.
    { intros k c Hk. destruct (decide (k = StateSpace.hashable_state succ)) as [-> | Hne].
      - rewrite lookup_insert_eq. eexists. split; [done |].
        by eapply is_prunable_false_full.
      - rewrite lookup_insert_ne by done. exists c. split; [done | lia]. }
    split_and!; [by repeat split | done |].
    intros _ (open0 & Hopen0 & Hall). rewrite Hopen in Hopen0. simplify_eq.
    eexists. split; [done |].
    eapply OpenNodeCollectionTheory.insert_Forall; [done | |].
    + eapply Forall_impl; [done |]. intros x. by apply recorded_mono.
    + eexists. split; [apply lookup_insert_eq | simpl; lia].
  - split_and!; [by repeat split | apply ledger_le_refl | done].
Qed.

Lemma visit_successors_inv (heur_fn : option (State -> Z)) (costbound : option (Z * Z * Z))
    (node : Node) (successors : list State) :
  forall (self self' : Engine) (p p' : Process),
    visit_successors heur_fn costbound node self p successors = Ok (self', p') ->
    same_settings self self'
    /\ ledger_le (path_to_gval self) (path_to_gval self')
    /\ (cc self = _CC_FULL -> frontier_recorded self -> frontier_recorded self').
Proof.
  induction successors as [| succ successors IH]; intros self self' p p' Hv; simpl in Hv.
  - simplify_eq. split_and!; [apply same_settings_refl | apply ledger_le_refl | done].
  - unfold_bind.
    destruct (visit_successor _ _ _ _ _ _) as [[self1 p1] |] eqn:Hone; [| done].
    apply visit_successor_inv in Hone as (Hs1 & Hl1 & Hf1).
    apply IH in Hv as (Hs2 & Hl2 & Hf2).
    split_and!.
    + by eapply same_settings_trans.
    + by eapply ledger_le_trans.
    + intros Hcc Hf. apply Hf2; [| by apply Hf1].
      destruct Hs1 as (_ & Hcc1 & _). by rewrite Hcc1.
Qed.

(** *** One round of the loop *)

Lemma superseded_inv (self : Engine) (node : Node) (stale : bool) :
  superseded self node = Ok stale -> cc self = _CC_FULL ->
  exists c, path_to_gval self !! node_hash node = Some c
            /\ stale = bool_decide (c < SearchNode.gval node).
Proof.
  unfold superseded, node_hash. intros Hs Hcc.
  rewrite bool_decide_eq_true_2 in Hs by done.
  destruct (path_to_gval self !! _) as [c |]; [| done].
  simplify_eq. by exists c.
Qed.

Lemma expand_inv (heur_fn : option (State -> Z)) (costbound : option (Z * Z * Z))
    (node : Node) (self self' : Engine) (p p' : Process) :
  expand heur_fn costbound node self p = Ok (self', p') ->
  same_settings self self'
  /\ ledger_le (path_to_gval self) (path_to_gval self')
  /\ (cc self = _CC_FULL -> frontier_recorded self -> frontier_recorded self').
Proof.
  unfold expand. destruct (StateSpace.successors _ _) as [successors p1].
  apply visit_successors_inv.
Qed.

Lemma round_inv (goal_fn : option (State -> bool)) (heur_fn : option (State -> Z))
    (costbound : option (Z * Z * Z)) (self self' : Engine) (p p' : Process) (o : Outcome) :
  round goal_fn heur_fn costbound self p = Ok (o, self', p') ->
  same_settings self self'
  /\ ledger_le (path_to_gval self) (path_to_gval self')
  /\ (cc self = _CC_FULL -> frontier_recorded self ->
      frontier_recorded self'
      /\ forall a, o = Expanded a -> recorded (path_to_gval self') a)
  /\ (cc self = _CC_FULL -> forall a c, o = Expanded a ->
      path_to_gval self !! node_hash a = Some c -> SearchNode.gval a <= c).
Proof.
  unfold round. intros Hr.
  destruct (open_nodes self) as [open_nodes |] eqn:Hopen; [| done].
  unfold_bind.
  destruct (OpenNodeCollection.is_empty open_nodes) as [[] |]; [| | done].
  { simplify_eq. split_and!; [apply same_settings_refl | apply ledger_le_refl | |]; done. }
  destruct (OpenNodeCollection.extract open_nodes p) as [[node open_nodes'] |] eqn:Hext;
    [| done].
  remember (set_open_nodes (Some open_nodes') self) as self1 eqn:Hself1.
  assert (same_settings self self1) as Hs1 by (subst self1; by repeat split).
  assert (path_to_gval self1 = path_to_gval self) as Hl1 by (by subst self1).
  assert (frontier_recorded self -> frontier_recorded self1 /\ recorded (path_to_gval self) node)
    as Hf1.
  { intros (open0 & Hopen0 & Hall). rewrite Hopen in Hopen0. simplify_eq.
    destruct (OpenNodeCollectionTheory.extract_Forall _ _ _ _ _ Hext Hall) as (Hn & Hrest & _).
    split; [| done]. by eexists. }
  assert (cc self1 = cc self) as Hcc1 by (by subst self1).
  clear Hself1.
  destruct (callable goal_fn) as [g |]; [| done].
  destruct (g (SearchNode.state node)).
  { simplify_eq. split_and!; [done | rewrite <- Hl1; apply ledger_le_refl | |]; [| done].
    intros _ Hf. split; [by apply Hf1 | done]. }
  destruct (past_stop_time self1 p) as [[] p1].
  { simplify_eq. split_and!; [done | rewrite <- Hl1; apply ledger_le_refl | |]; [| done].
    intros _ Hf. split; [by apply Hf1 | done]. }
  destruct (superseded self1 node) as [stale |] eqn:Hstale; [| done].
  destruct stale.
  { simplify_eq. split_and!; [done | rewrite <- Hl1; apply ledger_le_refl | |]; [| done].
    intros _ Hf. split; [by apply Hf1 | done]. }
  destruct (expand heur_fn costbound node self1 p1) as [[self2 p2] |] eqn:Hexp; [| done].
  simplify_eq.
  apply expand_inv in Hexp as (Hs2 & Hl2 & Hf2). rewrite Hl1 in Hl2.
  split_and!; [by eapply same_settings_trans | done | |].
  - intros Hfull Hf. destruct (Hf1 Hf) as [Hf1' Hn].
    split; [apply Hf2; [congruence | done] |].
    intros a [= <-]. by eapply recorded_mono.
  - intros Hfull a c [= <-] Hk.
    apply superseded_inv in Hstale as (c0 & Hk0 & Hlt); [| congruence].
    rewrite Hl1, Hk in Hk0. simplify_eq.
    symmetry in Hlt. apply bool_decide_eq_false in Hlt. lia.
Qed.

(** *** Runs *)

Lemma rounds_inv (goal_fn : option (State -> bool)) (heur_fn : option (State -> Z))
    (costbound : option (Z * Z * Z)) (n : nat) :
  forall (self self' : Engine) (p p' : Process) (log : list Outcome),
    rounds n goal_fn heur_fn costbound self p = Ok (log, self', p') ->
    same_settings self self'
    /\ ledger_le (path_to_gval self) (path_to_gval self')
    /\ (cc self = _CC_FULL -> frontier_recorded self -> frontier_recorded self').
Proof.
  induction n as [| n IH]; intros self self' p p' log Hr; simpl in Hr.
  - simplify_eq. split_and!; [apply same_settings_refl | apply ledger_le_refl | done].
  - unfold_bind.
    destruct (round _ _ _ _ _) as [[[o self1] p1] |] eqn:Hround; [| done].
    apply round_inv in Hround as (Hs1 & Hl1 & Hf1 & _).
    destruct (leaves_loop o).
    + simplify_eq. split_and!; [done | done |]. intros Hcc Hf. by apply Hf1.
    + destruct (rounds n _ _ _ _ _) as [[[log1 self2] p2] |] eqn:Hrest; [| done].
      simplify_eq. apply IH in Hrest as (Hs2 & Hl2 & Hf2).
      split_and!; [by eapply same_settings_trans | by eapply ledger_le_trans |].
      intros Hcc Hf. apply Hf2; [| by apply Hf1].
      destruct Hs1 as (_ & Hcc1 & _). congruence.
Qed.

(** Under full cycle checking, a node expanded later in a run costs no
    more than what the dictionary records for its identity now. *)
Lemma rounds_expanded_le (goal_fn : option (State -> bool)) (heur_fn : option (State -> Z))
    (costbound : option (Z * Z * Z)) (n : nat) :
  forall (self self' : Engine) (p p' : Process) (log : list Outcome) (j : nat) (b : Node) (c : Z),
    rounds n goal_fn heur_fn costbound self p = Ok (log, self', p') ->
    cc self = _CC_FULL ->
    log !! j = Some (Expanded b) ->
    path_to_gval self !! node_hash b = Some c ->
    SearchNode.gval b <= c.
Proof.
  induction n as [| n IH]; intros self self' p p' log j b c Hr Hcc Hj Hk; simpl in Hr.
  - by simplify_eq.
  - unfold_bind.
    destruct (round _ _ _ _ _) as [[[o self1] p1] |] eqn:Hround; [| done].
    apply round_inv in Hround as (Hs1 & Hl1 & _ & Hstale).
    destruct (leaves_loop o) eqn:Hleave.
    + simplify_eq. destruct j as [| j]; simpl in Hj; [| done].
      by simplify_eq.
    + destruct (rounds n _ _ _ _ _) as [[[log1 self2] p2] |] eqn:Hrest; [| done].
      simplify_eq. destruct j as [| j]; simpl in Hj.
      * simplify_eq. by eapply Hstale.
      * destruct (Hl1 _ _ Hk) as (c1 & Hk1 & Hc1).
        assert (SearchNode.gval b <= c1); [| lia].
        eapply IH; [done | | done | done].
        destruct Hs1 as (_ & Hcc1 & _). congruence.
Qed.

(** Under full cycle checking, of two expansions of one identity in a
    run, the later one is at a cost no higher than the earlier one. *)
Lemma rounds_expansions_ordered (goal_fn : option (State -> bool))
    (heur_fn : option (State -> Z)) (costbound : option (Z * Z * Z)) (n : nat) :
  forall (self self' : Engine) (p p' : Process) (log : list Outcome) (i j : nat) (a b : Node),
    rounds n goal_fn heur_fn costbound self p = Ok (log, self', p') ->
    cc self = _CC_FULL -> frontier_recorded self ->
    (i < j)%nat ->
    log !! i = Some (Expanded a) -> log !! j = Some (Expanded b) ->
    node_hash a = node_hash b ->
    SearchNode.gval b <= SearchNode.gval a.
Proof.
  induction n as [| n IH]; intros self self' p p' log i j a b Hr Hcc Hf Hij Hi Hj Hab;
    simpl in Hr.
  - by simplify_eq.
  - unfold_bind.
    destruct (round _ _ _ _ _) as [[[o self1] p1] |] eqn:Hround; [| done].
    apply round_inv in Hround as (Hs1 & Hl1 & Hf1 & _).
    destruct (Hf1 Hcc Hf) as [Hf1' Hrec].
    assert (cc self1 = _CC_FULL) as Hcc1.
    { destruct Hs1 as (_ & Hcc1 & _). congruence. }
    destruct (leaves_loop o) eqn:Hleave.
    + simplify_eq. destruct j as [| j]; [lia |]. done.
    + destruct (rounds n _ _ _ _ _) as [[[log1 self2] p2] |] eqn:Hrest; [| done].
      simplify_eq. destruct j as [| j]; [lia |]. simpl in Hj.
      destruct i as [| i]; simpl in Hi.
      * simplify_eq. destruct (Hrec a eq_refl) as (c & Hk & Hc).
        rewrite Hab in Hk.
        pose proof (rounds_expanded_le _ _ _ _ _ _ _ _ _ _ _ _ Hrest Hcc1 Hj Hk). lia.
      * eapply (IH _ _ _ _ _ i j); [done | done | done | lia | done | done | done].
Qed.

Lemma rounds_prefix_ledger (goal_fn : option (State -> bool)) (heur_fn : option (State -> Z))
    (costbound : option (Z * Z * Z)) (m : nat) :
  forall (n : nat) (self em e' : Engine) (p pm p' : Process) (logm log : list Outcome),
    (m <= n)%nat ->
    rounds m goal_fn heur_fn costbound self p = Ok (logm, em, pm) ->
    rounds n goal_fn heur_fn costbound self p = Ok (log, e', p') ->
    ledger_le (path_to_gval em) (path_to_gval e').
Proof.
  induction m as [| m IH]; intros n self em e' p pm p' logm log Hmn Hm Hn.
  - simpl in Hm. simplify_eq. by eapply rounds_inv.
  - destruct n as [| n]; [lia |]. simpl in Hm, Hn. unfold_bind.
    destruct (round _ _ _ _ _) as [[[o self1] p1] |]; [| done].
    destruct (leaves_loop o).
    + simplify_eq. apply ledger_le_refl.
    + destruct (rounds m _ _ _ _ _) as [[[logm1 em1] pm1] |] eqn:Hm1; [| done].
      destruct (rounds n _ _ _ _ _) as [[[logn1 en1] pn1] |] eqn:Hn1; [| done].
      simplify_eq. eapply (IH n); [lia | done | done].
Qed.

(** *** Preparing a search *)

Lemma OpenNodeCollection_init_open (search_strategy : Z) (p : Process) :
  OpenNodeCollection.open (OpenNodeCollection.__init__ (Config := Config) search_strategy p).1
  = [].
Proof. unfold OpenNodeCollection.__init__. by repeat case_bool_decide. Qed.

Lemma init_search_inv (self self' : Engine) (init_state : State) (goal : State -> bool)
    (heur : State -> Z) (fval : StateSpace.t Config -> Z -> Z -> nat -> Z)
    (p p' : Process) :
  init_search self init_state goal heur fval p = Ok (self', p') ->
  cc self' = cc self
  /\ goal_fn self' = Some goal
  /\ heur_fn self' = Some heur
  /\ (cc self = _CC_FULL -> frontier_recorded self').
Proof.
  unfold init_search. intros Hinit.
  pose proof (OpenNodeCollection_init_open (strategy self) (init_statistics p)) as Hopen.
  destruct (OpenNodeCollection.__init__ _ _) as [open_nodes p1].
  simpl in Hinit, Hopen. unfold_bind.
  destruct (OpenNodeCollection.insert _ _ _) as [open_nodes' |] eqn:Hins; [| done].
  simplify_eq. simpl. split_and!; [by case_bool_decide | done | done |].
  intros Hcc. rewrite bool_decide_eq_true_2 by done. simpl.
  eexists. split; [done |].
  eapply OpenNodeCollectionTheory.insert_Forall; [done | by rewrite Hopen |].
  eexists. split; [apply lookup_insert_eq | simpl; lia].
Qed.

Lemma search_set_times_inv (self self' : Engine) (timebound : option Z) (p p' : Process) :
  search_set_times self timebound p = (self', p') ->
  cc self' = cc self /\ goal_fn self' = goal_fn self /\ heur_fn self' = heur_fn self
  /\ open_nodes self' = open_nodes self /\ path_to_gval self' = path_to_gval self.
Proof.
  unfold search_set_times. intros Hs. simpl in Hs.
  destruct (truthy timebound); by simplify_eq.
Qed.

(** *** Which exceptions can be raised *)

Lemma insert_raises (self : OpenNodeCollection.t Config) (node : Node) (p : Process) (e : exn) :
  OpenNodeCollection.insert self node p = Raise e -> e = AttributeError.
Proof. unfold OpenNodeCollection.insert. intros. repeat case_match; by simplify_eq. Qed.

Lemma extract_raises (self : OpenNodeCollection.t Config) (p : Process) (e : exn) :
  OpenNodeCollection.extract self p = Raise e -> e = IndexError \/ e = AttributeError.
Proof. unfold OpenNodeCollection.extract. intros. repeat case_match; simplify_eq; auto. Qed.

Lemma is_empty_raises (self : OpenNodeCollection.t Config) (e : exn) :
  OpenNodeCollection.is_empty self = Raise e -> e = AttributeError.
Proof. unfold OpenNodeCollection.is_empty. intros. repeat case_match; by simplify_eq. Qed.

Lemma callable_raises {F : Type} (f : option F) (e : exn) :
  callable f = Raise e -> e = TypeError.
Proof. destruct f; simpl; intros; by simplify_eq. Qed.

Lemma visit_successor_raises (heur_fn : option (State -> Z)) (costbound : option (Z * Z * Z))
    (node : Node) (self : Engine) (p : Process) (succ : State) (e : exn) :
  visit_successor heur_fn costbound node self p succ = Raise e -> e <> KeyError.
Proof.
  unfold visit_successor. intros Hv.
  destruct (is_prunable self succ); [done |]. unfold_bind.
  destruct (callable heur_fn) as [h |] eqn:Hcall.
  - destruct (over_costbound _ _ _); [done |].
    destruct (open_nodes self); [| by simplify_eq].
    simpl in Hv. destruct (OpenNodeCollection.insert _ _ _) eqn:Hins.
    + by case_bool_decide.
    + simplify_eq. by apply insert_raises in Hins as ->.
  - simplify_eq. by apply callable_raises in Hcall as ->.
Qed.

Lemma visit_successors_raises (heur_fn : option (State -> Z)) (costbound : option (Z * Z * Z))
    (node : Node) (successors : list State) :
  forall (self : Engine) (p : Process) (e : exn),
    visit_successors heur_fn costbound node self p successors = Raise e -> e <> KeyError.
Proof.
  induction successors as [| succ successors IH]; intros self p e Hv; simpl in Hv; [done |].
  unfold_bind. destruct (visit_successor _ _ _ _ _ _) as [[self1 p1] |] eqn:Hone.
  - by eapply IH.
  - simplify_eq. by eapply visit_successor_raises.
Qed.

(** Under full cycle checking, with every node on OPEN recorded, a
    round does not fail with [KeyError]. *)
Lemma round_no_KeyError (goal_fn : option (State -> bool)) (heur_fn : option (State -> Z))
    (costbound : option (Z * Z * Z)) (self : Engine) (p : Process) :
  cc self = _CC_FULL -> frontier_recorded self ->
  round goal_fn heur_fn costbound self p <> Raise KeyError.
Proof.
  intros Hcc (open0 & Hopen & Hall) Hr. unfold round in Hr. rewrite Hopen in Hr.
  unfold_bind.
  destruct (OpenNodeCollection.is_empty open0) as [[] |] eqn:Hempty; [done | |].
  2: { simplify_eq. by apply is_empty_raises in Hempty. }
  destruct (OpenNodeCollection.extract open0 p) as [[node open_nodes'] |] eqn:Hext.
  2: { simplify_eq. by apply extract_raises in Hext as [|]. }
  destruct (OpenNodeCollectionTheory.extract_Forall _ _ _ _ _ Hext Hall)
    as ((c & Hk & Hc) & _ & _).
  destruct (callable goal_fn) as [g |] eqn:Hcall.
  2: { simplify_eq. by apply callable_raises in Hcall. }
  destruct (g (SearchNode.state node)); [done |].
  destruct (past_stop_time _ p) as [[] p1]; [done |].
  unfold superseded in Hr. simpl in Hr.
  rewrite bool_decide_eq_true_2 in Hr by done.
  unfold node_hash in Hk. rewrite Hk in Hr.
  destruct (bool_decide (c < SearchNode.gval node)); [done |].
  unfold expand in Hr. destruct (StateSpace.successors _ _) as [successors p2].
  destruct (visit_successors _ _ _ _ _ _) as [[self2 p3] |] eqn:Hvisit; [done |].
  simplify_eq. by eapply visit_successors_raises.
Qed.

Lemma _searchOpen_no_KeyError (goal_fn : option (State -> bool))
    (heur_fn : option (State -> Z)) (costbound : option (Z * Z * Z)) (fuel : nat) :
  forall (self : Engine) (p : Process),
    cc self = _CC_FULL -> frontier_recorded self ->
    _searchOpen fuel goal_fn heur_fn costbound self p <> Some (Raise KeyError).
Proof.
  induction fuel as [| fuel IH]; intros self p Hcc Hf; simpl; [done |].
  pose proof (round_no_KeyError goal_fn heur_fn costbound self p Hcc Hf) as Hno.
  destruct (round _ _ _ _ _) as [[[o self1] p1] |] eqn:Hround; [| congruence].
  apply round_inv in Hround as (Hs1 & _ & Hf1 & _).
  destruct (Hf1 Hcc Hf) as [Hf1' _].
  assert (cc self1 = _CC_FULL) as Hcc1.
  { destruct Hs1 as (_ & Hcc1 & _). congruence. }
  destruct o; try done; by apply IH.
Qed.

Lemma rounds_no_KeyError (goal_fn : option (State -> bool))
    (heur_fn : option (State -> Z)) (costbound : option (Z * Z * Z)) (n : nat) :
  forall (self : Engine) (p : Process),
    cc self = _CC_FULL -> frontier_recorded self ->
    rounds n goal_fn heur_fn costbound self p <> Raise KeyError.
Proof.
  induction n as [| n IH]; intros self p Hcc Hf; simpl; [done |].
  pose proof (round_no_KeyError goal_fn heur_fn costbound self p Hcc Hf) as Hno.
  unfold_bind.
  destruct (round _ _ _ _ _) as [[[o self1] p1] |] eqn:Hround; [| congruence].
  apply round_inv in Hround as (Hs1 & _ & Hf1 & _).
  destruct (Hf1 Hcc Hf) as [Hf1' _].
  assert (cc self1 = _CC_FULL) as Hcc1.
  { destruct Hs1 as (_ & Hcc1 & _). congruence. }
  destruct (leaves_loop o); [done |].
  pose proof (IH self1 p1 Hcc1 Hf1') as Hrest.
  destruct (rounds n _ _ _ _ _) as [[[log1 self2] p2] |]; [done | congruence].
Qed.

(** *** A prepared search raises no exception *)

Lemma insert_known (self : OpenNodeCollection.t Config) (node : Node) (p : Process) :
  OpenNodeCollection.known_strategy (OpenNodeCollection.search_strategy self) = true <->
  exists self', OpenNodeCollection.insert self node p = Ok self'.
Proof.
  unfold OpenNodeCollection.insert, OpenNodeCollection.known_strategy.
  repeat case_bool_decide; simpl; try (split; [eauto | done]).
  destruct (OpenNodeCollection.uses_heap _); split; eauto; try done.
  by intros [? ?].
Qed.

Lemma is_empty_known (self : OpenNodeCollection.t Config) :
  OpenNodeCollection.known_strategy (OpenNodeCollection.search_strategy self) = true ->
  OpenNodeCollection.is_empty self
  = Ok (match OpenNodeCollection.open self with [] => true | _ :: _ => false end).
Proof. unfold OpenNodeCollection.is_empty. by intros ->. Qed.

Lemma extract_known (self : OpenNodeCollection.t Config) (p : Process) :
  OpenNodeCollection.known_strategy (OpenNodeCollection.search_strategy self) = true ->
  OpenNodeCollection.open self <> [] ->
  exists node self', OpenNodeCollection.extract self p = Ok (node, self').
Proof.
  unfold OpenNodeCollection.extract, OpenNodeCollection.known_strategy.
  intros Hknown Hne. repeat case_bool_decide; simpl in Hknown.
  - destruct (reverse (OpenNodeCollection.open self)) as [| node rest] eqn:Hrev; [| eauto].
    apply (f_equal reverse) in Hrev. rewrite reverse_involutive in Hrev. done.
  - destruct (reverse (OpenNodeCollection.open self)) as [| node rest] eqn:Hrev; [| eauto].
    apply (f_equal reverse) in Hrev. rewrite reverse_involutive in Hrev. done.
  - destruct (OpenNodeCollection.open self) as [| node rest]; [done | eauto].
  - rewrite Hknown.
    destruct (HeapqTheory.heappop_nonempty
                (SearchNode.__lt__ (SearchNode_lt_type p)) _ Hne) as [[node rest] ->].
    eauto.
Qed.

Lemma visit_successor_ready (h : State -> Z) (costbound : option (Z * Z * Z))
    (node : Node) (self : Engine) (p : Process) (succ : State) :
  ready self ->
  exists self' p',
    visit_successor (Some h) costbound node self p succ = Ok (self', p') /\ ready self'.
Proof.
  intros Hready.
  assert (exists self' p', visit_successor (Some h) costbound node self p succ = Ok (self', p'))
    as (self' & p' & Hv).
  { destruct Hready as ((open0 & Hopen & Hknown) & _).
    unfold visit_successor. destruct (is_prunable self succ); [eauto |].
    unfold_bind. simpl. destruct (over_costbound _ _ _); [eauto |].
    rewrite Hopen. simpl.
    match goal with |- context [OpenNodeCollection.insert open0 ?n ?q] =>
      destruct (proj1 (insert_known open0 n q) Hknown) as [open1 ->] end.
    eauto. }
  exists self', p'. split; [done |].
  pose proof Hv as Hinv. apply visit_successor_inv in Hinv as (Hs & _ & Hf).
  destruct Hs as (_ & Hcc & Hg & Hh & _).
  destruct Hready as ((open0 & Hopen & Hknown) & Hgoal & Hheur & Hrec).
  split_and!; [| by rewrite Hg | by rewrite Hh |].
  - unfold visit_successor in Hv. destruct (is_prunable self succ); [simplify_eq; eauto |].
    unfold_bind. simpl in Hv. destruct (over_costbound _ _ _); [simplify_eq; eauto |].
    rewrite Hopen in Hv. simpl in Hv.
    destruct (OpenNodeCollection.insert _ _ _) as [open1 |] eqn:Hins; [| done].
    destruct (OpenNodeCollectionTheory.insert_Forall (fun _ => True) _ _ _ _ Hins)
      as [_ Hstrat]; [by apply Forall_true | done |].
    exists open1. rewrite Hstrat. by case_bool_decide; simplify_eq.
  - intros Hfull. rewrite Hcc in Hfull. auto.
Qed.

Lemma visit_successors_ready (h : State -> Z) (costbound : option (Z * Z * Z))
    (node : Node) (successors : list State) :
  forall (self : Engine) (p : Process),
    ready self ->
    exists self' p',
      visit_successors (Some h) costbound node self p successors = Ok (self', p')
      /\ ready self'.
Proof.
  induction successors as [| succ successors IH]; intros self p Hready; simpl; [eauto |].
  destruct (visit_successor_ready h costbound node self p succ Hready)
    as (self1 & p1 & -> & Hready1).
  apply IH, Hready1.
Qed.

Lemma round_ready (g : State -> bool) (h : State -> Z) (costbound : option (Z * Z * Z))
    (self : Engine) (p : Process) :
  ready self ->
  exists o self' p',
    round (Some g) (Some h) costbound self p = Ok (o, self', p') /\ ready self'.
Proof.
  intros Hready. pose proof Hready as ((open0 & Hopen & Hknown) & Hgoal & Hheur & Hrec).
  unfold round. rewrite Hopen, (is_empty_known _ Hknown). unfold_bind.
  destruct (OpenNodeCollection.open open0) as [| first others] eqn:Hlist; [eauto |].
  destruct (extract_known open0 p Hknown) as (node & open1 & Hext); [by rewrite Hlist |].
  rewrite Hext. simpl.
  remember (set_open_nodes (Some open1) self) as self1 eqn:Hself1.
  assert (ready self1) as Hready1.
  { subst self1. split_and!; [| done | done |].
    - destruct (OpenNodeCollectionTheory.extract_Forall (fun _ => True) _ _ _ _ Hext)
        as (_ & _ & Hstrat); [by apply Forall_true |].
      exists open1. by rewrite Hstrat.
    - intros Hfull. destruct (Hrec Hfull) as (open' & Hopen' & Hall).
      rewrite Hopen in Hopen'. simplify_eq.
      destruct (OpenNodeCollectionTheory.extract_Forall _ _ _ _ _ Hext Hall)
        as (_ & Hrest & _).
      by exists open1. }
  assert (cc self = _CC_FULL -> recorded (path_to_gval self1) node) as Hnode.
  { intros Hfull. destruct (Hrec Hfull) as (open' & Hopen' & Hall).
    rewrite Hopen in Hopen'. simplify_eq.
    by destruct (OpenNodeCollectionTheory.extract_Forall _ _ _ _ _ Hext Hall). }
  assert (cc self1 = cc self) as Hcc1 by (by subst self1).
  clear Hself1.
  destruct (g (SearchNode.state node)); [eauto |].
  destruct (past_stop_time self1 p) as [[] p1]; [eauto |].
  assert (exists stale, superseded self1 node = Ok stale) as [stale ->].
  { unfold superseded. case_bool_decide as Hfull; [| eauto].
    destruct Hnode as (c & Hk & _); [congruence |].
    unfold node_hash in Hk. rewrite Hk. eauto. }
  destruct stale; [eauto |].
  unfold expand. destruct (StateSpace.successors _ _) as [successors p2].
  destruct (visit_successors_ready h costbound node successors self1 p2 Hready1)
    as (self2 & p3 & -> & Hready2).
  eauto.
Qed.

Lemma rounds_ready (g : State -> bool) (h : State -> Z) (costbound : option (Z * Z * Z))
    (n : nat) :
  forall (self : Engine) (p : Process),
    ready self ->
    exists log self' p',
      rounds n (Some g) (Some h) costbound self p = Ok (log, self', p') /\ ready self'.
Proof.
  induction n as [| n IH]; intros self p Hready; simpl; [eauto |].
  destruct (round_ready g h costbound self p Hready) as (o & self1 & p1 & -> & Hready1).
  unfold_bind. destruct (leaves_loop o); [eauto |].
  destruct (IH self1 p1 Hready1) as (log & self2 & p2 & -> & Hready2).
  eauto.
Qed.

Lemma init_search_ready (self self' : Engine) (init_state : State) (goal : State -> bool)
    (heur : State -> Z) (fval : StateSpace.t Config -> Z -> Z -> nat -> Z)
    (p p' : Process) :
  init_search self init_state goal heur fval p = Ok (self', p') -> ready self'.
Proof.
  intros Hinit. pose proof Hinit as Hinv.
  apply init_search_inv in Hinv as (Hcc & Hg & Hh & Hf).
  split_and!; [| by rewrite Hg | by rewrite Hh | by rewrite Hcc].
  unfold init_search in Hinit.
  destruct (OpenNodeCollection.__init__ _ _) as [open0 p1].
  simpl in Hinit. unfold_bind.
  destruct (OpenNodeCollection.insert _ _ _) as [open1 |] eqn:Hins; [| done].
  simplify_eq. simpl. exists open1. split; [done |].
  destruct (OpenNodeCollectionTheory.insert_Forall (fun _ => True) _ _ _ _ Hins)
    as [_ Hstrat]; [by apply Forall_true | done |].
  rewrite Hstrat. eapply insert_known. eauto.
Qed.

(** After [init_search], the rounds that [search] performs raise no
    exception, whatever the strategy and the cycle checking. *)
Lemma search_rounds_ok (self e : Engine) (init_state : State) (goal : State -> bool)
    (heur : State -> Z) (fval : StateSpace.t Config -> Z -> Z -> nat -> Z)
    (p p0 : Process) (n : nat) (timebound : option Z) (costbound : option (Z * Z * Z)) :
  init_search self init_state goal heur fval p = Ok (e, p0) ->
  exists log e' p', search_rounds n e timebound costbound p0 = Ok (log, e', p').
Proof.
  intros Hinit. pose proof (init_search_ready _ _ _ _ _ _ _ _ Hinit) as Hready.
  apply init_search_inv in Hinit as (_ & Hg & Hh & _).
  unfold search_rounds.
  destruct (search_set_times e timebound p0) as [s0 q0] eqn:Hset.
  apply search_set_times_inv in Hset as (Hcc0 & Hg0 & Hh0 & Hopen0 & Hledger0).
  assert (ready s0) as Hready0.
  { destruct Hready as ((open0 & Hopen & Hknown) & _ & _ & Hrec).
    split_and!; [| by rewrite Hg0, Hg | by rewrite Hh0, Hh |].
    - exists open0. by rewrite Hopen0.
    - intros Hfull. rewrite Hcc0 in Hfull.
      destruct (Hrec Hfull) as (open' & Hopen' & Hall).
      exists open'. by rewrite Hopen0, Hledger0. }
  rewrite Hg0, Hg, Hh0, Hh.
  destruct (rounds_ready goal heur costbound n s0 q0 Hready0) as (log & e' & p' & -> & _).
  eauto.
Qed.

(** *** The loop and its observation agree *)

Lemma rounds_searchOpen (goal_fn : option (State -> bool)) (heur_fn : option (State -> Z))
    (costbound : option (Z * Z * Z)) (fuel : nat) :
  forall (self self' : Engine) (p p' : Process) (log : list Outcome) (o : Outcome),
    rounds fuel goal_fn heur_fn costbound self p = Ok (log, self', p') ->
    last log = Some o -> leaves_loop o = true ->
    _searchOpen fuel goal_fn heur_fn costbound self p = Some (Ok (returned o, self', p')).
Proof.
  induction fuel as [| fuel IH]; intros self self' p p' log o Hr Hlast Hleave; simpl in Hr.
  - by simplify_eq.
  - simpl. unfold_bind.
    destruct (round _ _ _ _ _) as [[[o1 self1] p1] |] eqn:Hround; [| done].
    destruct (leaves_loop o1) eqn:Hleave1.
    + simplify_eq. simpl in Hlast. simplify_eq. by destruct o.
    + destruct (rounds fuel _ _ _ _ _) as [[[log1 self2] p2] |] eqn:Hrest; [| done].
      simplify_eq.
      assert (last log1 = Some o) as Hlast1.
      { destruct log1 as [| o2 log2]; [| done]. simpl in Hlast. congruence. }
      rewrite <- (IH _ _ _ _ _ _ Hrest Hlast1 Hleave). by destruct o1.
Qed.

Lemma _searchOpen_rounds (goal_fn : option (State -> bool)) (heur_fn : option (State -> Z))
    (costbound : option (Z * Z * Z)) (fuel : nat) :
  forall (self self' : Engine) (p p' : Process) (found : option Node),
    _searchOpen fuel goal_fn heur_fn costbound self p = Some (Ok (found, self', p')) ->
    exists (log : list Outcome) (o : Outcome),
      rounds fuel goal_fn heur_fn costbound self p = Ok (log, self', p')
      /\ last log = Some o /\ leaves_loop o = true /\ found = returned o.
Proof.
  induction fuel as [| fuel IH]; intros self self' p p' found Hs; simpl in Hs; [done |].
  simpl. unfold_bind.
  destruct (round _ _ _ _ _) as [[[o1 self1] p1] |] eqn:Hround; [| done].
  destruct o1; simpl; simplify_eq;
    try (eexists _, _; split; [done |]; by split_and!).
  all: destruct (IH _ _ _ _ _ Hs) as (log & o & -> & Hlast & Hleave & ->).
  all: eexists _, o; split; [done |]; split_and!; [| done | done].
  all: by destruct log.
Qed.

(** *** No stop time, no timeout *)

Lemma round_not_TimedOut (goal_fn : option (State -> bool)) (heur_fn : option (State -> Z))
    (costbound : option (Z * Z * Z)) (self self' : Engine) (p p' : Process) (o : Outcome) :
  truthy (search_stop_time self) = false ->
  round goal_fn heur_fn costbound self p = Ok (o, self', p') -> o <> TimedOut.
Proof.
  unfold round. intros Hstop Hr.
  destruct (open_nodes self) as [open_nodes |]; [| done]. unfold_bind.
  destruct (OpenNodeCollection.is_empty open_nodes) as [[] |]; [by simplify_eq | | done].
  destruct (OpenNodeCollection.extract open_nodes p) as [[node open_nodes'] |]; [| done].
  destruct (callable goal_fn) as [g |]; [| done].
  destruct (g (SearchNode.state node)); [by simplify_eq |].
  unfold past_stop_time in Hr. simpl in Hr. rewrite Hstop in Hr.
  destruct (superseded _ node) as [[] |]; [by simplify_eq | | done].
  destruct (expand _ _ _ _ _) as [[self2 p2] |]; [by simplify_eq | done].
Qed.

Lemma rounds_not_TimedOut (goal_fn : option (State -> bool)) (heur_fn : option (State -> Z))
    (costbound : option (Z * Z * Z)) (n : nat) :
  forall (self self' : Engine) (p p' : Process) (log : list Outcome),
    truthy (search_stop_time self) = false ->
    rounds n goal_fn heur_fn costbound self p = Ok (log, self', p') ->
    TimedOut ∉ log.
Proof.
  induction n as [| n IH]; intros self self' p p' log Hstop Hr; simpl in Hr.
  - simplify_eq. apply not_elem_of_nil.
  - unfold_bind.
    destruct (round _ _ _ _ _) as [[[o self1] p1] |] eqn:Hround; [| done].
    pose proof (round_not_TimedOut _ _ _ _ _ _ _ _ Hstop Hround) as Ho.
    apply round_inv in Hround as (Hs1 & _).
    destruct (leaves_loop o).
    + simplify_eq. intros Hin%list_elem_of_singleton. congruence.
    + destruct (rounds n _ _ _ _ _) as [[[log1 self2] p2] |] eqn:Hrest; [| done].
      simplify_eq. apply not_elem_of_cons. split; [done |].
      eapply IH; [| done]. destruct Hs1 as (_&_&_&_&_&_& ->). done.
Qed.

(** *** The claims *)

(** C1 (amended).  [is_prunable] holds exactly when full cycle checking
    is on and the dictionary records the identity of the successor at a
    cost strictly below the cost of the successor, or path cycle checking
    is on and an ancestor of the successor has its identity; and a
    prunable successor is only counted: the visit adds one to
    [n_cc_pruned] and changes nothing else. *)
Theorem prunability_test (heur_fn : option (State -> Z)) (costbound : option (Z * Z * Z))
    (node : Node) (self : Engine) (p : Process) (succ : State) :
  (is_prunable self succ = true <->
     (cc self = _CC_FULL
      /\ exists c, path_to_gval self !! StateSpace.hashable_state succ = Some c
                   /\ c < StateSpace.gval succ)
     \/ (cc self = _CC_PATH
         /\ exists a, a ∈ StateSpace.ancestors succ
                      /\ StateSpace.hashable_state a = StateSpace.hashable_state succ))
  /\ (is_prunable self succ = true ->
      visit_successor heur_fn costbound node self p succ
      = Ok (set_n_cc_pruned (S (n_cc_pruned self)) self, p)).
Proof.
  split.
  - unfold is_prunable.
    rewrite orb_true_iff, !andb_true_iff, !bool_decide_eq_true.
    rewrite StateSpaceTheory.has_path_cycle_true.
    destruct (path_to_gval self !! StateSpace.hashable_state succ) as [c |].
    + rewrite bool_decide_eq_true. split.
      * intros [[Hcc Hc] | Hpath]; [left | by right].
        split; [done |]. exists c. split; [done | lia].
      * intros [[Hcc (c' & Hk & Hc)] | Hpath]; [left | by right].
        split; [done |]. simplify_eq. lia.
    + split.
      * intros [[_ ?] | Hpath]; [done | by right].
      * intros [[_ (c' & ? & _)] | Hpath]; [done | by right].
  - intros Hp. unfold visit_successor. by rewrite Hp.
Qed.

(** C3 (amended).  Visiting a successor never raises the cost recorded
    for an identity: what was recorded stays recorded, at the same or a
    lower cost. *)
Theorem visit_successor_overwrites_no_higher (heur_fn : option (State -> Z))
    (costbound : option (Z * Z * Z)) (node : Node) (self self' : Engine) (p p' : Process)
    (succ : State) (k : Key) (c : Z) :
  visit_successor heur_fn costbound node self p succ = Ok (self', p') ->
  path_to_gval self !! k = Some c ->
  exists c', path_to_gval self' !! k = Some c' /\ c' <= c.
Proof.
  intros Hv Hk. apply visit_successor_inv in Hv as (_ & Hle & _). by apply Hle.
Qed.

(** C6.  A successor that is not cycle-pruned and exceeds one of the three
    components of the cost bound is only counted: the visit adds one to
    [n_cost_pruned], leaves OPEN and the dictionary as they were and
    creates no node. *)
Theorem cost_bound_pruning (h : State -> Z) (b0 b1 b2 : Z) (node : Node) (self : Engine)
    (p : Process) (succ : State) :
  is_prunable self succ = false ->
  StateSpace.gval succ > b0 \/ h succ > b1 \/ StateSpace.gval succ + h succ > b2 ->
  exists self',
    visit_successor (Some h) (Some (b0, b1, b2)) node self p succ = Ok (self', p)
    /\ self' = set_n_cost_pruned (S (n_cost_pruned self)) self
    /\ n_cost_pruned self' = S (n_cost_pruned self)
    /\ n_cc_pruned self' = n_cc_pruned self
    /\ open_nodes self' = open_nodes self
    /\ path_to_gval self' = path_to_gval self.
Proof.
  intros Hp Hover. eexists. split; [| done].
  unfold visit_successor. rewrite Hp. unfold mbind, result_bind, bind, callable.
  assert (over_costbound (Some (b0, b1, b2)) (StateSpace.gval succ) (h succ) = true) as ->.
  { unfold over_costbound. rewrite !orb_true_iff, !bool_decide_eq_true. tauto. }
  done.
Qed.

(** C8.  [set_cycle_check] with 'default' sets path checking when the
    strategy of the engine is depth-first and full checking otherwise, and
    so does the constructor for every strategy name. *)
Theorem default_cycle_check (self : Engine) :
  set_cycle_check self _CC_DEFAULT_STR
  = Ok (set_cc (if bool_decide (strategy self = _DEPTH_FIRST) then _CC_PATH else _CC_FULL)
               self)
  /\ forall (name : string) (v : Z),
      _SEARCH_STRATEGY_MAP !! name = Some v ->
      exists e : Engine,
        __init__ name _CC_DEFAULT_STR = Ok e
        /\ strategy e = v
        /\ cc e = if bool_decide (v = _DEPTH_FIRST) then _CC_PATH else _CC_FULL.
Proof.
  assert (forall e : Engine,
            set_cycle_check e _CC_DEFAULT_STR
            = Ok (set_cc (if bool_decide (strategy e = _DEPTH_FIRST)
                          then _CC_PATH else _CC_FULL) e)) as Hset.
  { intros e. unfold set_cycle_check.
    replace (_CYCLE_CHECK_MAP !! _CC_DEFAULT_STR) with (Some _CC_FULL)
      by (by vm_compute).
    rewrite (bool_decide_eq_true_2 (_CC_DEFAULT_STR = _CC_DEFAULT_STR)) by done.
    by case_bool_decide. }
  split; [apply Hset |].
  intros name v Hname. unfold __init__, set_strategy. rewrite Hname. simpl.
  rewrite Hset. eexists. split; [done |]. simpl. by case_bool_decide.
Qed.

(** C2 (amended).  In a search under full cycle checking, of two
    expansions of the same identity the later one is at a cost no higher
    than the earlier one (it can be at the same cost), and what the
    dictionary records for an identity at some point of the run is still
    recorded, at the same or a lower cost, at every later point. *)
Theorem full_cycle_check_expansions (self e e' : Engine) (init_state : State)
    (goal : State -> bool) (heur : State -> Z) (fval : State -> Z -> Z -> nat -> Z)
    (p p0 p' : Process) (timebound : option Z) (costbound : option (Z * Z * Z))
    (n : nat) (log : list Outcome) :
  cc self = _CC_FULL ->
  init_search self init_state goal heur fval p = Ok (e, p0) ->
  search_rounds n e timebound costbound p0 = Ok (log, e', p') ->
  (forall (i j : nat) (a b : Node),
      (i < j)%nat ->
      log !! i = Some (Expanded a) -> log !! j = Some (Expanded b) ->
      node_hash a = node_hash b ->
      SearchNode.gval b <= SearchNode.gval a)
  /\ (forall (m : nat) (logm : list Outcome) (em : Engine) (pm : Process) (k : Key) (c : Z),
        (m <= n)%nat ->
        search_rounds m e timebound costbound p0 = Ok (logm, em, pm) ->
        path_to_gval em !! k = Some c ->
        exists c', path_to_gval e' !! k = Some c' /\ c' <= c).
Proof.
  intros Hcc Hinit Hrun. unfold search_rounds in *.
  apply init_search_inv in Hinit as (Hcce & _ & _ & Hf).
  destruct (search_set_times e timebound p0) as [s0 q0] eqn:Hset.
  apply search_set_times_inv in Hset as (Hcc0 & _ & _ & Hopen0 & Hledger0).
  assert (cc s0 = _CC_FULL) as Hfull by congruence.
  assert (frontier_recorded s0) as Hf0.
  { destruct (Hf Hcc) as (open0 & Ho & Hall). exists open0.
    rewrite Hopen0, Hledger0. done. }
  split.
  - intros i j a b. by eapply rounds_expansions_ordered.
  - intros m logm em pm k c Hmn Hm. by eapply rounds_prefix_ledger.
Qed.

(** C9.  In a search under full cycle checking, every node on OPEN,
    from the initial one on, has its identity in the dictionary, and the
    lookup made for the node taken from OPEN never fails: the rounds of
    the loop do not end in [KeyError] (they raise no exception at all),
    and neither does [search]. *)
Theorem full_cycle_check_lookup_succeeds (self e : Engine) (init_state : State)
    (goal : State -> bool) (heur : State -> Z) (fval : State -> Z -> Z -> nat -> Z)
    (p p0 : Process) :
  cc self = _CC_FULL ->
  init_search self init_state goal heur fval p = Ok (e, p0) ->
  (forall (n : nat) (timebound : option Z) (costbound : option (Z * Z * Z))
          (log : list Outcome) (e' : Engine) (p' : Process)
          (frontier : OpenNodeCollection.t Config) (node : Node),
      search_rounds n e timebound costbound p0 = Ok (log, e', p') ->
      open_nodes e' = Some frontier ->
      node ∈ OpenNodeCollection.open frontier ->
      is_Some (path_to_gval e' !! node_hash node))
  /\ (forall (n : nat) (timebound : option Z) (costbound : option (Z * Z * Z)),
        search_rounds n e timebound costbound p0 <> Raise KeyError)
  /\ (forall (n : nat) (timebound : option Z) (costbound : option (Z * Z * Z)),
        exists log e' p', search_rounds n e timebound costbound p0 = Ok (log, e', p'))
  /\ (forall (fuel : nat) (timebound : option Z) (costbound : option (Z * Z * Z)),
        search fuel e timebound costbound p0 <> Some (Raise KeyError)).
Proof.
  intros Hcc Hinit.
  pose proof (fun n timebound costbound =>
                search_rounds_ok self e init_state goal heur fval p p0 n timebound costbound
                  Hinit) as Hok.
  apply init_search_inv in Hinit as (Hcce & _ & _ & Hf).
  assert (forall timebound s0 q0,
            search_set_times e timebound p0 = (s0, q0) ->
            cc s0 = _CC_FULL /\ frontier_recorded s0) as Hstart.
  { intros timebound s0 q0 Hset.
    apply search_set_times_inv in Hset as (Hcc0 & _ & _ & Hopen0 & Hledger0).
    split; [congruence |].
    destruct (Hf Hcc) as (open0 & Ho & Hall). exists open0.
    rewrite Hopen0, Hledger0. done. }
  split_and!.
  - intros n timebound costbound log e' p' frontier node Hrun Hopen Hnode.
    unfold search_rounds in Hrun.
    destruct (search_set_times e timebound p0) as [s0 q0] eqn:Hset.
    destruct (Hstart _ _ _ Hset) as [Hfull Hf0].
    apply rounds_inv in Hrun as (_ & _ & Hf').
    destruct (Hf' Hfull Hf0) as (open' & Hopen' & Hall).
    rewrite Hopen in Hopen'. simplify_eq.
    rewrite Forall_forall in Hall. destruct (Hall node Hnode) as (c & Hk & _). by exists c.
  - intros n timebound costbound. unfold search_rounds.
    destruct (search_set_times e timebound p0) as [s0 q0] eqn:Hset.
    destruct (Hstart _ _ _ Hset) as [Hfull Hf0].
    by apply rounds_no_KeyError.
  - apply Hok.
  - intros fuel timebound costbound. unfold search.
    destruct (search_set_times e timebound p0) as [s0 q0] eqn:Hset.
    destruct (Hstart _ _ _ Hset) as [Hfull Hf0].
    pose proof (_searchOpen_no_KeyError (goal_fn s0) (heur_fn s0) costbound fuel s0 q0
                  Hfull Hf0) as Hno.
    destruct (_searchOpen _ _ _ _ _ _) as [[[[found s1] q1] | e1] |]; [| congruence | done].
    simpl. by destruct found.
Qed.

(** C10.  [search] with a time bound of 0 is [search] without a time
    bound: no stop time is set and no round of the loop times out. *)
Theorem zero_timebound_is_no_timebound (fuel : nat) (self : Engine)
    (costbound : option (Z * Z * Z)) (p : Process) :
  search fuel self (Some 0) costbound p = search fuel self None costbound p
  /\ search_stop_time (search_set_times self (Some 0) p).1 = None
  /\ (forall (n : nat) (log : list Outcome) (self' : Engine) (p' : Process),
        search_rounds n self (Some 0) costbound p = Ok (log, self', p') ->
        TimedOut ∉ log).
Proof.
  split_and!; [done | done |].
  intros n log self' p'. unfold search_rounds.
  destruct (search_set_times self (Some 0) p) as [s0 q0] eqn:Hset.
  intros Hrun. eapply rounds_not_TimedOut; [| done].
  unfold search_set_times in Hset. simpl in Hset. by simplify_eq.
Qed.

(** C4 (amended).  A search that leaves the loop because the time bound
    is exceeded and a search that leaves it because OPEN is empty both
    return normally, with the same failure value [False] (here [None]) in
    place of a state and with the statistics, which are made of the
    counters as they are then. *)
Theorem timeout_and_exhaustion_return_False (fuel : nat) (self self' : Engine)
    (timebound : option Z) (costbound : option (Z * Z * Z)) (p p' : Process)
    (log : list Outcome) (o : Outcome) :
  search_rounds fuel self timebound costbound p = Ok (log, self', p') ->
  last log = Some o ->
  o = TimedOut \/ o = Exhausted ->
  exists (stats : SearchStatistics.t) (p'' : Process),
    search fuel self timebound costbound p = Some (Ok (None, stats, self', p''))
    /\ SearchStatistics.states_expanded stats = SearchNode_n p'
    /\ SearchStatistics.states_generated stats = StateSpace_n p'
    /\ SearchStatistics.states_pruned_cycles stats = n_cc_pruned self'
    /\ SearchStatistics.states_pruned_cost stats = n_cost_pruned self'.
Proof.
  unfold search_rounds, search. intros Hrun Hlast Ho.
  destruct (search_set_times self timebound p) as [s0 q0].
  assert (leaves_loop o = true /\ returned o = None) as [Hleave Hret].
  { by destruct Ho as [-> | ->]. }
  rewrite (rounds_searchOpen _ _ _ _ _ _ _ _ _ _ Hrun Hlast Hleave), Hret.
  simpl. by eexists _, _.
Qed.

End SearchEngineTheory.

(** *** The claims on the example problem *)

Import Examples.

(** The first round of the breadth-first search of the example takes
    [start_node] from OPEN and visits [via_a] and then [via_b]. *)
Lemma bfs_first_round :
  StateSpace.successors start (process_of bfs_extracted)
  = ([via_a; via_b], process_of bfs_generated)
  /\ round (Some never) (Some _zero_hfn) None (engine_of bfs_searching)
        (process_of bfs_searching)
     = Ok (Expanded start_node, engine_of bfs_seen_b, process_of bfs_seen_b).
Proof. split; by vm_compute. Qed.

Lemma prunability_test_witness :
  is_prunable (engine_of bfs_seen_a) back_home = true.
Proof.
  apply (proj1 (prunability_test None None start_node (engine_of bfs_seen_a) ticking
                  back_home)).
  left. split; [reflexivity |]. exists 0. split; [by vm_compute | simpl; lia].
Defined.

(** C1 as stated fails: with the identity of [via_b] recorded at cost 1,
    the cost of [via_b] itself, the claimed condition holds and
    [is_prunable] is false. *)
Lemma prunability_at_equal_cost_counterexample :
  ~ (is_prunable (engine_of bfs_seen_a) via_b = true <->
       (cc (engine_of bfs_seen_a) = _CC_FULL
        /\ exists c, path_to_gval (engine_of bfs_seen_a) !! StateSpace.hashable_state via_b
                     = Some c
                     /\ c <= StateSpace.gval via_b)
       \/ (cc (engine_of bfs_seen_a) = _CC_PATH
           /\ exists a : StateSpace.t nat,
                a ∈ StateSpace.ancestors via_b
                /\ StateSpace.hashable_state a = StateSpace.hashable_state via_b)).
Proof.
  intros [_ Hclaim].
  assert (is_prunable (engine_of bfs_seen_a) via_b = true) as Hp.
  { apply Hclaim. left. split; [reflexivity |]. exists 1.
    split; [by vm_compute | simpl; lia]. }
  vm_compute in Hp. discriminate.
Qed.

Lemma visit_successor_overwrites_no_higher_witness :
  exists c', path_to_gval (engine_of bfs_seen_b) !! 1%nat = Some c' /\ c' <= 1.
Proof.
  apply (visit_successor_overwrites_no_higher (Some _zero_hfn) None start_node
           (engine_of bfs_seen_a) (engine_of bfs_seen_b)
           (process_of bfs_seen_a) (process_of bfs_seen_b) via_b 1%nat 1).
  - by vm_compute.
  - by vm_compute.
Defined.

(** C3 as stated fails: visiting [via_b] writes the entry of its
    identity, recorded at cost 1, with cost 1 again. *)
Lemma overwrite_at_equal_cost_counterexample :
  ~ (forall c c' : Z,
       visit_successor (Some _zero_hfn) None start_node
         (engine_of bfs_seen_a) (process_of bfs_seen_a) via_b
       = Ok (engine_of bfs_seen_b, process_of bfs_seen_b) ->
       SearchNode_n (process_of bfs_seen_b) = S (SearchNode_n (process_of bfs_seen_a)) ->
       path_to_gval (engine_of bfs_seen_a) !! StateSpace.hashable_state via_b = Some c ->
       path_to_gval (engine_of bfs_seen_b) !! StateSpace.hashable_state via_b = Some c' ->
       c' < c).
Proof.
  intros Hclaim.
  assert (1 < 1); [| lia].
  apply Hclaim; by vm_compute.
Qed.

Lemma full_cycle_check_expansions_witness :
  (forall (i j : nat) (a b : SearchNode.t nat),
      (i < j)%nat ->
      log_of (search_rounds 3 (engine_of bfs_prepared) None None (process_of bfs_prepared))
        !! i = Some (Expanded a) ->
      log_of (search_rounds 3 (engine_of bfs_prepared) None None (process_of bfs_prepared))
        !! j = Some (Expanded b) ->
      node_hash a = node_hash b ->
      SearchNode.gval b <= SearchNode.gval a)
  /\ (forall (m : nat) (logm : list (Outcome nat)) (em : SearchEngine.t nat nat)
             (pm : Process) (k : nat) (c : Z),
        (m <= 3)%nat ->
        search_rounds m (engine_of bfs_prepared) None None (process_of bfs_prepared)
        = Ok (logm, em, pm) ->
        path_to_gval em !! k = Some c ->
        exists c',
          path_to_gval
            (engine_of
               (search_rounds 3 (engine_of bfs_prepared) None None (process_of bfs_prepared)))
            !! k = Some c'
          /\ c' <= c).
Proof.
  apply (full_cycle_check_expansions (made "breadth_first" "full") (engine_of bfs_prepared)
           _ start never _zero_hfn _fval_function (built steady 0)
           (process_of bfs_prepared)
           (process_of
              (search_rounds 3 (engine_of bfs_prepared) None None (process_of bfs_prepared)))
           None None 3).
  - reflexivity.
  - by vm_compute.
  - by vm_compute.
Defined.

(** C2 as stated fails: in the breadth-first search of the example, the
    second and the third round expand two nodes of the same identity
    (vertex 1), both at cost 1. *)
Lemma expanded_twice_at_equal_cost_counterexample :
  ~ (forall (i j : nat) (a b : SearchNode.t nat),
       (i < j)%nat ->
       log_of (search_rounds 3 (engine_of bfs_prepared) None None (process_of bfs_prepared))
         !! i = Some (Expanded a) ->
       log_of (search_rounds 3 (engine_of bfs_prepared) None None (process_of bfs_prepared))
         !! j = Some (Expanded b) ->
       node_hash a = node_hash b ->
       SearchNode.gval b < SearchNode.gval a).
Proof.
  intros Hclaim.
  specialize (Hclaim 1%nat 2%nat
                (SearchNode.Build via_a 0 1 1 _fval_function)
                (SearchNode.Build via_b 0 1 2 _fval_function)).
  simpl in Hclaim. assert (1 < 1); [| lia].
  apply Hclaim; [lia | by vm_compute | by vm_compute | reflexivity].
Qed.

Lemma cost_bound_pruning_witness :
  exists self' : SearchEngine.t nat nat,
    visit_successor (Some _zero_hfn) (Some (0, 5, 5)) start_node
      (engine_of bfs_generated) (process_of bfs_generated) via_a
    = Ok (self', process_of bfs_generated)
    /\ self' = set_n_cost_pruned (S (n_cost_pruned (engine_of bfs_generated)))
                 (engine_of bfs_generated)
    /\ n_cost_pruned self' = S (n_cost_pruned (engine_of bfs_generated))
    /\ n_cc_pruned self' = n_cc_pruned (engine_of bfs_generated)
    /\ open_nodes self' = open_nodes (engine_of bfs_generated)
    /\ path_to_gval self' = path_to_gval (engine_of bfs_generated).
Proof.
  apply (cost_bound_pruning _zero_hfn 0 5 5 start_node (engine_of bfs_generated)
           (process_of bfs_generated) via_a).
  - by vm_compute.
  - left. simpl. lia.
Defined.

Lemma default_cycle_check_witness :
  exists e : SearchEngine.t nat nat,
    __init__ "depth_first" _CC_DEFAULT_STR = Ok e
    /\ strategy e = _DEPTH_FIRST
    /\ cc e = if bool_decide (_DEPTH_FIRST = _DEPTH_FIRST) then _CC_PATH else _CC_FULL.
Proof.
  apply (proj2 (default_cycle_check (made "astar" "none")) "depth_first" _DEPTH_FIRST).
  by vm_compute.
Defined.

Lemma full_cycle_check_lookup_succeeds_witness :
  search 6 (engine_of bfs_prepared) None None (process_of bfs_prepared)
  <> Some (Raise KeyError).
Proof.
  apply (proj2 (proj2 (proj2 (full_cycle_check_lookup_succeeds
                                (made "breadth_first" "full") (engine_of bfs_prepared)
                                start never _zero_hfn _fval_function
                                (built steady 0) (process_of bfs_prepared)
                                eq_refl ltac:(by vm_compute))))).
Defined.

Lemma zero_timebound_is_no_timebound_witness :
  TimedOut ∉ log_of (search_rounds 6 (engine_of bfs_prepared) (Some 0) None
                        (process_of bfs_prepared)).
Proof.
  apply (proj2 (proj2 (zero_timebound_is_no_timebound 6 (engine_of bfs_prepared) None
                         (process_of bfs_prepared)))
           6%nat _
           (engine_of (search_rounds 6 (engine_of bfs_prepared) (Some 0) None
                         (process_of bfs_prepared)))
           (process_of (search_rounds 6 (engine_of bfs_prepared) (Some 0) None
                          (process_of bfs_prepared)))).
  by vm_compute.
Defined.

Lemma timeout_and_exhaustion_return_False_witness :
  exists (stats : SearchStatistics.t) (p'' : Process),
    search 2 (engine_of hurried) (Some 1) None (process_of hurried)
    = Some (Ok (None, stats,
                engine_of (search_rounds 2 (engine_of hurried) (Some 1) None
                             (process_of hurried)), p''))
    /\ SearchStatistics.states_expanded stats
       = SearchNode_n (process_of (search_rounds 2 (engine_of hurried) (Some 1) None
                                     (process_of hurried)))
    /\ SearchStatistics.states_generated stats
       = StateSpace_n (process_of (search_rounds 2 (engine_of hurried) (Some 1) None
                                     (process_of hurried)))
    /\ SearchStatistics.states_pruned_cycles stats
       = n_cc_pruned (engine_of (search_rounds 2 (engine_of hurried) (Some 1) None
                                   (process_of hurried)))
    /\ SearchStatistics.states_pruned_cost stats
       = n_cost_pruned (engine_of (search_rounds 2 (engine_of hurried) (Some 1) None
                                     (process_of hurried))).
Proof.
  apply (timeout_and_exhaustion_return_False 2 (engine_of hurried) _ (Some 1) None
           (process_of hurried) _
           (log_of (search_rounds 2 (engine_of hurried) (Some 1) None (process_of hurried)))
           TimedOut).
  - by vm_compute.
  - by vm_compute.
  - by left.
Defined.

(** C4 as stated fails: the same search of the dead end under the same
    time bound times out with one clock and exhausts OPEN with the other,
    and the caller receives the same value in both cases. *)
Lemma timeout_like_exhaustion_counterexample :
  last (log_of (search_rounds 2 (engine_of hurried) (Some 1) None (process_of hurried)))
  = Some TimedOut
  /\ last (log_of (search_rounds 2 (engine_of unhurried) (Some 1) None
                     (process_of unhurried)))
     = Some Exhausted
  /\ ~ (answer (search 2 (engine_of hurried) (Some 1) None (process_of hurried))
        <> answer (search 2 (engine_of unhurried) (Some 1) None (process_of unhurried))).
Proof.
  split_and!; [by vm_compute | by vm_compute |].
  intros Hne. apply Hne. by vm_compute.
Qed.

(** C5 fails on the code: when the initial state is a goal, [search]
    returns it in the first round; no node was expanded, and the
    statistics report one expanded state. *)
Theorem expanded_count_when_start_is_goal :
  answer (search 1 (engine_of at_goal) None None (process_of at_goal))
  = Some (Some start, SearchStatistics.Build 1 1 0 0 1)
  /\ expansions (log_of (search_rounds 1 (engine_of at_goal) None None
                           (process_of at_goal))) = 0%nat.
Proof. split; by vm_compute. Qed.

End SearchEngineTheory.

(** ** heapq keeps the heap in order *)

Module HeapTheory.
Import Heap.

Section HeapTheory.
Context {A : Type} (lt : A -> A -> bool).
Hypothesis Hlt : strict_weak lt.

Local Abbreviation is_heap := (is_heap lt).
Local Abbreviation is_heap_around := (is_heap_around lt).
Local Abbreviation fits_above := (fits_above lt).

Lemma lt_asym (a b : A) : lt a b = true -> lt b a = false.
Proof.
  intros Hab. destruct (lt b a) eqn:Hba; [| done].
  pose proof (sw_trans lt Hlt a b a Hab Hba) as Haa.
  by rewrite (sw_irrefl lt Hlt) in Haa.
Qed.

(** *** Positions *)

Lemma parent_lt (i : nat) : (0 < i)%nat -> ((i - 1) / 2 < i)%nat.
Proof.
  intros Hi. pose proof (Nat.Div0.div_le_upper_bound (i - 1) 2 (i - 1)) as Hd.
  assert ((i - 1) / 2 <= i - 1)%nat by (apply Nat.Div0.div_le_upper_bound; lia). lia.
Qed.

Lemma parent_of_child (c pos : nat) :
  (0 < c)%nat -> ((c - 1) / 2 = pos)%nat <-> (c = 2 * pos + 1 \/ c = 2 * pos + 2)%nat.
Proof.
  intros Hc. split.
  - intros <-. pose proof (Nat.div_mod_eq (c - 1) 2) as Hdm.
    pose proof (Nat.mod_upper_bound (c - 1) 2). lia.
  - intros [-> | ->].
    + replace (2 * pos + 1 - 1)%nat with (pos * 2)%nat by lia. by rewrite Nat.div_mul.
    + replace (2 * pos + 2 - 1)%nat with (1 + pos * 2)%nat by lia.
      by rewrite Nat.div_add.
Qed.

(** *** Putting an item into the place left open *)

Lemma place_is_heap (heap : list A) (pos : nat) (newitem : A) :
  is_heap_around heap pos -> fits_above heap pos newitem ->
  (pos = 0%nat
   \/ exists parent, heap !! ((pos - 1) / 2)%nat = Some parent /\ lt newitem parent = false) ->
  is_heap (<[pos := newitem]> heap).
Proof.
  intros [Hpairs Hgrand] Hfit Hparent i x y Hi Hx Hy.
  destruct (decide (i = pos)) as [-> | Hne].
  - destruct Hparent as [-> | (parent & Hp & Hle)]; [lia |].
    rewrite list_lookup_insert_ne in Hy by (pose proof (parent_lt pos Hi); lia).
    apply lookup_lt_Some in Hx as Hlen. rewrite length_insert in Hlen.
    rewrite list_lookup_insert_eq in Hx by done. by simplify_eq.
  - rewrite list_lookup_insert_ne in Hx by done.
    destruct (decide ((i - 1) / 2 = pos)%nat) as [Hpar | Hpar].
    + apply lookup_lt_Some in Hy as Hlen. rewrite length_insert in Hlen.
      rewrite Hpar in Hy. rewrite list_lookup_insert_eq in Hy by lia.
      simplify_eq. by eapply Hfit.
    + rewrite list_lookup_insert_ne in Hy by done. by eapply Hpairs.
Qed.

(** *** [_siftdown] *)

Lemma _siftdown_loop_S (rounds : nat) (heap : list A) (newitem : A) (startpos pos : nat) :
  heapq._siftdown_loop lt (S rounds) heap newitem startpos pos
  = if bool_decide (startpos < pos)%nat then
      if lt newitem (default newitem (heap !! ((pos - 1) / 2)%nat)) then
        heapq._siftdown_loop lt rounds
          (<[pos := default newitem (heap !! ((pos - 1) / 2)%nat)]> heap) newitem startpos
          ((pos - 1) / 2)%nat
      else <[pos := newitem]> heap
    else <[pos := newitem]> heap.
Proof. reflexivity. Qed.

Lemma _siftdown_loop_is_heap (rounds : nat) :
  forall (heap : list A) (newitem : A) (pos : nat),
    (pos <= rounds)%nat -> (pos < length heap)%nat ->
    is_heap_around heap pos -> fits_above heap pos newitem ->
    is_heap (heapq._siftdown_loop lt rounds heap newitem 0 pos).
Proof.
  induction rounds as [| rounds IH]; intros heap newitem pos Hrounds Hlen Haround Hfit.
  - apply place_is_heap; [done | done |]. left. lia.
  - rewrite _siftdown_loop_S. case_bool_decide as Hpos; [| apply place_is_heap; [done | done | left; lia]].
    pose proof (parent_lt pos Hpos) as Hpar.
    destruct (lookup_lt_is_Some_2 heap ((pos - 1) / 2)%nat) as [parent Hp]; [lia |].
    rewrite Hp. change (default newitem (Some parent)) with parent.
    destruct (lt newitem parent) eqn:Hcmp;
      [| apply place_is_heap; [done | done | right; eauto]].
    destruct Haround as [Hpairs Hgrand].
    apply IH; [lia | rewrite length_insert; lia | |].
    + split.
      * intros i x y Hi Hne Hpne Hx Hy.
        destruct (decide (i = pos)) as [-> | Hip]; [done |].
        rewrite list_lookup_insert_ne in Hx by done.
        destruct (decide ((i - 1) / 2 = pos)%nat) as [Hpi | Hpi].
        -- apply lookup_lt_Some in Hy as Hly. rewrite length_insert in Hly.
           rewrite Hpi in Hy. rewrite list_lookup_insert_eq in Hy by lia.
           simplify_eq. by eapply (Hgrand i).
        -- rewrite list_lookup_insert_ne in Hy by done. by eapply Hpairs.
      * intros c x y Hc Hcp Hpp Hx Hy.
        rewrite list_lookup_insert_ne in Hy
          by (pose proof (parent_lt _ Hpp); lia).
        assert (lt parent y = false) as Hyp.
        { eapply (Hpairs ((pos - 1) / 2)%nat); [done | lia | | done | done].
          pose proof (parent_lt _ Hpp). lia. }
        destruct (decide (c = pos)) as [-> | Hcpos].
        -- apply lookup_lt_Some in Hx as Hlx. rewrite length_insert in Hlx.
           rewrite list_lookup_insert_eq in Hx by done. by simplify_eq.
        -- rewrite list_lookup_insert_ne in Hx by done.
           assert (lt x parent = false) as Hxp.
           { eapply (Hpairs c); [done | done | lia | done |]. by rewrite Hcp. }
           by eapply (sw_incomp lt Hlt).
    + intros c x Hc Hcp Hx.
      destruct (decide (c = pos)) as [-> | Hcpos].
      * apply lookup_lt_Some in Hx as Hlx. rewrite length_insert in Hlx.
        rewrite list_lookup_insert_eq in Hx by done. simplify_eq. by apply lt_asym.
      * rewrite list_lookup_insert_ne in Hx by done.
        assert (lt x parent = false) as Hxp.
        { eapply (Hpairs c); [done | done | lia | done |]. by rewrite Hcp. }
        eapply (sw_incomp lt Hlt); [| done]. by apply lt_asym.
Qed.

Lemma is_heap_around_insert (heap : list A) (pos : nat) (item : A) :
  is_heap_around heap pos -> is_heap_around (<[pos := item]> heap) pos.
Proof.
  intros [Hpairs Hgrand]. split.
  - intros i x y Hi Hne Hpne Hx Hy.
    rewrite list_lookup_insert_ne in Hx, Hy by done. by eapply Hpairs.
  - intros c x y Hc Hcp Hpp Hx Hy.
    rewrite list_lookup_insert_ne in Hx by (pose proof (parent_lt c Hc); lia).
    rewrite list_lookup_insert_ne in Hy by (pose proof (parent_lt pos Hpp); lia).
    by eapply (Hgrand c).
Qed.

Lemma fits_above_insert (heap : list A) (pos : nat) (item newitem : A) :
  fits_above heap pos newitem -> fits_above (<[pos := item]> heap) pos newitem.
Proof.
  intros Hfit c x Hc Hcp Hx.
  rewrite list_lookup_insert_ne in Hx by (pose proof (parent_lt c Hc); lia).
  by eapply Hfit.
Qed.

Lemma _siftdown_is_heap (heap : list A) (pos : nat) (newitem : A) :
  heap !! pos = Some newitem ->
  is_heap_around heap pos -> fits_above heap pos newitem ->
  is_heap (heapq._siftdown lt heap 0 pos).
Proof.
  intros Hpos Haround Hfit. unfold heapq._siftdown. rewrite Hpos.
  apply _siftdown_loop_is_heap; [done | by eapply lookup_lt_Some | done | done].
Qed.

Lemma is_heap_is_heap_around (heap : list A) (pos : nat) :
  is_heap heap -> is_heap_around heap pos.
Proof.
  intros Hheap. split.
  - intros i x y Hi _ _ Hx Hy. by eapply (Hheap i).
  - intros c x y Hc Hcp Hpp Hx Hy.
    destruct (lookup_lt_is_Some_2 heap pos) as [z Hz].
    { apply lookup_lt_Some in Hx. pose proof (parent_lt c Hc). lia. }
    assert (lt x z = false) by (eapply (Hheap c); [done | done | by rewrite Hcp]).
    assert (lt z y = false) by (by eapply (Hheap pos)).
    by eapply (sw_incomp lt Hlt).
Qed.

(** [heappush] keeps a heap in order. *)
Lemma heappush_is_heap (heap : list A) (item : A) :
  is_heap heap -> is_heap (heapq.heappush lt heap item).
Proof.
  intros Hheap. unfold heapq.heappush.
  apply (_siftdown_is_heap _ _ item).
  - rewrite lookup_app_r by lia. by rewrite Nat.sub_diag.
  - split.
    + intros i x y Hi Hne Hpne Hx Hy.
      assert (i < length heap)%nat as Hil.
      { apply lookup_lt_Some in Hx. rewrite length_app in Hx. simpl in Hx. lia. }
      rewrite lookup_app_l in Hx by done.
      rewrite lookup_app_l in Hy by (pose proof (parent_lt i Hi); lia).
      by eapply (Hheap i).
    + intros c x y Hc Hcp Hpp Hx Hy.
      apply lookup_lt_Some in Hx. rewrite length_app in Hx. simpl in Hx.
      apply parent_of_child in Hcp; [lia | done].
  - intros c x Hc Hcp Hx.
    apply lookup_lt_Some in Hx. rewrite length_app in Hx. simpl in Hx.
    apply parent_of_child in Hcp; [lia | done].
Qed.

(** *** The items stay the same *)

Lemma insert_swap_Permutation (l : list A) (i j : nat) (x y : A) :
  (i < length l)%nat -> i <> j -> l !! j = Some y ->
  <[j := x]> (<[i := y]> l) ≡ₚ <[i := x]> l.
Proof.
  intros Hi Hne Hj.
  rewrite <- (list_insert_insert_eq l i y x).
  apply Permutation_insert_swap.
  - by apply list_lookup_insert_eq.
  - by rewrite list_lookup_insert_ne.
Qed.

Lemma _siftdown_loop_Permutation (rounds : nat) :
  forall (heap : list A) (newitem : A) (startpos pos : nat),
    (pos < length heap)%nat ->
    heapq._siftdown_loop lt rounds heap newitem startpos pos ≡ₚ <[pos := newitem]> heap.
Proof.
  induction rounds as [| rounds IH]; intros heap newitem startpos pos Hlen; [done |].
  rewrite _siftdown_loop_S. case_bool_decide as Hpos; [| done].
  assert (0 < pos)%nat as Hpos0 by lia.
  pose proof (parent_lt pos Hpos0) as Hpar.
  destruct (lookup_lt_is_Some_2 heap ((pos - 1) / 2)%nat) as [parent Hp]; [lia |].
  rewrite Hp. change (default newitem (Some parent)) with parent.
  destruct (lt newitem parent); [| done].
  rewrite IH by (rewrite length_insert; lia).
  apply insert_swap_Permutation; [done | lia | done].
Qed.

Lemma _siftdown_Permutation (heap : list A) (startpos pos : nat) :
  heapq._siftdown lt heap startpos pos ≡ₚ heap.
Proof.
  unfold heapq._siftdown. destruct (heap !! pos) as [newitem |] eqn:Hpos; [| done].
  rewrite _siftdown_loop_Permutation by (by eapply lookup_lt_Some).
  by rewrite list_insert_id.
Qed.

(** *** [_siftup] *)

Lemma _siftup_loop_S (rounds : nat) (heap : list A) (endpos pos : nat) :
  heapq._siftup_loop lt (S rounds) heap endpos pos
  = if bool_decide (2 * pos + 1 < endpos)%nat then
      match heap !! (if bool_decide (2 * pos + 1 + 1 < endpos)%nat then
                       match heap !! (2 * pos + 1)%nat, heap !! (2 * pos + 1 + 1)%nat with
                       | Some c, Some r =>
                           if negb (lt c r) then (2 * pos + 1 + 1)%nat else (2 * pos + 1)%nat
                       | _, _ => (2 * pos + 1)%nat
                       end
                     else (2 * pos + 1)%nat) with
      | Some c =>
          heapq._siftup_loop lt rounds (<[pos := c]> heap) endpos
            (if bool_decide (2 * pos + 1 + 1 < endpos)%nat then
               match heap !! (2 * pos + 1)%nat, heap !! (2 * pos + 1 + 1)%nat with
               | Some c, Some r =>
                   if negb (lt c r) then (2 * pos + 1 + 1)%nat else (2 * pos + 1)%nat
               | _, _ => (2 * pos + 1)%nat
               end
             else (2 * pos + 1)%nat)
      | None => (heap, pos)
      end
    else (heap, pos).
Proof. reflexivity. Qed.

(** The child that [_siftup] moves up is a child at which no item is
    smaller than at the other. *)
Lemma smaller_child (heap : list A) (pos : nat) :
  (2 * pos + 1 < length heap)%nat ->
  exists (c : nat) (v : A),
    (if bool_decide (2 * pos + 1 + 1 < length heap)%nat then
       match heap !! (2 * pos + 1)%nat, heap !! (2 * pos + 1 + 1)%nat with
       | Some c, Some r =>
           if negb (lt c r) then (2 * pos + 1 + 1)%nat else (2 * pos + 1)%nat
       | _, _ => (2 * pos + 1)%nat
       end
     else (2 * pos + 1)%nat) = c
    /\ heap !! c = Some v
    /\ (c = 2 * pos + 1 \/ c = 2 * pos + 2)%nat
    /\ (forall (i : nat) (x : A),
          (i = 2 * pos + 1 \/ i = 2 * pos + 2)%nat -> i <> c -> heap !! i = Some x ->
          lt x v = false).
Proof.
  intros Hlen.
  destruct (lookup_lt_is_Some_2 heap (2 * pos + 1)%nat) as [cl Hl]; [lia |].
  case_bool_decide as Hright.
  - destruct (lookup_lt_is_Some_2 heap (2 * pos + 1 + 1)%nat) as [cr Hr]; [lia |].
    rewrite Hl, Hr. destruct (lt cl cr) eqn:Hcmp; cbn [negb].
    + exists (2 * pos + 1)%nat, cl. split_and!; [done | done | lia |].
      intros i x [-> | ->] Hne Hx; [done |].
      replace (2 * pos + 2)%nat with (2 * pos + 1 + 1)%nat in Hx by lia.
      simplify_eq. by apply lt_asym.
    + exists (2 * pos + 1 + 1)%nat, cr. split_and!; [done | done | lia |].
      intros i x [-> | ->] Hne Hx; [| lia]. by simplify_eq.
  - exists (2 * pos + 1)%nat, cl. split_and!; [done | done | lia |].
    intros i x [-> | ->] Hne Hx; [done |].
    apply lookup_lt_Some in Hx. lia.
Qed.

Lemma _siftup_loop_spec (rounds : nat) :
  forall (heap : list A) (pos : nat),
    (length heap <= pos + rounds)%nat -> (pos < length heap)%nat ->
    is_heap_around heap pos ->
    is_heap_around (heapq._siftup_loop lt rounds heap (length heap) pos).1
                   (heapq._siftup_loop lt rounds heap (length heap) pos).2
    /\ length (heapq._siftup_loop lt rounds heap (length heap) pos).1 = length heap
    /\ ((heapq._siftup_loop lt rounds heap (length heap) pos).2 < length heap)%nat
    /\ (length heap <= 2 * (heapq._siftup_loop lt rounds heap (length heap) pos).2 + 1)%nat
    /\ (forall newitem,
          <[(heapq._siftup_loop lt rounds heap (length heap) pos).2 := newitem]>
            (heapq._siftup_loop lt rounds heap (length heap) pos).1
          ≡ₚ <[pos := newitem]> heap).
Proof.
  induction rounds as [| rounds IH]; intros heap pos Hrounds Hlen Haround.
  - simpl. split_and!; [done | done | done | lia | done].
  - rewrite _siftup_loop_S. case_bool_decide as Hchild.
    2: { simpl. split_and!; [done | done | done | lia | done]. }
    destruct (smaller_child heap pos Hchild) as (c & v & -> & Hv & Hc & Hsmall).
    rewrite Hv.
    assert (0 < c)%nat as Hc0 by lia.
    assert ((c - 1) / 2 = pos)%nat as Hcp by (by apply parent_of_child).
    destruct Haround as [Hpairs Hgrand].
    destruct (IH (<[pos := v]> heap) c) as (H1 & H2 & H3 & H4 & H5).
    + rewrite length_insert. lia.
    + rewrite length_insert. by eapply lookup_lt_Some.
    + split.
      * intros i x y Hi Hne Hpne Hx Hy.
        destruct (decide (i = pos)) as [Hip | Hip]; [subst i |].
        -- apply lookup_lt_Some in Hx as Hlx. rewrite length_insert in Hlx.
           rewrite list_lookup_insert_eq in Hx by done. injection Hx as <-.
           rewrite list_lookup_insert_ne in Hy by (pose proof (parent_lt pos Hi); lia).
           by eapply (Hgrand c).
        -- rewrite list_lookup_insert_ne in Hx by done.
           destruct (decide ((i - 1) / 2 = pos)%nat) as [Hpi | Hpi].
           ++ rewrite Hpi in Hy. rewrite list_lookup_insert_eq in Hy by done.
              injection Hy as <-. eapply (Hsmall i); [| done | done].
              by apply parent_of_child.
           ++ rewrite list_lookup_insert_ne in Hy by done. by eapply (Hpairs i).
      * intros d x y Hd Hdc _ Hx Hy.
        rewrite Hcp in Hy. rewrite list_lookup_insert_eq in Hy by done.
        injection Hy as <-.
        assert (pos < d)%nat.
        { apply parent_of_child in Hdc; [lia | done]. }
        rewrite list_lookup_insert_ne in Hx by lia.
        eapply (Hpairs d); [done | lia | lia | done |]. by rewrite Hdc.
    + rewrite length_insert in *. split_and!; [done | done | done | done |].
      intros newitem. rewrite H5.
      apply insert_swap_Permutation; [done | lia | done].
Qed.

Lemma _siftup_is_heap (heap : list A) :
  (0 < length heap)%nat -> is_heap_around heap 0 ->
  is_heap (heapq._siftup lt heap 0) /\ heapq._siftup lt heap 0 ≡ₚ heap.
Proof.
  intros Hlen Haround. unfold heapq._siftup.
  destruct (lookup_lt_is_Some_2 heap 0%nat Hlen) as [newitem Hnew]. rewrite Hnew.
  destruct (_siftup_loop_spec (length heap) heap 0%nat) as (H1 & H2 & H3 & H4 & H5);
    [lia | done | done |].
  destruct (heapq._siftup_loop lt (length heap) heap (length heap) 0) as [heap' last].
  simpl in *. split.
  - apply (_siftdown_is_heap _ _ newitem).
    + apply list_lookup_insert_eq. lia.
    + by apply is_heap_around_insert.
    + intros c x Hc Hcp Hx. apply lookup_lt_Some in Hx. rewrite length_insert in Hx.
      apply parent_of_child in Hcp; [lia | done].
  - rewrite _siftdown_Permutation, H5. by rewrite list_insert_id.
Qed.

(** *** The item at the front of a heap *)

Lemma is_heap_app (heap more : list A) : is_heap (heap ++ more) -> is_heap heap.
Proof.
  intros Hheap i x y Hi Hx Hy. eapply (Hheap i); [done | |].
  - rewrite lookup_app_l; [done | by eapply lookup_lt_Some].
  - rewrite lookup_app_l; [done | by eapply lookup_lt_Some].
Qed.

Lemma is_heap_front (heap : list A) (m : A) :
  is_heap heap -> heap !! 0%nat = Some m ->
  forall x, x ∈ heap -> lt x m = false.
Proof.
  intros Hheap Hm.
  assert (forall i x, heap !! i = Some x -> lt x m = false) as Hall.
  { intros i. induction i as [i IH] using lt_wf_ind. intros x Hx.
    destruct (decide (i = 0%nat)) as [-> | Hi].
    - simplify_eq. apply (sw_irrefl lt Hlt).
    - assert (0 < i)%nat as Hi0 by lia. pose proof (parent_lt i Hi0) as Hpar.
      destruct (lookup_lt_is_Some_2 heap ((i - 1) / 2)%nat) as [y Hy].
      { apply lookup_lt_Some in Hx. lia. }
      eapply (sw_incomp lt Hlt _ y); [by eapply IH | by eapply (Hheap i)]. }
  intros x [i Hx]%list_elem_of_lookup. by eapply Hall.
Qed.

Lemma is_heap_nil : is_heap [].
Proof. intros i x y _ Hx. done. Qed.

Lemma heappush_Permutation (heap : list A) (item : A) :
  heapq.heappush lt heap item ≡ₚ item :: heap.
Proof.
  unfold heapq.heappush. rewrite _siftdown_Permutation. by rewrite Permutation_app_comm.
Qed.

Lemma heappop_spec (heap : list A) (item : A) (rest : list A) :
  is_heap heap ->
  heapq.heappop lt heap = Some (item, rest) ->
  is_heap rest /\ heap ≡ₚ item :: rest /\ forall x, x ∈ heap -> lt x item = false.
Proof.
  intros Hheap Hpop. unfold heapq.heappop in Hpop.
  destruct (reverse heap) as [| lastelt others] eqn:Hrev; [done |].
  apply (f_equal reverse) in Hrev. rewrite reverse_involutive, reverse_cons in Hrev.
  subst heap. pose proof (is_heap_app _ _ Hheap) as Hheap0.
  destruct (reverse others) as [| returnitem tail] eqn:Hothers.
  - simplify_eq. simpl. split_and!; [apply is_heap_nil | done |].
    intros x Hx%list_elem_of_singleton. subst x. apply (sw_irrefl lt Hlt).
  - simplify_eq.
    destruct (_siftup_is_heap (<[0%nat := lastelt]> (item :: tail))) as [Hrest Hperm].
    + simpl. lia.
    + apply is_heap_around_insert. by apply is_heap_is_heap_around.
    + split_and!; [done | |].
      * rewrite Hperm. simpl. f_equiv. by rewrite <- Permutation_cons_append.
      * by apply is_heap_front.
Qed.

(** X1.  From a heap, [heappop] takes an item that no item of the heap
    is smaller than, and leaves the other items as a heap again; and
    [heappush] adds the item and keeps the heap a heap. *)
Theorem heappush_heappop_spec (heap : list A) :
  is_heap heap ->
  (forall item,
      is_heap (heapq.heappush lt heap item)
      /\ heapq.heappush lt heap item ≡ₚ item :: heap)
  /\ (forall item rest,
        heapq.heappop lt heap = Some (item, rest) ->
        is_heap rest /\ heap ≡ₚ item :: rest /\ forall x, x ∈ heap -> lt x item = false).
Proof.
  intros Hheap. split.
  - intros item. split; [by apply heappush_is_heap | apply heappush_Permutation].
  - intros item rest. by apply heappop_spec.
Qed.

End HeapTheory.
End HeapTheory.

(** ** Runs of the engine: what is on OPEN and what is returned *)

Module RunsTheory.
Import SearchEngine Runs SearchEngineTheory.

Section RunsTheory.
Context {Config Key : Type} `{Countable Key} {problem : StateSpace.Problem Config Key}.

Local Abbreviation State := (StateSpace.t Config).
Local Abbreviation Node := (SearchNode.t Config).
Local Abbreviation Engine := (SearchEngine.t Config Key).
Local Abbreviation Outcome := (SearchEngine.Outcome Config).

(** *** Successors as the constructor builds them *)

Lemma build_successors_spec (self : State) (ms : list (string * Z * Config)) :
  forall (p : Process),
    (StateSpace.build_successors self ms p).1
    = imap (fun i '(a, g, c) => StateSpace.Build a g (Some self) (StateSpace_n p + i) c) ms
    /\ (StateSpace.build_successors self ms p).2
       = set_StateSpace_n (StateSpace_n p + length ms) p.
Proof.
  induction ms as [| [[a g] c] ms IH]; intros p; simpl.
  - split; [done |]. destruct p. unfold set_StateSpace_n. simpl. f_equal. lia.
  - destruct (IH (set_StateSpace_n (S (StateSpace_n p)) p)) as [IH1 IH2].
    destruct (StateSpace.build_successors self ms _) as [rest p1]. simpl in *.
    subst. split.
    + f_equal; [f_equal; lia |]. apply imap_ext. intros i [[a' g'] c'] _. simpl.
      f_equal. lia.
    + unfold set_StateSpace_n. simpl. f_equal. lia.
Qed.

Lemma successors_parent (s succ : State) (p : Process) :
  succ ∈ (StateSpace.successors s p).1 -> StateSpace.parent succ = Some s.
Proof.
  unfold StateSpace.successors.
  rewrite (proj1 (build_successors_spec s (StateSpace.moves s) p)).
  intros Hin. apply elem_of_lookup_imap in Hin as (i & [[a g] c] & -> & _). done.
Qed.

(** *** A property of the states on OPEN that successors inherit *)

Section Inherited.
Variable Q : State -> Prop.
Variable cc0 : Z.
Variable h : State -> Z.
Variable costbound : option (Z * Z * Z).
Hypothesis Q_step :
  forall (s succ : State) (p : Process) (self1 : Engine),
    Q s -> succ ∈ (StateSpace.successors s p).1 ->
    cc self1 = cc0 -> is_prunable self1 succ = false ->
    over_costbound costbound (StateSpace.gval succ) (h succ) = false ->
    Q succ.

Lemma visit_successor_every_open (node : Node) (self self' : Engine) (p p' q : Process)
    (succ : State) :
  visit_successor (Some h) costbound node self p succ = Ok (self', p') ->
  cc self = cc0 -> Q (SearchNode.state node) ->
  succ ∈ (StateSpace.successors (SearchNode.state node) q).1 ->
  every_open Q self -> every_open Q self'.
Proof.
  unfold visit_successor. intros Hv Hcc Hnode Hsucc (open0 & Hopen & Hall).
  destruct (is_prunable self succ) eqn:Hprune.
  { injection Hv as <- <-. by exists open0. }
  unfold_bind. simpl in Hv.
  destruct (over_costbound _ _ _) eqn:Hover.
  { injection Hv as <- <-. by exists open0. }
  rewrite Hopen in Hv. simpl in Hv.
  destruct (OpenNodeCollection.insert _ _ _) as [open1 |] eqn:Hins; [| done].
  assert (Forall (fun n => Q (SearchNode.state n)) (OpenNodeCollection.open open1)) as Hall1.
  { eapply OpenNodeCollectionTheory.insert_Forall; [done | done |]. simpl.
    by eapply Q_step. }
  exists open1. by case_bool_decide; injection Hv as <- <-.
Qed.

Lemma visit_successors_every_open (node : Node) (q : Process) (successors : list State) :
  forall (self self' : Engine) (p p' : Process),
    visit_successors (Some h) costbound node self p successors = Ok (self', p') ->
    cc self = cc0 -> Q (SearchNode.state node) ->
    successors ⊆ (StateSpace.successors (SearchNode.state node) q).1 ->
    every_open Q self -> every_open Q self'.
Proof.
  induction successors as [| succ successors IH]; intros self self' p p' Hv Hcc Hnode Hsub Hall;
    simpl in Hv.
  - by injection Hv as <- <-.
  - unfold_bind.
    destruct (visit_successor _ _ _ _ _ _) as [[self1 p1] |] eqn:Hone; [| done].
    pose proof Hone as Hinv. apply visit_successor_inv in Hinv as ((_ & Hcc1 & _) & _).
    eapply (IH self1); [done | congruence | done | |].
    + intros x Hx. apply Hsub. by apply list_elem_of_further.
    + eapply visit_successor_every_open; [done | done | done | | done].
      apply Hsub. apply list_elem_of_here.
Qed.

Lemma round_every_open (g : State -> bool) (self self' : Engine) (p p' : Process)
    (o : Outcome) :
  round (Some g) (Some h) costbound self p = Ok (o, self', p') ->
  cc self = cc0 -> every_open Q self ->
  every_open Q self'
  /\ (forall node, outcome_node o = Some node -> Q (SearchNode.state node))
  /\ (forall node, o = Found node -> g (SearchNode.state node) = true).
Proof.
  unfold round. intros Hr Hcc (open0 & Hopen & Hall). rewrite Hopen in Hr.
  unfold mbind, result_bind, bind in Hr.
  destruct (OpenNodeCollection.is_empty open0) as [[] |]; [| | done].
  { injection Hr as <- <- <-. split_and!; [by exists open0 | done | done]. }
  destruct (OpenNodeCollection.extract open0 p) as [[node open1] |] eqn:Hext; [| done].
  destruct (OpenNodeCollectionTheory.extract_Forall _ _ _ _ _ Hext Hall)
    as (Hnode & Hrest & _).
  simpl in Hr.
  assert (every_open Q (set_open_nodes (Some open1) self)) as Hall1 by (by exists open1).
  assert (cc (set_open_nodes (Some open1) self) = cc0) as Hcc1 by done.
  revert Hr Hall1 Hcc1. generalize (set_open_nodes (Some open1) self). intros self1 Hr Hall1 Hcc1.
  destruct (g (SearchNode.state node)) eqn:Hgoal.
  { injection Hr as <- <- <-. split_and!; [done | by intros ? [= <-] | by intros ? [= <-]]. }
  destruct (past_stop_time self1 p) as [[] p1].
  { injection Hr as <- <- <-. by split_and!. }
  destruct (superseded self1 node) as [[] |]; [| | done].
  { injection Hr as <- <- <-. split_and!; [done | by intros ? [= <-] | done]. }
  unfold expand in Hr.
  destruct (StateSpace.successors (SearchNode.state node) p1) as [successors p2] eqn:Hsucc.
  destruct (visit_successors _ _ _ _ _ _) as [[self2 p3] |] eqn:Hvisit; [| done].
  injection Hr as <- <- <-. split_and!; [| by intros ? [= <-] | done].
  eapply (visit_successors_every_open node p1); [done | done | done | | done].
  by rewrite Hsucc.
Qed.

Lemma rounds_every_open (g : State -> bool) (n : nat) :
  forall (self self' : Engine) (p p' : Process) (log : list Outcome),
    rounds n (Some g) (Some h) costbound self p = Ok (log, self', p') ->
    cc self = cc0 -> every_open Q self ->
    every_open Q self'
    /\ (forall o node, o ∈ log -> outcome_node o = Some node -> Q (SearchNode.state node))
    /\ (forall node, Found node ∈ log -> g (SearchNode.state node) = true).
Proof.
  induction n as [| n IH]; intros self self' p p' log Hr Hcc Hall; simpl in Hr.
  - injection Hr as <- <- <-. split_and!; [done | |]; intros *; by rewrite elem_of_nil.
  - unfold_bind.
    destruct (round _ _ _ _ _) as [[[o self1] p1] |] eqn:Hround; [| done].
    pose proof Hround as Hinv. apply round_inv in Hinv as ((_ & Hcc1 & _) & _).
    apply round_every_open in Hround as (Hall1 & Ho & Hg); [| done | done].
    destruct (leaves_loop o).
    + injection Hr as <- <- <-. split_and!; [done | |].
      * intros o' node ->%list_elem_of_singleton. apply Ho.
      * intros node <-%list_elem_of_singleton. by apply Hg.
    + destruct (rounds n _ _ _ _ _) as [[[log1 self2] p2] |] eqn:Hrest; [| done].
      injection Hr as <- <- <-.
      apply IH in Hrest as (Hall2 & Ho2 & Hg2); [| congruence | done].
      split_and!; [done | |].
      * intros o' node [-> | Hin]%elem_of_cons; [apply Ho | by eapply Ho2].
      * intros node [<- | Hin]%elem_of_cons; [by apply Hg | by apply Hg2].
Qed.

End Inherited.

(** *** The state in which [init_search] leaves the engine *)

Lemma init_search_open (self e : Engine) (init_state : State) (goal : State -> bool)
    (heur : State -> Z) (fval : State -> Z -> Z -> nat -> Z) (p p0 : Process) :
  init_search self init_state goal heur fval p = Ok (e, p0) ->
  every_open (fun s => s = init_state) e.
Proof.
  unfold init_search. intros Hinit.
  pose proof (OpenNodeCollection_init_open (Config := Config) (strategy self)
                (init_statistics p)) as Hopen.
  destruct (OpenNodeCollection.__init__ _ _) as [open0 p1].
  simpl in Hinit, Hopen. unfold_bind.
  destruct (OpenNodeCollection.insert _ _ _) as [open1 |] eqn:Hins; [| done].
  simplify_eq. simpl. exists open1. split; [done |].
  eapply (OpenNodeCollectionTheory.insert_Forall (fun n => SearchNode.state n = init_state));
    [done | by rewrite Hopen | done].
Qed.

Lemma every_open_impl (Q Q' : State -> Prop) (self : Engine) :
  (forall s, Q s -> Q' s) -> every_open Q self -> every_open Q' self.
Proof.
  intros Himpl (open0 & Hopen & Hall). exists open0. split; [done |].
  eapply Forall_impl; [done |]. intros n. apply Himpl.
Qed.

Lemma search_set_times_every_open (Q : State -> Prop) (self self' : Engine)
    (timebound : option Z) (p p' : Process) :
  search_set_times self timebound p = (self', p') ->
  every_open Q self -> every_open Q self'.
Proof.
  intros Hset (open0 & Hopen & Hall).
  apply search_set_times_inv in Hset as (_ & _ & _ & Hopen' & _).
  exists open0. by rewrite Hopen'.
Qed.

Lemma last_elem_of {A : Type} (l : list A) (x : A) : last l = Some x -> x ∈ l.
Proof.
  intros Hlast. induction l as [| y l IH]; [done |].
  destruct l as [| z l]; simpl in Hlast.
  - simplify_eq. apply list_elem_of_here.
  - apply list_elem_of_further, IH. done.
Qed.

(** What [search] returns comes out of a run of rounds that starts from
    the engine with the times set. *)
Lemma search_inv (fuel : nat) (e e' : Engine) (timebound : option Z)
    (costbound : option (Z * Z * Z)) (p0 p' : Process) (found : option State)
    (stats : SearchStatistics.t) :
  search fuel e timebound costbound p0 = Some (Ok (found, stats, e', p')) ->
  exists (log : list Outcome) (q : Process) (o : Outcome),
    search_rounds fuel e timebound costbound p0 = Ok (log, e', q)
    /\ last log = Some o /\ leaves_loop o = true
    /\ found = SearchNode.state <$> returned o
    /\ p' = (os_times_0 q).2
    /\ stats = SearchStatistics.Build (SearchNode_n q) (StateSpace_n q)
                 (n_cc_pruned e') (n_cost_pruned e')
                 ((os_times_0 q).1 - search_start_time e').
Proof.
  unfold search, search_rounds. intros Hs.
  destruct (search_set_times e timebound p0) as [s0 q0].
  destruct (_searchOpen _ _ _ _ _ _) as [[[[node s1] q1] |] |] eqn:Hopen; [| done | done].
  apply _searchOpen_rounds in Hopen as (log & o & Hrounds & Hlast & Hleave & ->).
  exists log, q1, o. simpl in Hs.
  destruct (returned o); simplify_eq; by split_and!.
Qed.

(** X2.  The state that [search] returns satisfies the goal test, and
    it is the initial state or a successor, through [successors], of a
    state generated from the initial state. *)
Theorem search_returns_generated_goal (self e e' : Engine) (init_state s : State)
    (goal : State -> bool) (heur : State -> Z) (fval : State -> Z -> Z -> nat -> Z)
    (p p0 p' : Process) (fuel : nat) (timebound : option Z) (costbound : option (Z * Z * Z))
    (stats : SearchStatistics.t) :
  init_search self init_state goal heur fval p = Ok (e, p0) ->
  search fuel e timebound costbound p0 = Some (Ok (Some s, stats, e', p')) ->
  goal s = true /\ generated init_state s.
Proof.
  intros Hinit Hsearch.
  apply search_inv in Hsearch as (log & q & o & Hrounds & Hlast & _ & Hfound & _).
  pose proof (init_search_open _ _ _ _ _ _ _ _ Hinit) as Hopen.
  apply init_search_inv in Hinit as (_ & Hg & Hh & _).
  unfold search_rounds in Hrounds.
  destruct (search_set_times e timebound p0) as [s0 q0] eqn:Hset.
  pose proof (search_set_times_every_open _ _ _ _ _ _ Hset Hopen) as Hopen0.
  apply search_set_times_inv in Hset as (_ & Hg0 & Hh0 & _).
  rewrite Hg0, Hg, Hh0, Hh in Hrounds.
  destruct o as [| node | | |]; simpl in Hfound; simplify_eq.
  apply last_elem_of in Hlast.
  eapply (rounds_every_open (generated init_state) (cc s0)) in Hrounds
    as (_ & Hnodes & Hgoal).
  - split; [by apply Hgoal |]. by eapply Hnodes.
  - intros s1 succ p1 _ Hs1 Hsucc _ _ _. by eapply generated_step.
  - done.
  - eapply every_open_impl; [| done]. intros s1 ->. apply generated_init.
Qed.

(** X3.  Under path cycle checking, when the identities along the path
    of the initial state are pairwise different, so are those along the
    path of every state on OPEN and of every node taken from OPEN. *)
Theorem path_checking_keeps_paths_acyclic (self e e' : Engine) (init_state : State)
    (goal : State -> bool) (heur : State -> Z) (fval : State -> Z -> Z -> nat -> Z)
    (p p0 p' : Process) (n : nat) (timebound : option Z) (costbound : option (Z * Z * Z))
    (log : list Outcome) :
  cc self = _CC_PATH ->
  NoDup (identities init_state) ->
  init_search self init_state goal heur fval p = Ok (e, p0) ->
  search_rounds n e timebound costbound p0 = Ok (log, e', p') ->
  every_open (fun s => NoDup (identities s)) e'
  /\ (forall o node, o ∈ log -> outcome_node o = Some node ->
        NoDup (identities (SearchNode.state node))).
Proof.
  intros Hcc Hnodup Hinit Hrounds.
  pose proof (init_search_open _ _ _ _ _ _ _ _ Hinit) as Hopen.
  apply init_search_inv in Hinit as (Hcce & Hg & Hh & _).
  unfold search_rounds in Hrounds.
  destruct (search_set_times e timebound p0) as [s0 q0] eqn:Hset.
  pose proof (search_set_times_every_open _ _ _ _ _ _ Hset Hopen) as Hopen0.
  apply search_set_times_inv in Hset as (Hcc0 & Hg0 & Hh0 & _).
  rewrite Hg0, Hg, Hh0, Hh in Hrounds.
  eapply (rounds_every_open (fun s => NoDup (identities s)) _CC_PATH) in Hrounds
    as (Hall & Hnodes & _).
  - done.
  - intros s1 succ p1 self1 Hs1 Hsucc Hcc1 Hprune _.
    apply successors_parent in Hsucc.
    unfold is_prunable in Hprune. rewrite Hcc1 in Hprune.
    rewrite (bool_decide_eq_false_2 (_CC_PATH = _CC_FULL)) in Hprune by done.
    rewrite (bool_decide_eq_true_2 (_CC_PATH = _CC_PATH)) in Hprune by done.
    simpl in Hprune.
    assert (StateSpace.ancestors succ = s1 :: StateSpace.ancestors s1) as Hanc.
    { destruct succ as [a g par i c]. simpl in Hsucc. by subst. }
    unfold identities. rewrite Hanc. simpl. apply NoDup_cons. split; [| done].
    intros Hin.
    change (StateSpace.hashable_state succ
            ∈ StateSpace.hashable_state <$> (s1 :: StateSpace.ancestors s1)) in Hin.
    apply list_elem_of_fmap_1 in Hin as (a & Ha & Hin).
    assert (StateSpace.has_path_cycle succ = true); [| congruence].
    apply StateSpaceTheory.has_path_cycle_true. exists a. by rewrite Hanc.
  - congruence.
  - eapply every_open_impl; [| done]. by intros s1 ->.
Qed.


(** *** Counting *)

Lemma visit_successor_counts (heur_fn : option (State -> Z)) (costbound : option (Z * Z * Z))
    (node : Node) (self self' : Engine) (p p' : Process) (succ : State) :
  visit_successor heur_fn costbound node self p succ = Ok (self', p') ->
  (n_cc_pruned self' + n_cost_pruned self' + SearchNode_n p'
   = n_cc_pruned self + n_cost_pruned self + SearchNode_n p + 1)%nat
  /\ StateSpace_n p' = StateSpace_n p
  /\ (n_cc_pruned self <= n_cc_pruned self')%nat
  /\ (n_cost_pruned self <= n_cost_pruned self')%nat
  /\ (cc self <> _CC_FULL -> path_to_gval self' = path_to_gval self)
  /\ (cc self = _CC_NONE -> n_cc_pruned self' = n_cc_pruned self).
Proof.
  unfold visit_successor. intros Hv.
  destruct (is_prunable self succ) eqn:Hprune.
  { simplify_eq. simpl. split_and!; try done; try lia.
    intros Hnone. unfold is_prunable in Hprune. rewrite Hnone in Hprune. done. }
  unfold_bind. destruct heur_fn as [h |]; simpl in Hv; [| done].
  destruct (over_costbound _ _ _).
  { simplify_eq. simpl. split_and!; try done; lia. }
  destruct (open_nodes self) as [open0 |]; [| done]. simpl in Hv.
  destruct (OpenNodeCollection.insert _ _ _) as [open1 |]; [| done]. simpl in Hv.
  case_bool_decide; simplify_eq; simpl; split_and!; try done; lia.
Qed.

Lemma visit_successors_counts (heur_fn : option (State -> Z))
    (costbound : option (Z * Z * Z)) (node : Node) (successors : list State) :
  forall (self self' : Engine) (p p' : Process),
    visit_successors heur_fn costbound node self p successors = Ok (self', p') ->
    (n_cc_pruned self' + n_cost_pruned self' + SearchNode_n p'
     = n_cc_pruned self + n_cost_pruned self + SearchNode_n p + length successors)%nat
    /\ StateSpace_n p' = StateSpace_n p
    /\ (n_cc_pruned self <= n_cc_pruned self')%nat
    /\ (n_cost_pruned self <= n_cost_pruned self')%nat
    /\ (cc self <> _CC_FULL -> path_to_gval self' = path_to_gval self)
    /\ (cc self = _CC_NONE -> n_cc_pruned self' = n_cc_pruned self).
Proof.
  induction successors as [| succ successors IH]; intros self self' p p' Hv; simpl in Hv.
  - simplify_eq. simpl. split_and!; try done; lia.
  - unfold_bind.
    destruct (visit_successor _ _ _ _ _ _) as [[self1 p1] |] eqn:Hone; [| done].
    pose proof Hone as Hinv. apply visit_successor_inv in Hinv as ((_ & Hcc1 & _) & _).
    apply visit_successor_counts in Hone as (H1 & H2 & H3 & H4 & H5 & H6).
    apply IH in Hv as (G1 & G2 & G3 & G4 & G5 & G6). simpl.
    split_and!; [lia | lia | lia | lia | |].
    + intros Hne. rewrite G5, H5; [done | done | congruence].
    + intros Hnone. rewrite G6, H6; [done | done | congruence].
Qed.

Lemma round_counts (goal_fn : option (State -> bool)) (heur_fn : option (State -> Z))
    (costbound : option (Z * Z * Z)) (self self' : Engine) (p p' : Process) (o : Outcome) :
  round goal_fn heur_fn costbound self p = Ok (o, self', p') ->
  (n_cc_pruned self' + n_cost_pruned self' + SearchNode_n p' + StateSpace_n p
   = n_cc_pruned self + n_cost_pruned self + SearchNode_n p + StateSpace_n p')%nat
  /\ (n_cc_pruned self <= n_cc_pruned self')%nat
  /\ (n_cost_pruned self <= n_cost_pruned self')%nat
  /\ (cc self <> _CC_FULL -> path_to_gval self' = path_to_gval self)
  /\ (cc self = _CC_NONE -> n_cc_pruned self' = n_cc_pruned self).
Proof.
  unfold round. intros Hr.
  destruct (open_nodes self) as [open0 |]; [| done]. unfold_bind.
  destruct (OpenNodeCollection.is_empty open0) as [[] |]; [| | done].
  { simplify_eq. split_and!; try done; lia. }
  destruct (OpenNodeCollection.extract open0 p) as [[node open1] |]; [| done].
  destruct (callable goal_fn) as [g |]; [| done]. simpl in Hr.
  destruct (g (SearchNode.state node)).
  { simplify_eq. simpl. split_and!; try done; lia. }
  unfold past_stop_time in Hr. simpl in Hr.
  destruct (truthy (search_stop_time self)); simpl in Hr;
    [destruct (bool_decide _) |].
  { simplify_eq. simpl. split_and!; try done; lia. }
  all: destruct (superseded _ node) as [[] |]; [| | done].
  all: try (simplify_eq; simpl; split_and!; try done; lia).
  all: unfold expand in Hr.
  all: match type of Hr with context [StateSpace.successors ?s ?q] =>
         pose proof (build_successors_spec s (StateSpace.moves s) q) as [Hlist Hproc];
         fold (StateSpace.successors s q) in Hlist, Hproc;
         destruct (StateSpace.successors s q) as [successors p2] end.
  all: destruct (visit_successors _ _ _ _ _ _) as [[self2 p3] |] eqn:Hvisit; [| done].
  all: simplify_eq.
  all: apply visit_successors_counts in Hvisit as (H1 & H2 & H3 & H4 & H5 & H6).
  all: simpl in *; subst; rewrite length_imap in H1; simpl in *.
  all: split_and!; try done; lia.
Qed.

Lemma rounds_counts (goal_fn : option (State -> bool)) (heur_fn : option (State -> Z))
    (costbound : option (Z * Z * Z)) (n : nat) :
  forall (self self' : Engine) (p p' : Process) (log : list Outcome),
    rounds n goal_fn heur_fn costbound self p = Ok (log, self', p') ->
    (n_cc_pruned self' + n_cost_pruned self' + SearchNode_n p' + StateSpace_n p
     = n_cc_pruned self + n_cost_pruned self + SearchNode_n p + StateSpace_n p')%nat
    /\ (n_cc_pruned self <= n_cc_pruned self')%nat
    /\ (n_cost_pruned self <= n_cost_pruned self')%nat
    /\ (cc self <> _CC_FULL -> path_to_gval self' = path_to_gval self)
    /\ (cc self = _CC_NONE -> n_cc_pruned self' = n_cc_pruned self).
Proof.
  induction n as [| n IH]; intros self self' p p' log Hr; simpl in Hr.
  - simplify_eq. split_and!; try done; lia.
  - unfold_bind.
    destruct (round _ _ _ _ _) as [[[o self1] p1] |] eqn:Hround; [| done].
    pose proof Hround as Hinv. apply round_inv in Hinv as ((_ & Hcc1 & _) & _).
    apply round_counts in Hround as (H1 & H3 & H4 & H5 & H6).
    destruct (leaves_loop o); [by simplify_eq |].
    destruct (rounds n _ _ _ _ _) as [[[log1 self2] p2] |] eqn:Hrest; [| done].
    simplify_eq. apply IH in Hrest as (G1 & G3 & G4 & G5 & G6).
    split_and!; [lia | lia | lia | |].
    + intros Hne. rewrite G5, H5; [done | done | congruence].
    + intros Hnone. rewrite G6, H6; [done | done | congruence].
Qed.

Lemma init_search_counts (self e : Engine) (init_state : State) (goal : State -> bool)
    (heur : State -> Z) (fval : State -> Z -> Z -> nat -> Z) (p p0 : Process) :
  init_search self init_state goal heur fval p = Ok (e, p0) ->
  SearchNode_n p0 = 1%nat /\ StateSpace_n p0 = 1%nat
  /\ n_cc_pruned e = n_cc_pruned self /\ n_cost_pruned e = n_cost_pruned self
  /\ (cc self <> _CC_FULL -> path_to_gval e = path_to_gval self).
Proof.
  unfold init_search. intros Hinit.
  assert (forall q, StateSpace_n (OpenNodeCollection.__init__ (Config := Config)
                                    (strategy self) q).2 = StateSpace_n q
                    /\ SearchNode_n (OpenNodeCollection.__init__ (Config := Config)
                                       (strategy self) q).2 = SearchNode_n q) as Hkeep.
  { intros q. unfold OpenNodeCollection.__init__. by repeat case_bool_decide. }
  destruct (Hkeep (init_statistics p)) as [Hss Hsn].
  destruct (OpenNodeCollection.__init__ _ _) as [open0 p1].
  simpl in Hinit, Hss, Hsn. unfold_bind.
  destruct (OpenNodeCollection.insert _ _ _) as [open1 |]; [| done].
  simplify_eq. simpl. rewrite Hss, Hsn.
  case_bool_decide; simpl; split_and!; done.
Qed.

Lemma search_counts (fuel : nat) (e e' : Engine) (timebound : option Z)
    (costbound : option (Z * Z * Z)) (p0 p' : Process) (found : option State)
    (stats : SearchStatistics.t) :
  search fuel e timebound costbound p0 = Some (Ok (found, stats, e', p')) ->
  (SearchStatistics.states_pruned_cycles stats + SearchStatistics.states_pruned_cost stats
   + SearchStatistics.states_expanded stats + StateSpace_n p0
   = n_cc_pruned e + n_cost_pruned e + SearchNode_n p0
     + SearchStatistics.states_generated stats)%nat
  /\ (n_cc_pruned e <= SearchStatistics.states_pruned_cycles stats)%nat
  /\ (n_cost_pruned e <= SearchStatistics.states_pruned_cost stats)%nat
  /\ (cc e <> _CC_FULL -> path_to_gval e' = path_to_gval e)
  /\ (cc e = _CC_NONE -> SearchStatistics.states_pruned_cycles stats = n_cc_pruned e).
Proof.
  intros Hsearch.
  apply search_inv in Hsearch as (log & q & o & Hrounds & _ & _ & _ & _ & ->).
  unfold search_rounds in Hrounds.
  destruct (search_set_times e timebound p0) as [s0 q0] eqn:Hset.
  apply rounds_counts in Hrounds as (H1 & H3 & H4 & H5 & H6).
  unfold search_set_times in Hset. simpl in Hset.
  destruct (truthy timebound); simplify_eq; simpl in *; split_and!; done.
Qed.

(** X5.  For the first search of an engine, the statistics add up:
    the states generated are the nodes created (reported as expanded)
    and the successors pruned by cycle checking and by the cost bound. *)
Theorem first_search_statistics_add_up (strategy_name cc_name : string) (self e e' : Engine)
    (init_state : State) (goal : State -> bool) (heur : State -> Z)
    (fval : State -> Z -> Z -> nat -> Z) (p p0 p' : Process) (fuel : nat)
    (timebound : option Z) (costbound : option (Z * Z * Z)) (found : option State)
    (stats : SearchStatistics.t) :
  __init__ strategy_name cc_name = Ok self ->
  init_search self init_state goal heur fval p = Ok (e, p0) ->
  search fuel e timebound costbound p0 = Some (Ok (found, stats, e', p')) ->
  SearchStatistics.states_generated stats
  = (SearchStatistics.states_expanded stats + SearchStatistics.states_pruned_cycles stats
     + SearchStatistics.states_pruned_cost stats)%nat.
Proof.
  intros Hmade Hinit Hsearch.
  assert (n_cc_pruned self = 0%nat /\ n_cost_pruned self = 0%nat) as [Hcc0 Hcost0].
  { unfold __init__, set_strategy, set_cycle_check in Hmade. unfold_bind.
    repeat case_match; simplify_eq; done. }
  apply init_search_counts in Hinit as (Hsn & Hss & Hcc & Hcost & _).
  apply search_counts in Hsearch as (Hsum & _). lia.
Qed.

(** X6.  The pruning counters are never reset: the pruned counts that
    [search] reports are at least those the engine had before
    [init_search], and they exceed the states generated less the nodes
    created, both counted anew, by what the engine had before. *)
Theorem pruned_counts_carry_over (self e e' : Engine) (init_state : State)
    (goal : State -> bool) (heur : State -> Z) (fval : State -> Z -> Z -> nat -> Z)
    (p p0 p' : Process) (fuel : nat) (timebound : option Z)
    (costbound : option (Z * Z * Z)) (found : option State) (stats : SearchStatistics.t) :
  init_search self init_state goal heur fval p = Ok (e, p0) ->
  search fuel e timebound costbound p0 = Some (Ok (found, stats, e', p')) ->
  (n_cc_pruned self <= SearchStatistics.states_pruned_cycles stats)%nat
  /\ (n_cost_pruned self <= SearchStatistics.states_pruned_cost stats)%nat
  /\ (SearchStatistics.states_generated stats + n_cc_pruned self + n_cost_pruned self
      = SearchStatistics.states_expanded stats + SearchStatistics.states_pruned_cycles stats
        + SearchStatistics.states_pruned_cost stats)%nat.
Proof.
  intros Hinit Hsearch.
  apply init_search_counts in Hinit as (Hsn & Hss & Hcc & Hcost & _).
  apply search_counts in Hsearch as (Hsum & Hle1 & Hle2 & _). lia.
Qed.

(** X7.  Without full cycle checking, [init_search] and [search] leave
    the cycle-check dictionary as it was; without any cycle checking, no
    successor is counted as pruned by cycle checking. *)
Theorem dictionary_untouched_without_full_checking (self e e' : Engine) (init_state : State)
    (goal : State -> bool) (heur : State -> Z) (fval : State -> Z -> Z -> nat -> Z)
    (p p0 p' : Process) (fuel : nat) (timebound : option Z)
    (costbound : option (Z * Z * Z)) (found : option State) (stats : SearchStatistics.t) :
  cc self <> _CC_FULL ->
  init_search self init_state goal heur fval p = Ok (e, p0) ->
  search fuel e timebound costbound p0 = Some (Ok (found, stats, e', p')) ->
  path_to_gval e' = path_to_gval self
  /\ (cc self = _CC_NONE ->
      SearchStatistics.states_pruned_cycles stats = n_cc_pruned self).
Proof.
  intros Hne Hinit Hsearch.
  pose proof Hinit as Hinv. apply init_search_inv in Hinv as (Hcce & _).
  apply init_search_counts in Hinit as (_ & _ & Hcc & _ & Hledger).
  apply search_counts in Hsearch as (_ & _ & _ & Hledger' & Hnone).
  split.
  - rewrite Hledger', Hledger; [done | done | congruence].
  - intros Hcc0. rewrite Hnone; [done | congruence].
Qed.

End RunsTheory.
End RunsTheory.

(** ** The order in which nodes leave the collection of open nodes *)

Module FrontierTheory.
Import Frontier Heap SearchEngineTheory.

Section FrontierTheory.
Context {Config : Type}.

Local Abbreviation Node := (SearchNode.t Config).
Local Abbreviation Collection := (OpenNodeCollection.t Config).

(** *** [__lt__] *)

Lemma lt_priority (lt_type : Z) (a b : Node) :
  SearchNode.__lt__ lt_type a b = true <-> lex_lt (priority lt_type a) (priority lt_type b).
Proof.
  unfold SearchNode.__lt__, priority, lex_lt.
  repeat case_bool_decide; simpl; rewrite ?bool_decide_eq_true; lia.
Qed.

Lemma lt_priority_false (lt_type : Z) (a b : Node) :
  SearchNode.__lt__ lt_type a b = false
  <-> ~ lex_lt (priority lt_type a) (priority lt_type b).
Proof. rewrite <- lt_priority. by destruct (SearchNode.__lt__ lt_type a b). Qed.

Lemma lt_is_strict_weak (lt_type : Z) :
  strict_weak (SearchNode.__lt__ (Config := Config) lt_type).
Proof.
  split.
  - intros a. apply lt_priority_false. unfold lex_lt. lia.
  - intros a b c. rewrite !lt_priority. unfold lex_lt. lia.
  - intros a b c. rewrite !lt_priority_false. unfold lex_lt. lia.
Qed.

(** X8.  In every comparison mode, [__lt__] compares two nodes by a
    pair of numbers, the second breaking ties of the first, and is a
    strict weak order: irreflexive, transitive, and with a transitive
    "not smaller than". *)
Theorem lt_strict_weak (lt_type : Z) :
  (forall a b : Node,
      SearchNode.__lt__ lt_type a b = true
      <-> lex_lt (priority lt_type a) (priority lt_type b))
  /\ strict_weak (SearchNode.__lt__ (Config := Config) lt_type).
Proof. split; [apply lt_priority | apply lt_is_strict_weak]. Qed.

(** *** Stack and queue *)

Lemma insert_all_list (s : Z) (nodes : list Node) (p : Process) :
  s = _DEPTH_FIRST \/ s = _BREADTH_FIRST ->
  forall open : list Node,
    insert_all (OpenNodeCollection.Build open s) nodes p
    = Ok (OpenNodeCollection.Build (open ++ nodes) s).
Proof.
  intros Hs. induction nodes as [| node nodes IH]; intros open; simpl.
  - by rewrite app_nil_r.
  - unfold OpenNodeCollection.insert. simpl.
    destruct Hs as [-> | ->]; simpl; rewrite IH; by rewrite <- app_assoc.
Qed.

Lemma extract_all_stack (fuel : nat) (p : Process) :
  forall open : list Node,
    (length open <= fuel)%nat ->
    extract_all fuel (OpenNodeCollection.Build open _DEPTH_FIRST) p = Ok (reverse open).
Proof.
  induction fuel as [| fuel IH]; intros open Hlen.
  - destruct open; [done | simpl in Hlen; lia].
  - simpl. unfold OpenNodeCollection.is_empty, OpenNodeCollection.extract. simpl.
    destruct open as [| first others] eqn:Hopen; [done |]. rewrite <- Hopen.
    simpl. destruct (reverse open) as [| node rest] eqn:Hrev.
    { apply (f_equal reverse) in Hrev. rewrite reverse_involutive in Hrev. by subst. }
    simpl. rewrite IH.
    + simpl. by rewrite reverse_involutive.
    + apply (f_equal length) in Hrev. rewrite length_reverse in Hrev.
      rewrite length_reverse. simpl in *. subst open. simpl in *. lia.
Qed.

Lemma extract_all_queue (fuel : nat) (p : Process) :
  forall open : list Node,
    (length open <= fuel)%nat ->
    extract_all fuel (OpenNodeCollection.Build open _BREADTH_FIRST) p = Ok open.
Proof.
  induction fuel as [| fuel IH]; intros open Hlen.
  - destruct open; [done | simpl in Hlen; lia].
  - simpl. unfold OpenNodeCollection.is_empty, OpenNodeCollection.extract. simpl.
    destruct open as [| first others]; [done |]. simpl.
    rewrite IH by (simpl in Hlen; lia). done.
Qed.

(** X9.  The depth-first collection is a stack and the breadth-first
    collection a queue: nodes inserted into a new collection come out in
    the reverse order of insertion from the first and in the order of
    insertion from the second. *)
Theorem stack_and_queue_order (nodes : list Node) (fuel : nat) (p0 p : Process) :
  (length nodes <= fuel)%nat ->
  (exists c : Collection,
      insert_all (OpenNodeCollection.__init__ _DEPTH_FIRST p0).1 nodes p = Ok c
      /\ extract_all fuel c p = Ok (reverse nodes))
  /\ (exists c : Collection,
        insert_all (OpenNodeCollection.__init__ _BREADTH_FIRST p0).1 nodes p = Ok c
        /\ extract_all fuel c p = Ok nodes).
Proof.
  intros Hlen. split.
  - eexists. split; [apply insert_all_list; by left |].
    by apply extract_all_stack.
  - eexists. split; [apply insert_all_list; by right |].
    by apply extract_all_queue.
Qed.

(** X10.  For each of the six strategies, [is_empty] is true of a
    collection without nodes and [extract] on it raises [IndexError]. *)
Theorem extract_from_empty (s : Z) (p : Process) :
  OpenNodeCollection.known_strategy s = true ->
  OpenNodeCollection.is_empty (OpenNodeCollection.Build (Config := Config) [] s) = Ok true
  /\ OpenNodeCollection.extract (OpenNodeCollection.Build (Config := Config) [] s) p
     = Raise IndexError.
Proof.
  intros Hs. unfold OpenNodeCollection.is_empty, OpenNodeCollection.extract. simpl.
  rewrite Hs. split; [done |].
  unfold OpenNodeCollection.known_strategy in Hs.
  repeat case_bool_decide; simpl in *; try done. by rewrite Hs.
Qed.

(** *** Priority queues *)

Lemma uses_heap_not_list (s : Z) :
  OpenNodeCollection.uses_heap s = true ->
  bool_decide (s = _DEPTH_FIRST) = false /\ bool_decide (s = _BREADTH_FIRST) = false.
Proof.
  intros Hs. split; (case_bool_decide; [subst; by vm_compute in Hs | done]).
Qed.

Lemma insert_heap (s : Z) (open : list Node) (node : Node) (p : Process) :
  OpenNodeCollection.uses_heap s = true ->
  OpenNodeCollection.insert (OpenNodeCollection.Build open s) node p
  = Ok (OpenNodeCollection.Build
          (heapq.heappush (SearchNode.__lt__ (SearchNode_lt_type p)) open node) s).
Proof.
  intros Hs. unfold OpenNodeCollection.insert. cbn [OpenNodeCollection.search_strategy].
  destruct (uses_heap_not_list s Hs) as [-> ->]. by rewrite Hs.
Qed.

Lemma extract_heap (s : Z) (open : list Node) (p : Process) :
  OpenNodeCollection.uses_heap s = true ->
  OpenNodeCollection.extract (OpenNodeCollection.Build open s) p
  = match heapq.heappop (SearchNode.__lt__ (SearchNode_lt_type p)) open with
    | Some (node, rest) => Ok (node, OpenNodeCollection.Build rest s)
    | None => Raise IndexError
    end.
Proof.
  intros Hs. unfold OpenNodeCollection.extract. cbn [OpenNodeCollection.search_strategy].
  destruct (uses_heap_not_list s Hs) as [-> ->]. by rewrite Hs.
Qed.

Lemma is_empty_heap (s : Z) (open : list Node) :
  OpenNodeCollection.uses_heap s = true ->
  OpenNodeCollection.is_empty (OpenNodeCollection.Build open s)
  = Ok (match open with [] => true | _ :: _ => false end).
Proof.
  intros Hs. unfold OpenNodeCollection.is_empty, OpenNodeCollection.known_strategy.
  cbn [OpenNodeCollection.search_strategy]. by rewrite Hs, !orb_true_r.
Qed.

Lemma insert_all_heap (s : Z) (p : Process) (nodes : list Node) :
  OpenNodeCollection.uses_heap s = true ->
  forall open : list Node,
    is_heap (SearchNode.__lt__ (SearchNode_lt_type p)) open ->
    exists open',
      insert_all (OpenNodeCollection.Build open s) nodes p
      = Ok (OpenNodeCollection.Build open' s)
      /\ is_heap (SearchNode.__lt__ (SearchNode_lt_type p)) open'
      /\ open' ≡ₚ open ++ nodes.
Proof.
  intros Hs. induction nodes as [| node nodes IH]; intros open Hheap.
  - exists open. by rewrite app_nil_r.
  - cbn [insert_all]. rewrite insert_heap by done.
    pose proof (HeapTheory.heappush_is_heap _ (lt_is_strict_weak (SearchNode_lt_type p))
                  open node Hheap) as Hpush.
    pose proof (HeapTheory.heappush_Permutation (SearchNode.__lt__ (SearchNode_lt_type p))
                  open node) as Hperm.
    destruct (IH _ Hpush) as (open' & Hins & Hheap' & Hperm').
    exists open'. split_and!; [done | done |].
    rewrite Hperm', Hperm. by rewrite <- Permutation_middle.
Qed.

Lemma extract_all_heap (s : Z) (p : Process) (fuel : nat) :
  OpenNodeCollection.uses_heap s = true ->
  forall open : list Node,
    (length open <= fuel)%nat ->
    is_heap (SearchNode.__lt__ (SearchNode_lt_type p)) open ->
    exists out,
      extract_all fuel (OpenNodeCollection.Build open s) p = Ok out
      /\ out ≡ₚ open
      /\ StronglySorted
           (fun a b => SearchNode.__lt__ (SearchNode_lt_type p) b a = false) out.
Proof.
  intros Hs. induction fuel as [| fuel IH]; intros open Hlen Hheap.
  - destruct open; [| simpl in Hlen; lia]. exists []. split_and!; [done | done | constructor].
  - cbn [extract_all]. rewrite is_empty_heap by done.
    destruct open as [| first others] eqn:Hopen.
    { exists []. split_and!; [done | done | constructor]. }
    rewrite <- Hopen in *. unfold mbind, result_bind, bind.
    rewrite extract_heap by done.
    destruct (HeapqTheory.heappop_nonempty
                (SearchNode.__lt__ (SearchNode_lt_type p)) open) as [[node rest] Hpop].
    { by subst. }
    rewrite Hpop.
    destruct (HeapTheory.heappop_spec _ (lt_is_strict_weak (SearchNode_lt_type p))
                open node rest Hheap Hpop) as (Hrest & Hperm & Hmin).
    destruct (IH rest) as (out & Hout_eq & Hout & Hsorted).
    + apply Permutation_length in Hperm. simpl in Hperm. lia.
    + done.
    + rewrite Hout_eq. exists (node :: out).
      split_and!; [done | by rewrite Hperm, Hout |].
      constructor; [done |]. apply Forall_forall. intros x Hx. apply Hmin.
      rewrite Hperm. apply list_elem_of_further. by rewrite <- Hout.
Qed.

Lemma StronglySorted_mono {B : Type} (R R' : B -> B -> Prop) (l : list B) :
  (forall a b, R a b -> R' a b) -> StronglySorted R l -> StronglySorted R' l.
Proof.
  intros Himpl Hsorted. induction Hsorted as [| a l Hl IH Hall]; constructor; [done |].
  eapply Forall_impl; [done |]. intros b. apply Himpl.
Qed.

(** X11.  A priority-queue collection gives back the nodes inserted
    into it, each once, least first: by g for uniform-cost, by h for
    best-first, by g+h for A*, and by the value of the f-value function
    for the custom strategy. *)
Theorem priority_queue_order (s : Z) (nodes : list Node) (fuel : nat) (p0 : Process) :
  OpenNodeCollection.uses_heap s = true ->
  (length nodes <= fuel)%nat ->
  exists (c : Collection) (out : list Node),
    insert_all (OpenNodeCollection.__init__ s p0).1 nodes
      (OpenNodeCollection.__init__ (Config := Config) s p0).2
    = Ok c
    /\ extract_all fuel c (OpenNodeCollection.__init__ (Config := Config) s p0).2 = Ok out
    /\ out ≡ₚ nodes
    /\ (s = _UCS ->
        StronglySorted (fun a b => SearchNode.gval a <= SearchNode.gval b) out)
    /\ (s = _BEST_FIRST ->
        StronglySorted (fun a b => SearchNode.hval a <= SearchNode.hval b) out)
    /\ (s = _ASTAR ->
        StronglySorted
          (fun a b => SearchNode.gval a + SearchNode.hval a
                      <= SearchNode.gval b + SearchNode.hval b) out)
    /\ (s = _CUSTOM ->
        StronglySorted
          (fun a b => SearchNode.fval (SearchNode.fval_function a) a
                      <= SearchNode.fval (SearchNode.fval_function b) b) out).
Proof.
  intros Hs Hlen.
  assert ((OpenNodeCollection.__init__ (Config := Config) s p0).1
          = OpenNodeCollection.Build [] s) as Hfresh.
  { unfold OpenNodeCollection.__init__. by repeat case_bool_decide. }
  rewrite Hfresh.
  set (p := (OpenNodeCollection.__init__ (Config := Config) s p0).2).
  destruct (insert_all_heap s p nodes Hs []) as (open & Hins & Hheap & Hperm).
  { intros i x y _ Hx. done. }
  destruct (extract_all_heap s p fuel Hs open) as (out & Hext & Hout & Hsorted).
  { apply Permutation_length in Hperm. simpl in Hperm. lia. }
  { done. }
  exists (OpenNodeCollection.Build open s), out.
  split_and!; [done | done | by rewrite Hout, Hperm | | | |].
  all: intros ->.
  all: eapply StronglySorted_mono; [| exact Hsorted].
  all: intros a b; rewrite lt_priority_false; subst p; unfold lex_lt, priority; simpl.
  all: lia.
Qed.

End FrontierTheory.
End FrontierTheory.

(** ** Configuring an engine and reporting its configuration *)

Module ReportingTheory.
Import SearchEngine Reporting.

Section ReportingTheory.
Context {Config Key : Type} `{Countable Key}.

Local Abbreviation Engine := (SearchEngine.t Config Key).

Lemma strategy_map_items : _SEARCH_STRATEGY_MAP = list_to_map _SEARCH_STRATEGY_MAP_items.
Proof. reflexivity. Qed.

Lemma cycle_check_map_items : _CYCLE_CHECK_MAP = list_to_map _CYCLE_CHECK_MAP_items.
Proof. reflexivity. Qed.

Lemma strategy_lookup (name : string) :
  match _SEARCH_STRATEGY_MAP !! name with
  | Some v => (name, v) ∈ _SEARCH_STRATEGY_MAP_items
  | None => name ∉ _SEARCH_STRATEGY_MAP_items.*1
  end.
Proof.
  rewrite strategy_map_items.
  destruct (list_to_map _SEARCH_STRATEGY_MAP_items !! name) as [v |] eqn:Hl.
  - by apply elem_of_list_to_map_2 in Hl.
  - by apply not_elem_of_list_to_map_2 in Hl.
Qed.

Lemma cycle_check_lookup (name : string) :
  match _CYCLE_CHECK_MAP !! name with
  | Some v => (name, v) ∈ _CYCLE_CHECK_MAP_items
  | None => name ∉ _CYCLE_CHECK_MAP_items.*1
  end.
Proof.
  rewrite cycle_check_map_items.
  destruct (list_to_map _CYCLE_CHECK_MAP_items !! name) as [v |] eqn:Hl.
  - by apply elem_of_list_to_map_2 in Hl.
  - by apply not_elem_of_list_to_map_2 in Hl.
Qed.

Lemma constructed_names (strategy_name cc_name : string) (e : Engine) :
  __init__ strategy_name cc_name = Ok e ->
  strategy_name ∈ _SEARCH_STRATEGY_MAP_items.*1 /\ cc_name ∈ _CYCLE_CHECK_MAP_items.*1.
Proof.
  pose proof (strategy_lookup strategy_name) as Hs.
  pose proof (cycle_check_lookup cc_name) as Hc.
  unfold __init__, set_strategy, set_cycle_check.
  destruct (_SEARCH_STRATEGY_MAP !! strategy_name) as [v |]; simpl; [| done].
  destruct (_CYCLE_CHECK_MAP !! cc_name) as [w |]; [| done].
  intros _. split.
  - by apply (list_elem_of_fmap_2 fst) in Hs.
  - by apply (list_elem_of_fmap_2 fst) in Hc.
Qed.

(** X12.  The constructor accepts exactly the six strategy names and
    the four cycle-check names; with any other name it raises
    [ValueError]. *)
Theorem constructor_accepts_known_names (strategy_name cc_name : string) :
  (strategy_name ∈ _SEARCH_STRATEGY_MAP_items.*1 /\ cc_name ∈ _CYCLE_CHECK_MAP_items.*1
   <-> exists e : Engine, __init__ strategy_name cc_name = Ok e)
  /\ (~ (strategy_name ∈ _SEARCH_STRATEGY_MAP_items.*1
         /\ cc_name ∈ _CYCLE_CHECK_MAP_items.*1)
      -> __init__ (Config := Config) (Key := Key) strategy_name cc_name = Raise ValueError).
Proof.
  pose proof (strategy_lookup strategy_name) as Hs.
  pose proof (cycle_check_lookup cc_name) as Hc.
  unfold __init__, set_strategy, set_cycle_check.
  destruct (_SEARCH_STRATEGY_MAP !! strategy_name) as [v |]; simpl.
  - apply (list_elem_of_fmap_2 fst) in Hs. simpl in Hs.
    destruct (_CYCLE_CHECK_MAP !! cc_name) as [w |].
    + apply (list_elem_of_fmap_2 fst) in Hc. simpl in Hc.
      split; [| tauto]. split; [| done]. intros _. case_match; eauto.
    + split; [| done]. split; [tauto | by intros [? ?]].
  - split; [| done]. split; [tauto | by intros [? ?]].
Qed.

(** X13.  [get_strategy] reports the names the engine was constructed
    with, the cycle-check name 'default' being reported as what it stands
    for: 'path' with the depth-first strategy and 'full' otherwise. *)
Theorem get_strategy_reports_names (strategy_name cc_name : string) (e : Engine) :
  __init__ strategy_name cc_name = Ok e ->
  get_strategy e
  = Ok (strategy_name +:+ " with "
        +:+ (if bool_decide (cc_name = _CC_DEFAULT_STR) then
               if bool_decide (strategy_name = _DEPTH_FIRST_STR) then _CC_PATH_STR
               else _CC_FULL_STR
             else cc_name)
        +:+ " cycle checking").
Proof.
  intros Hmade.
  destruct (constructed_names _ _ _ Hmade) as [Hs Hc].
  unfold _SEARCH_STRATEGY_MAP_items, _CYCLE_CHECK_MAP_items in Hs, Hc. simpl in Hs, Hc.
  repeat (apply elem_of_cons in Hs as [-> | Hs]); [.. | by apply elem_of_nil in Hs].
  all: repeat (apply elem_of_cons in Hc as [-> | Hc]); [.. | by apply elem_of_nil in Hc].
  all: vm_compute in Hmade; injection Hmade as <-; by vm_compute.
Qed.

End ReportingTheory.
End ReportingTheory.


(** ** The Sokoban puzzle *)

Module SokobanTheory.
Import sokoban_direction SokobanState solution.

(** *** The goal test *)

(** [sokoban_goal_state] holds exactly when every box is on a storage
    cell. *)
Lemma sokoban_goal_state_subseteq (state : SokobanState.t) :
  sokoban_goal_state state = true
  <-> boxes (StateSpace.config state) ⊆ storage (StateSpace.config state).
Proof.
  unfold sokoban_goal_state. rewrite forallb_forall. split.
  - intros Hall box Hbox. eapply bool_decide_eq_true.
    apply Hall. apply list_elem_of_In. by apply elem_of_elements.
  - intros Hsub box Hbox. apply bool_decide_eq_true. apply Hsub.
    apply list_elem_of_In in Hbox. by apply elem_of_elements in Hbox.
Qed.

(** *** One move *)

Lemma moves_elem (self : SokobanState.t) (m : string * Z * Config) :
  m ∈ moves self ->
  exists (robot_idx : nat) (robot_pos : Z * Z) (direction : sokoban_direction.t),
    robots (StateSpace.config self) !! robot_idx = Some robot_pos
    /\ direction ∈ [UP; RIGHT; DOWN; LEFT]
    /\ step self robot_idx robot_pos direction = Some m.
Proof.
  unfold moves. intros Hm.
  apply list_elem_of_join in Hm as (ms & Hm & Hms).
  apply elem_of_lookup_imap in Hms as (robot_idx & robot_pos & -> & Hrobot).
  apply list_elem_of_omap in Hm as (direction & Hdir & Hstep).
  by exists robot_idx, robot_pos, direction.
Qed.

Lemma in_bounds_same (self other : SokobanState.t) (loc : Z * Z) :
  width (StateSpace.config other) = width (StateSpace.config self) ->
  height (StateSpace.config other) = height (StateSpace.config self) ->
  _in_bounds other loc = _in_bounds self loc.
Proof. unfold _in_bounds. destruct loc. by intros -> ->. Qed.

Lemma insert_robot_tidy (self : SokobanState.t) (robot_idx : nat) (new_pos pos : Z * Z) :
  tidy self ->
  _in_bounds self new_pos = true ->
  new_pos ∉ obstacles (StateSpace.config self) ->
  pos ∈ <[robot_idx := new_pos]> (robots (StateSpace.config self)) ->
  _in_bounds self pos = true /\ pos ∉ obstacles (StateSpace.config self).
Proof.
  intros Htidy Hin Hobs Hpos. apply list_elem_of_lookup in Hpos as [i Hi].
  destruct (decide (robot_idx = i)) as [Heq | Hne].
  - subst i. apply lookup_lt_Some in Hi as Hlen. rewrite length_insert in Hlen.
    rewrite list_lookup_insert_eq in Hi by done. by simplify_eq.
  - rewrite list_lookup_insert_ne in Hi by done.
    apply (proj1 Htidy). apply list_elem_of_lookup. eauto.
Qed.

Lemma step_keeps (self : SokobanState.t) (robot_idx : nat) (robot_pos : Z * Z)
    (direction : sokoban_direction.t) (a : string) (g : Z) (c : Config)
    (idx : nat) (par : option SokobanState.t) :
  step self robot_idx robot_pos direction = Some (a, g, c) ->
  g = StateSpace.gval self + 1
  /\ same_puzzle self (StateSpace.Build a g par idx c)
  /\ (tidy self -> tidy (StateSpace.Build a g par idx c)).
Proof.
  unfold step. intros Hstep.
  destruct (negb (_in_bounds self (move direction robot_pos))
            || bool_decide (move direction robot_pos ∈ obstacles (StateSpace.config self)))
    eqn:Hblocked; [done |].
  apply orb_false_iff in Hblocked as [Hin Hobs].
  apply negb_false_iff in Hin. apply bool_decide_eq_false in Hobs.
  case_bool_decide as Hbox.
  - destruct (negb (_in_bounds self (move direction (move direction robot_pos)))
              || bool_decide (move direction (move direction robot_pos)
                              ∈ obstacles (StateSpace.config self))
              || bool_decide (move direction (move direction robot_pos)
                              ∈ boxes (StateSpace.config self)))
      eqn:Hdest; [done |].
    apply orb_false_iff in Hdest as [Hdest Hfree].
    apply orb_false_iff in Hdest as [Hdin Hdobs].
    apply negb_false_iff in Hdin.
    apply bool_decide_eq_false in Hdobs. apply bool_decide_eq_false in Hfree.
    simplify_eq. split_and!; [done | |].
    + unfold same_puzzle. simpl. split_and!; try done.
      * by rewrite length_insert.
      * rewrite size_union
          by (apply disjoint_singleton_r; by intros [? _]%elem_of_difference).
        rewrite size_difference by (by apply singleton_subseteq_l).
        rewrite !size_singleton.
        assert (size (boxes (StateSpace.config self)) <> 0)%nat; [| lia].
        intros Hz. apply size_empty_inv in Hz. set_solver.
    + intros Htidy. unfold tidy. simpl. split.
      * intros pos Hpos. rewrite (in_bounds_same self) by done.
        exact (insert_robot_tidy self robot_idx _ pos Htidy Hin Hobs Hpos).
      * intros box Hb. rewrite (in_bounds_same self) by done.
        apply elem_of_union in Hb as [Hb | Hb%elem_of_singleton].
        -- apply (proj2 Htidy). by apply elem_of_difference in Hb as [Hb _].
        -- by subst.
  - simplify_eq. split_and!; [done | |].
    + unfold same_puzzle. simpl. split_and!; try done. by rewrite length_insert.
    + intros Htidy. unfold tidy. simpl. split.
      * intros pos Hpos. rewrite (in_bounds_same self) by done.
        exact (insert_robot_tidy self robot_idx _ pos Htidy Hin Hobs Hpos).
      * intros box Hb. rewrite (in_bounds_same self) by done. by apply (proj2 Htidy).
Qed.

(** *** The successors of a state *)

Lemma length_omap_le {A B : Type} (f : A -> option B) (l : list A) :
  (length (omap f l) <= length l)%nat.
Proof. induction l as [| x l IH]; csimpl; [lia |]. destruct (f x); csimpl; lia. Qed.

Lemma index_imap (par : option SokobanState.t) (ms : list (string * Z * Config)) :
  forall (n : nat),
    StateSpace.index
    <$> imap (fun i '(a, g, c) => StateSpace.Build a g par (n + i) c) ms
    = seq n (length ms).
Proof.
  induction ms as [| [[a g] c] ms IH]; intros n; [done |].
  rewrite imap_cons. csimpl. f_equal; [lia |]. rewrite <- IH. f_equal.
  apply imap_ext. intros i [[a' g'] c'] _. simpl. f_equal. lia.
Qed.

Lemma length_join_imap {A B : Type} (n : nat) (l : list A) :
  forall (f : nat -> A -> list B),
    (forall i x, (length (f i x) <= n)%nat) ->
    (length (mjoin (imap f l)) <= n * length l)%nat.
Proof.
  induction l as [| x l IH]; intros f Hf; [simpl; lia |].
  rewrite imap_cons. simpl. rewrite length_app.
  specialize (IH (f ∘ S) (fun i x => Hf (S i) x)). specialize (Hf 0%nat x). lia.
Qed.

Section Successors.
Variable hash : list (Z * Z) * gset (Z * Z) -> Z.
Local Abbreviation successors := (StateSpace.successors (problem := problem hash)).
Local Abbreviation generated := (Runs.generated (problem := problem hash)).

Lemma successors_elem (self s' : SokobanState.t) (p : Process) :
  s' ∈ (successors self p).1 ->
  exists (robot_idx : nat) (robot_pos : Z * Z) (direction : sokoban_direction.t)
         (a : string) (g : Z) (c : Config) (i : nat),
    robots (StateSpace.config self) !! robot_idx = Some robot_pos
    /\ direction ∈ [UP; RIGHT; DOWN; LEFT]
    /\ step self robot_idx robot_pos direction = Some (a, g, c)
    /\ s' = StateSpace.Build a g (Some self) i c.
Proof.
  unfold StateSpace.successors.
  rewrite (proj1 (RunsTheory.build_successors_spec self (StateSpace.moves self) p)).
  intros Hin. apply elem_of_lookup_imap in Hin as (i & [[a g] c] & -> & Hm).
  apply list_elem_of_lookup_2 in Hm. apply moves_elem in Hm as (idx & pos & dir & ? & ? & ?).
  by exists idx, pos, dir, a, g, c, (StateSpace_n p + i)%nat.
Qed.

(** X14.  Every successor costs one more than its state, has it as
    parent, and is a state of the same puzzle: the same room, storage
    and obstacles, as many robots and as many boxes.  If the robots and
    boxes of the state are within the bounds and off the obstacles, so
    are the successor's. *)
Theorem successor_keeps_puzzle (self s' : SokobanState.t) (p : Process) :
  s' ∈ (successors self p).1 ->
  StateSpace.gval s' = StateSpace.gval self + 1
  /\ StateSpace.parent s' = Some self
  /\ same_puzzle self s'
  /\ (tidy self -> tidy s').
Proof.
  intros (idx & pos & dir & a & g & c & i & _ & _ & Hstep & ->)%successors_elem.
  destruct (step_keeps self idx pos dir a g c i (Some self) Hstep) as (Hg & Hsame & Htidy).
  by split_and!.
Qed.

Lemma direction_unit (direction : sokoban_direction.t) :
  direction ∈ [UP; RIGHT; DOWN; LEFT] ->
  Z.abs (dx direction) + Z.abs (dy direction) = 1.
Proof.
  intros Hd. repeat (apply elem_of_cons in Hd as [-> | Hd]; [done |]).
  by apply elem_of_nil in Hd.
Qed.

Lemma move_neq (direction : sokoban_direction.t) (pos : Z * Z) :
  direction ∈ [UP; RIGHT; DOWN; LEFT] -> move direction pos <> pos.
Proof.
  intros Hd%direction_unit. unfold move. destruct pos as [x y]. simpl.
  intros Heq. injection Heq as Hx Hy. lia.
Qed.

Lemma step_moves (self : SokobanState.t) (robot_idx : nat) (robot_pos : Z * Z)
    (direction : sokoban_direction.t) (a : string) (g : Z) (c : Config) :
  direction ∈ [UP; RIGHT; DOWN; LEFT] ->
  step self robot_idx robot_pos direction = Some (a, g, c) ->
  let new_pos := move direction robot_pos in
  let box_dest := move direction new_pos in
  a = "Move robot " +:+ pretty robot_idx +:+ " " +:+ name direction
  /\ robots c = <[robot_idx := new_pos]> (robots (StateSpace.config self))
  /\ _in_bounds self new_pos = true
  /\ (new_pos ∉ obstacles (StateSpace.config self))
  /\ (new_pos ∉ boxes c)
  /\ storage c = storage (StateSpace.config self)
  /\ ((new_pos ∉ boxes (StateSpace.config self))
      /\ boxes c = boxes (StateSpace.config self)
      \/ new_pos ∈ boxes (StateSpace.config self)
         /\ _in_bounds self box_dest = true
         /\ (box_dest ∉ obstacles (StateSpace.config self))
         /\ (box_dest ∉ boxes (StateSpace.config self))
         /\ boxes c = (boxes (StateSpace.config self) ∖ {[new_pos]}) ∪ {[box_dest]}).
Proof.
  unfold step. intros Hdir Hstep.
  destruct (negb (_in_bounds self (move direction robot_pos))
            || bool_decide (move direction robot_pos ∈ obstacles (StateSpace.config self)))
    eqn:Hblocked; [done |].
  apply orb_false_iff in Hblocked as [Hin Hobs].
  apply negb_false_iff in Hin. apply bool_decide_eq_false in Hobs.
  case_bool_decide as Hbox.
  - destruct (negb (_in_bounds self (move direction (move direction robot_pos)))
              || bool_decide (move direction (move direction robot_pos)
                              ∈ obstacles (StateSpace.config self))
              || bool_decide (move direction (move direction robot_pos)
                              ∈ boxes (StateSpace.config self)))
      eqn:Hdest; [done |].
    apply orb_false_iff in Hdest as [Hdest Hfree].
    apply orb_false_iff in Hdest as [Hdin Hdobs].
    apply negb_false_iff in Hdin.
    apply bool_decide_eq_false in Hdobs. apply bool_decide_eq_false in Hfree.
    simplify_eq. simpl. split_and!; try done.
    + intros [Hb | Hb%elem_of_singleton]%elem_of_union.
      * apply elem_of_difference in Hb as [_ Hb]. by apply Hb, elem_of_singleton.
      * symmetry in Hb. by apply move_neq in Hb.
    + right. by split_and!.
  - simplify_eq. simpl. split_and!; try done. by left.
Qed.

(** X15.  A successor differs from its state by one move: one robot
    has gone one cell up, right, down or left, to a cell within the
    bounds that holds no obstacle and, afterwards, no box.  Either no
    box has moved, or the box on that cell has gone to the next cell in
    the same direction, which is within the bounds and held neither an
    obstacle nor a box.  The action names the robot and the
    direction. *)
Theorem successor_is_one_move (self s' : SokobanState.t) (p : Process) :
  s' ∈ (successors self p).1 ->
  exists (robot_idx : nat) (robot_pos : Z * Z) (direction : sokoban_direction.t),
    let c := StateSpace.config self in
    let c' := StateSpace.config s' in
    let new_pos := move direction robot_pos in
    let box_dest := move direction new_pos in
    robots c !! robot_idx = Some robot_pos
    /\ direction ∈ [UP; RIGHT; DOWN; LEFT]
    /\ StateSpace.action s'
       = "Move robot " +:+ pretty robot_idx +:+ " " +:+ name direction
    /\ robots c' = <[robot_idx := new_pos]> (robots c)
    /\ _in_bounds self new_pos = true
    /\ (new_pos ∉ obstacles c)
    /\ (new_pos ∉ boxes c')
    /\ ((new_pos ∉ boxes c) /\ boxes c' = boxes c
        \/ new_pos ∈ boxes c
           /\ _in_bounds self box_dest = true
           /\ (box_dest ∉ obstacles c)
           /\ (box_dest ∉ boxes c)
           /\ boxes c' = (boxes c ∖ {[new_pos]}) ∪ {[box_dest]}).
Proof.
  intros (idx & pos & dir & a & g & c & i & Hrobot & Hdir & Hstep & ->)%successors_elem.
  exists idx, pos, dir. simpl.
  destruct (step_moves self idx pos dir a g c Hdir Hstep)
    as (Ha & Hr & Hin & Hobs & Hfree & _ & Hboxes).
  by split_and!.
Qed.

(** X16.  A state has at most four successors for each robot, and the
    call numbers them consecutively from the counter of states, which
    it advances by their number. *)
Theorem successors_count (self : SokobanState.t) (p : Process) :
  (length (successors self p).1
   <= 4 * length (robots (StateSpace.config self)))%nat
  /\ StateSpace.index <$> (successors self p).1
     = seq (StateSpace_n p) (length (successors self p).1)
  /\ StateSpace_n (successors self p).2
     = (StateSpace_n p + length (successors self p).1)%nat.
Proof.
  unfold StateSpace.successors. change (StateSpace.moves self) with (moves self).
  destruct (RunsTheory.build_successors_spec self (moves self) p) as [-> ->].
  rewrite length_imap. split_and!; [| | done].
  - change (StateSpace.moves self) with (moves self). unfold moves.
    apply length_join_imap. intros i pos.
    apply (length_omap_le (step self i pos) [UP; RIGHT; DOWN; LEFT]).
  - apply index_imap.
Qed.

Lemma same_puzzle_refl (self : SokobanState.t) : same_puzzle self self.
Proof. unfold same_puzzle. by split_and!. Qed.

Lemma same_puzzle_trans (s1 s2 s3 : SokobanState.t) :
  same_puzzle s1 s2 -> same_puzzle s2 s3 -> same_puzzle s1 s3.
Proof.
  unfold same_puzzle. intros (? & ? & ? & ? & ? & ?) (? & ? & ? & ? & ? & ?).
  split_and!; congruence.
Qed.

(** X17.  Every state generated from an initial state is a state of
    the same puzzle, its path cost exceeds that of the initial state
    by the number of moves that lead to it, and if the initial state has
    its robots and boxes within the bounds and off the obstacles, so has
    every generated state. *)
Theorem generated_keeps_puzzle (init_state s : SokobanState.t) :
  generated init_state s ->
  same_puzzle init_state s
  /\ (tidy init_state -> tidy s)
  /\ StateSpace.gval s - StateSpace.gval init_state
     = Z.of_nat (length (StateSpace.ancestors s))
       - Z.of_nat (length (StateSpace.ancestors init_state)).
Proof.
  induction 1 as [| s s' p _ (IHsame & IHtidy & IHcost) Hin].
  - split_and!; [apply same_puzzle_refl | done | lia].
  - apply successors_elem in Hin as (idx & pos & dir & a & g & c & i & _ & _ & Hstep & ->).
    destruct (step_keeps s idx pos dir a g c i (Some s) Hstep) as (Hg & Hsame & Htidy).
    split_and!.
    + by eapply same_puzzle_trans.
    + auto.
    + simpl. lia.
Qed.

End Successors.

(** *** The Manhattan distance heuristic *)

Section Heuristic.
Import Distance.

Lemma foldl_min_spec (values : list Z) :
  forall (v : Z),
    (foldl Z.min v values = v \/ In (foldl Z.min v values) values)
    /\ foldl Z.min v values <= v
    /\ (forall x, In x values -> foldl Z.min v values <= x).
Proof.
  induction values as [| w values IH]; intros v; simpl.
  - split_and!; [by left | lia | done].
  - destruct (IH (Z.min v w)) as (Hin & Hle & Hall). split_and!.
    + destruct Hin as [Heq | Hin]; [| by right; right].
      rewrite Heq. destruct (Z.min_spec v w) as [[_ ->] | [_ ->]]; [by left | by right; left].
    + lia.
    + intros x [<- | Hx]; [lia | by apply Hall].
Qed.

Lemma min_of_spec (values : list Z) :
  values <> [] ->
  exists m, min_of values = Ok m /\ In m values /\ (forall x, In x values -> m <= x).
Proof.
  destruct values as [| v values]; [done |]. intros _. simpl.
  destruct (foldl_min_spec values v) as (Hin & Hle & Hall).
  eexists. split_and!; [done | |].
  - destruct Hin as [-> | Hin]; [by left | by right].
  - intros x [<- | Hx]; [done | by apply Hall].
Qed.

Lemma nearest_spec (state : SokobanState.t) (box : Z * Z) :
  storage (StateSpace.config state) <> ∅ ->
  closest_dist state box = Ok (nearest state box)
  /\ (exists s, s ∈ storage (StateSpace.config state) /\ nearest state box = manhattan box s)
  /\ (forall s, s ∈ storage (StateSpace.config state) -> nearest state box <= manhattan box s).
Proof.
  intros Hne. unfold nearest, closest_dist.
  destruct (min_of_spec (map (fun s => Z.abs (box.1 - s.1) + Z.abs (box.2 - s.2))
                             (elements (storage (StateSpace.config state)))))
    as (m & -> & Hin & Hall).
  { intros Hnil%map_eq_nil. by apply elements_empty_inv, leibniz_equiv in Hnil. }
  split_and!; [done | |].
  - apply in_map_iff in Hin as (s & <- & Hs). exists s. split; [| done].
    by apply elem_of_elements, list_elem_of_In.
  - intros s Hs. apply Hall. apply in_map_iff. exists s. split; [done |].
    by apply list_elem_of_In, elem_of_elements.
Qed.

Lemma nearest_nonneg (state : SokobanState.t) (box : Z * Z) : 0 <= nearest state box.
Proof.
  unfold nearest, closest_dist.
  destruct (decide (map (fun s => Z.abs (box.1 - s.1) + Z.abs (box.2 - s.2))
                        (elements (storage (StateSpace.config state))) = [])) as [-> | Hne];
    [done |].
  destruct (min_of_spec _ Hne) as (m & -> & Hin & _).
  apply in_map_iff in Hin as (s & <- & _). lia.
Qed.

Lemma sum_nonneg (state : SokobanState.t) (cells : list (Z * Z)) :
  0 <= foldr Z.add 0 (map (nearest state) cells).
Proof.
  induction cells as [| box rest IH]; simpl; [done |].
  pose proof (nearest_nonneg state box). lia.
Qed.

Lemma sum_closest_total (state : SokobanState.t) (unstored_boxes : list (Z * Z)) :
  storage (StateSpace.config state) <> ∅ ->
  forall (manhattan_sum : Z),
    0 <= manhattan_sum ->
    manhattan_sum + foldr Z.add 0 (map (nearest state) unstored_boxes) <= 2 ^ 53 ->
    sum_closest state unstored_boxes manhattan_sum
    = Some (Ok (manhattan_sum + foldr Z.add 0 (map (nearest state) unstored_boxes))).
Proof.
  intros Hne. induction unstored_boxes as [| box rest IH]; intros acc Hacc Hsum; simpl.
  - do 2 f_equal. lia.
  - simpl in Hsum. rewrite (proj1 (nearest_spec state box Hne)).
    pose proof (nearest_nonneg state box). pose proof (sum_nonneg state rest).
    unfold float_add. rewrite !bool_decide_eq_true_2 by lia. simpl.
    rewrite IH by lia. do 2 f_equal. lia.
Qed.

Lemma heur_manhattan_distance_total (state : SokobanState.t) :
  storage (StateSpace.config state) <> ∅ ->
  total (nearest state) (unstored state) <= 2 ^ 53 ->
  heur_manhattan_distance state = Some (Ok (total (nearest state) (unstored state))).
Proof.
  intros Hne Hle. unfold heur_manhattan_distance. by rewrite sum_closest_total.
Qed.

Lemma sum_Permutation (l k : list Z) :
  l ≡ₚ k -> foldr Z.add 0 l = foldr Z.add 0 k.
Proof. induction 1; simpl; lia. Qed.

Lemma total_empty (f : Z * Z -> Z) : total f ∅ = 0.
Proof. unfold total. by rewrite elements_empty. Qed.

Lemma total_union_singleton (f : Z * Z -> Z) (x : Z * Z) (cells : gset (Z * Z)) :
  x ∉ cells -> total f ({[x]} ∪ cells) = f x + total f cells.
Proof.
  intros Hx. unfold total.
  change (f x + foldr Z.add 0 (map f (elements cells)))
    with (foldr Z.add 0 (map f (x :: elements cells))).
  apply sum_Permutation. apply Permutation_map. by apply elements_union_singleton.
Qed.

Lemma total_ext (f g : Z * Z -> Z) (cells : gset (Z * Z)) :
  (forall x, f x = g x) -> total f cells = total g cells.
Proof.
  intros Hfg. unfold total. f_equal. apply map_ext. intros x. apply Hfg.
Qed.

Lemma total_ge_size (f : Z * Z -> Z) (cells : gset (Z * Z)) :
  (forall x, x ∈ cells -> 1 <= f x) -> Z.of_nat (size cells) <= total f cells.
Proof.
  induction cells as [| x cells Hx IH] using set_ind_L; intros Hf.
  - by rewrite total_empty, size_empty.
  - rewrite total_union_singleton by done.
    rewrite size_union by (by apply disjoint_singleton_l). rewrite size_singleton.
    assert (1 <= f x) by (apply Hf; by apply elem_of_union_l, elem_of_singleton).
    assert (Z.of_nat (size cells) <= total f cells)
      by (apply IH; intros y Hy; apply Hf; by apply elem_of_union_r).
    lia.
Qed.

Lemma manhattan_self (a : Z * Z) : manhattan a a = 0.
Proof. unfold manhattan. lia. Qed.

Lemma manhattan_pos (a b : Z * Z) : a <> b -> 1 <= manhattan a b.
Proof.
  unfold manhattan. destruct a as [x y], b as [u v]. simpl. intros Hne.
  destruct (decide (x = u)) as [-> | ?]; [| lia].
  destruct (decide (y = v)) as [-> | ?]; [done | lia].
Qed.

Lemma manhattan_move (direction : sokoban_direction.t) (a s : Z * Z) :
  direction ∈ [UP; RIGHT; DOWN; LEFT] ->
  manhattan (move direction a) s <= manhattan a s + 1
  /\ manhattan a s <= manhattan (move direction a) s + 1.
Proof.
  intros Hd. unfold manhattan, move. simpl.
  repeat (apply elem_of_cons in Hd as [-> | Hd]; [simpl; lia |]).
  by apply elem_of_nil in Hd.
Qed.

Lemma nearest_unstored (state : SokobanState.t) (box : Z * Z) :
  storage (StateSpace.config state) <> ∅ ->
  box ∉ storage (StateSpace.config state) ->
  1 <= nearest state box.
Proof.
  intros Hne Hbox. destruct (nearest_spec state box Hne) as (_ & (s & Hs & ->) & _).
  apply manhattan_pos. by intros ->.
Qed.

Lemma nearest_stored (state : SokobanState.t) (box : Z * Z) :
  box ∈ storage (StateSpace.config state) ->
  nearest state box = 0.
Proof.
  intros Hbox.
  assert (storage (StateSpace.config state) <> ∅) as Hne by (intros Heq; by rewrite Heq in Hbox).
  destruct (nearest_spec state box Hne) as (_ & (s & Hs & Heq) & Hall).
  specialize (Hall box Hbox). rewrite manhattan_self in Hall.
  assert (0 <= manhattan box s) by (unfold manhattan; lia). lia.
Qed.

Lemma nearest_move (state : SokobanState.t) (direction : sokoban_direction.t) (a : Z * Z) :
  storage (StateSpace.config state) <> ∅ ->
  direction ∈ [UP; RIGHT; DOWN; LEFT] ->
  nearest state (move direction a) <= nearest state a + 1
  /\ nearest state a <= nearest state (move direction a) + 1.
Proof.
  intros Hne Hd.
  destruct (nearest_spec state a Hne) as (_ & (s & Hs & Heq) & Hall).
  destruct (nearest_spec state (move direction a) Hne) as (_ & (s' & Hs' & Heq') & Hall').
  specialize (Hall s' Hs'). specialize (Hall' s Hs).
  pose proof (manhattan_move direction a s Hd). pose proof (manhattan_move direction a s' Hd).
  lia.
Qed.

Lemma nearest_same_storage (state other : SokobanState.t) (box : Z * Z) :
  storage (StateSpace.config other) = storage (StateSpace.config state) ->
  nearest other box = nearest state box.
Proof. unfold nearest, closest_dist. by intros ->. Qed.

Lemma goal_unstored (state : SokobanState.t) :
  sokoban_goal_state state = true <-> unstored state = ∅.
Proof.
  unfold sokoban_goal_state, unstored. rewrite forallb_forall. split.
  - intros Hall. apply set_eq. intros box. split; [| by intros ?%elem_of_empty].
    intros [Hbox Hst]%elem_of_difference. exfalso. apply Hst.
    eapply bool_decide_eq_true. apply Hall. by apply list_elem_of_In, elem_of_elements.
  - intros Hempty box Hbox. apply bool_decide_eq_true.
    apply list_elem_of_In, elem_of_elements in Hbox.
    destruct (decide (box ∈ storage (StateSpace.config state))) as [| Hno]; [done |].
    assert (box ∈ boxes (StateSpace.config state) ∖ storage (StateSpace.config state)) as Hin
      by (by apply elem_of_difference).
    rewrite Hempty in Hin. by apply elem_of_empty in Hin.
Qed.

Lemma total_le_size (f : Z * Z -> Z) (bound : Z) (cells : gset (Z * Z)) :
  (forall x, x ∈ cells -> f x <= bound) -> total f cells <= Z.of_nat (size cells) * bound.
Proof.
  induction cells as [| x cells Hx IH] using set_ind_L; intros Hf.
  - by rewrite total_empty, size_empty.
  - rewrite total_union_singleton by done.
    rewrite size_union by (by apply disjoint_singleton_l). rewrite size_singleton.
    assert (f x <= bound) by (apply Hf; by apply elem_of_union_l, elem_of_singleton).
    assert (total f cells <= Z.of_nat (size cells) * bound)
      by (apply IH; intros y Hy; apply Hf; by apply elem_of_union_r).
    lia.
Qed.

Lemma manhattan_in_bounds (state : SokobanState.t) (a b : Z * Z) :
  _in_bounds state a = true -> _in_bounds state b = true ->
  manhattan a b <= width (StateSpace.config state) + height (StateSpace.config state).
Proof.
  unfold _in_bounds, manhattan. destruct a as [x y], b as [u v]. simpl.
  intros [Hx Hy]%andb_true_iff [Hu Hv]%andb_true_iff.
  apply bool_decide_eq_true in Hx, Hy, Hu, Hv. lia.
Qed.

Lemma small_room_total (state : SokobanState.t) :
  storage (StateSpace.config state) <> ∅ ->
  small_room state ->
  total (nearest state) (unstored state) <= 2 ^ 53.
Proof.
  intros Hne [Hin Hsmall].
  assert (exists s, s ∈ storage (StateSpace.config state)) as [s Hs]
    by (by apply set_choose_L).
  assert (0 <= width (StateSpace.config state) + height (StateSpace.config state)) as Hwh.
  { assert (_in_bounds state s = true) as Hb by (by apply Hin, elem_of_union_r).
    unfold _in_bounds in Hb. destruct s as [x y].
    apply andb_true_iff in Hb as [Hx Hy]. apply bool_decide_eq_true in Hx, Hy. lia. }
  etrans; [apply (total_le_size _ (width (StateSpace.config state)
                                   + height (StateSpace.config state))) |].
  - intros box [Hbox _]%elem_of_difference.
    etrans; [apply (proj2 (proj2 (nearest_spec state box Hne)) s Hs) |].
    apply manhattan_in_bounds; apply Hin; [by apply elem_of_union_l | by apply elem_of_union_r].
  - etrans; [| exact Hsmall]. apply Z.mul_le_mono_nonneg_r; [done |].
    apply inj_le. apply subseteq_size. unfold unstored.
    intros x [Hx _]%elem_of_difference. done.
Qed.

(** X18.  At a goal state [heur_manhattan_distance] returns [0],
    whatever the storage. *)
Theorem heur_manhattan_distance_at_goal (state : SokobanState.t) :
  sokoban_goal_state state = true ->
  heur_manhattan_distance state = Some (Ok 0).
Proof.
  intros Hgoal%goal_unstored. unfold heur_manhattan_distance.
  change (boxes (StateSpace.config state) ∖ storage (StateSpace.config state))
    with (unstored state).
  by rewrite Hgoal, elements_empty.
Qed.

(** X19.  With no storage point and a box in the room,
    [heur_manhattan_distance] raises [ValueError]: [min] is given an
    empty sequence. *)
Theorem heur_manhattan_distance_without_storage (state : SokobanState.t) :
  storage (StateSpace.config state) = ∅ ->
  boxes (StateSpace.config state) <> ∅ ->
  heur_manhattan_distance state = Some (Raise ValueError).
Proof.
  intros Hst Hboxes. unfold heur_manhattan_distance.
  destruct (elements (boxes (StateSpace.config state) ∖ storage (StateSpace.config state)))
    as [| box rest] eqn:Helems.
  - apply elements_empty_inv, leibniz_equiv in Helems. rewrite Hst in Helems.
    rewrite difference_empty_L in Helems. done.
  - simpl. unfold closest_dist. by rewrite Hst, elements_empty.
Qed.

(** X20.  In a small room with a storage point,
    [heur_manhattan_distance] returns a number that is at least the
    number of boxes not on storage, and that is [0] exactly at the goal
    states. *)
Theorem heur_manhattan_distance_counts_unstored (state : SokobanState.t) :
  storage (StateSpace.config state) <> ∅ ->
  small_room state ->
  exists h,
    heur_manhattan_distance state = Some (Ok h)
    /\ Z.of_nat (size (unstored state)) <= h
    /\ (h = 0 <-> sokoban_goal_state state = true).
Proof.
  intros Hne Hsmall%small_room_total; [| done].
  exists (total (nearest state) (unstored state)).
  assert (Z.of_nat (size (unstored state)) <= total (nearest state) (unstored state)) as Hle.
  { apply total_ge_size. intros box [_ Hbox]%elem_of_difference.
    by apply nearest_unstored. }
  split_and!; [by apply heur_manhattan_distance_total | done |].
  rewrite goal_unstored. split.
  - intros Hz. apply leibniz_equiv, size_empty_inv. lia.
  - intros ->. apply total_empty.
Qed.

End Heuristic.

Section Consistency.
Import Distance.
Variable hash : list (Z * Z) * gset (Z * Z) -> Z.
Local Abbreviation successors := (StateSpace.successors (problem := problem hash)).

Lemma unstored_split (boxes' storage' : gset (Z * Z)) (box : Z * Z) :
  box ∈ boxes' ->
  boxes' ∖ storage'
  = if decide (box ∈ storage') then (boxes' ∖ {[box]}) ∖ storage'
    else {[box]} ∪ ((boxes' ∖ {[box]}) ∖ storage').
Proof.
  intros Hbox. destruct (decide (box ∈ storage')) as [Hst | Hst]; apply set_eq; intros x.
  - rewrite !elem_of_difference, elem_of_singleton. split; [| tauto].
    intros [Hx Hno]. split_and!; [done | by intros -> | done].
  - rewrite elem_of_union, !elem_of_difference, elem_of_singleton. split.
    + intros [Hx Hno]. destruct (decide (x = box)); [by left | by right].
    + intros [-> | [[Hx _] Hno]]; by split.
Qed.

(** X21.  In a small room with a storage point, the values of
    [heur_manhattan_distance] at a state and at any of its successors
    differ by at most one, the cost of the move. *)
Theorem heur_manhattan_distance_consistent (self s' : SokobanState.t) (p : Process) :
  storage (StateSpace.config self) <> ∅ ->
  small_room self ->
  s' ∈ (successors self p).1 ->
  exists h h',
    heur_manhattan_distance self = Some (Ok h)
    /\ heur_manhattan_distance s' = Some (Ok h')
    /\ h <= h' + 1
    /\ h' <= h + 1.
Proof.
  intros Hne Hsmall (idx & pos & dir & a & g & c & i & _ & Hdir & Hstep & ->)%successors_elem.
  destruct (step_moves self idx pos dir a g c Hdir Hstep)
    as (_ & _ & _ & _ & _ & Hst & Hboxes).
  destruct (step_keeps self idx pos dir a g c i (Some self) Hstep)
    as (_ & (Hw & Hh & _ & _ & _ & Hsize) & _).
  set (s' := StateSpace.Build a g (Some self) i c) in *.
  assert (storage (StateSpace.config s') <> ∅) as Hne' by (simpl; by rewrite Hst).
  assert (small_room s') as Hsmall'.
  { destruct Hsmall as [Hin Hle]. split; [| by rewrite Hw, Hh, Hsize].
    intros cell Hcell. rewrite (in_bounds_same self) by done. simpl in Hcell.
    rewrite Hst in Hcell. apply elem_of_union in Hcell as [Hcell | Hcell];
      [| by apply Hin, elem_of_union_r].
    destruct Hboxes as [[_ Hb] | (_ & Hdin & _ & _ & Hb)]; rewrite Hb in Hcell.
    - by apply Hin, elem_of_union_l.
    - apply elem_of_union in Hcell as [[Hcell _]%elem_of_difference | ->%elem_of_singleton];
        [by apply Hin, elem_of_union_l | done]. }
  exists (total (nearest self) (unstored self)), (total (nearest s') (unstored s')).
  split; [apply heur_manhattan_distance_total; [done | by apply small_room_total] |].
  split; [apply heur_manhattan_distance_total; [done | by apply small_room_total] |].
  rewrite (total_ext (nearest s') (nearest self))
    by (intros box; by apply nearest_same_storage).
  unfold unstored. simpl. rewrite Hst.
  destruct Hboxes as [[_ ->] | (Hbox & _ & _ & Hfree & ->)]; [lia |].
  set (new_pos := move dir pos) in *. set (box_dest := move dir new_pos) in *.
  set (rest := (boxes (StateSpace.config self) ∖ {[new_pos]})
               ∖ storage (StateSpace.config self)).
  assert (new_pos ∉ rest) as Hnew
    by (intros [[_ Hn]%elem_of_difference _]%elem_of_difference;
        by apply Hn, elem_of_singleton).
  assert (box_dest ∉ rest) as Hdest
    by (by intros [[Hd _]%elem_of_difference _]%elem_of_difference).
  rewrite (unstored_split (boxes (StateSpace.config self)) _ new_pos Hbox).
  rewrite (unstored_split ((boxes (StateSpace.config self) ∖ {[new_pos]}) ∪ {[box_dest]})
             _ box_dest) by (by apply elem_of_union_r, elem_of_singleton).
  assert ((((boxes (StateSpace.config self) ∖ {[new_pos]}) ∪ {[box_dest]}) ∖ {[box_dest]})
          ∖ storage (StateSpace.config self) = rest) as ->.
  { apply set_eq. intros x. unfold rest.
    rewrite !elem_of_difference, elem_of_union, !elem_of_difference, !elem_of_singleton.
    split; [tauto |]. intros [[Hx Hxn] Hxs]. split_and!; [by left | | done].
    intros ->. done. }
  fold rest.
  destruct (nearest_move self dir new_pos Hne Hdir) as [Hup Hdown]. fold box_dest in Hup, Hdown.
  assert (0 <= total (nearest self) rest) as Hrest.
  { etrans; [apply Nat2Z.is_nonneg |]. apply total_ge_size.
    intros box [_ Hb]%elem_of_difference. by apply nearest_unstored. }
  destruct (decide (new_pos ∈ _)) as [Hns | Hns], (decide (box_dest ∈ _)) as [Hds | Hds];
    rewrite ?total_union_singleton by done;
    try (pose proof (nearest_stored self new_pos Hns));
    try (pose proof (nearest_stored self box_dest Hds));
    try (pose proof (nearest_unstored self new_pos Hne Hns));
    try (pose proof (nearest_unstored self box_dest Hne Hds));
    lia.
Qed.

End Consistency.

End SokobanTheory.


(** ** Path cycles *)

Module PathTheory.
Import Runs.

Section PathTheory.
Context {Config Key : Type} `{Countable Key} {problem : StateSpace.Problem Config Key}.

Lemma identities_child (a : string) (g : Z) (q : StateSpace.t Config) (i : nat) (c : Config) :
  identities (StateSpace.Build a g (Some q) i c)
  = StateSpace.hashable_state (StateSpace.Build a g (Some q) i c) :: identities q.
Proof. done. Qed.

Lemma has_path_cycle_false (self : StateSpace.t Config) :
  StateSpace.has_path_cycle self = false
  <-> StateSpace.hashable_state self
      ∉ StateSpace.hashable_state <$> StateSpace.ancestors self.
Proof.
  rewrite <- not_true_iff_false, StateSpaceTheory.has_path_cycle_true. split.
  - intros Hno (a & Heq & Ha)%list_elem_of_fmap. apply Hno. by exists a.
  - intros Hno (a & Ha & Heq). apply Hno. apply list_elem_of_fmap. by exists a.
Qed.

(** X22.  [has_path_cycle] is false for a state without parent and,
    for any state, exactly when no state before it on its path has its
    identity; so the identities along a path are pairwise different
    exactly when [has_path_cycle] is false at every state of the
    path. *)
Theorem has_path_cycle_along_path (self : StateSpace.t Config) :
  (StateSpace.parent self = None -> StateSpace.has_path_cycle self = false)
  /\ (StateSpace.has_path_cycle self = false
      <-> StateSpace.hashable_state self
          ∉ StateSpace.hashable_state <$> StateSpace.ancestors self)
  /\ (NoDup (identities self)
      <-> Forall (fun s => StateSpace.has_path_cycle s = false)
                 (self :: StateSpace.ancestors self)).
Proof.
  split_and!.
  - unfold StateSpace.has_path_cycle. by intros ->.
  - apply has_path_cycle_false.
  - induction self as [a g i c | a g q i c IH] using StateSpace.parent_ind.
    + split.
      * intros _. by repeat constructor.
      * intros _. apply NoDup_singleton.
    + rewrite identities_child, NoDup_cons, IH.
      change (StateSpace.ancestors (StateSpace.Build a g (Some q) i c))
        with (q :: StateSpace.ancestors q).
      rewrite (Forall_cons _ (StateSpace.Build a g (Some q) i c)).
      rewrite has_path_cycle_false.
      change (StateSpace.ancestors (StateSpace.Build a g (Some q) i c))
        with (q :: StateSpace.ancestors q).
      done.
Qed.

End PathTheory.
End PathTheory.


(** ** The properties at the runs and the room of [Scenarios] *)

Module ScenariosTheory.
Import SearchEngine Runs Frontier Heap Reporting Examples Scenarios.
Import SokobanState solution Distance.

Lemma search_returns_generated_goal_witness :
  reaches 2 (found_of bfs_run) = true /\ generated start (found_of bfs_run).
Proof.
  apply (RunsTheory.search_returns_generated_goal (made "breadth_first" "full")
           (engine_of bfs_to_end) (engine_after bfs_run) start (found_of bfs_run)
           (reaches 2) _zero_hfn _fval_function (built steady 0) (process_of bfs_to_end)
           (process_after bfs_run) 10 None None (stats_of bfs_run)).
  - reflexivity.
  - by vm_compute.
Defined.

Lemma path_checking_keeps_paths_acyclic_witness :
  every_open (fun s => NoDup (identities s))
    (engine_of (search_rounds 3 (engine_of dfs_to_end) None None (process_of dfs_to_end)))
  /\ (forall o node,
        o ∈ log_of (search_rounds 3 (engine_of dfs_to_end) None None (process_of dfs_to_end)) ->
        outcome_node o = Some node ->
        NoDup (identities (SearchNode.state node))).
Proof.
  apply (RunsTheory.path_checking_keeps_paths_acyclic (made "depth_first" "path")
           (engine_of dfs_to_end) _ start (reaches 2) _zero_hfn _fval_function
           (built steady 0) (process_of dfs_to_end)
           (process_of
              (search_rounds 3 (engine_of dfs_to_end) None None (process_of dfs_to_end)))
           3 None None).
  - reflexivity.
  - apply NoDup_singleton.
  - reflexivity.
  - by vm_compute.
Defined.


Lemma first_search_statistics_add_up_witness :
  SearchStatistics.states_generated (stats_of bfs_run)
  = (SearchStatistics.states_expanded (stats_of bfs_run)
     + SearchStatistics.states_pruned_cycles (stats_of bfs_run)
     + SearchStatistics.states_pruned_cost (stats_of bfs_run))%nat.
Proof.
  apply (RunsTheory.first_search_statistics_add_up "breadth_first" "full"
           (made "breadth_first" "full") (engine_of bfs_to_end) (engine_after bfs_run) start
           (reaches 2) _zero_hfn _fval_function (built steady 0) (process_of bfs_to_end)
           (process_after bfs_run) 10 None None (Some (found_of bfs_run)) (stats_of bfs_run)).
  - reflexivity.
  - reflexivity.
  - by vm_compute.
Defined.

Lemma pruned_counts_carry_over_witness :
  (n_cc_pruned (engine_after bfs_run)
   <= SearchStatistics.states_pruned_cycles (stats_of bfs_again_run))%nat
  /\ (n_cost_pruned (engine_after bfs_run)
      <= SearchStatistics.states_pruned_cost (stats_of bfs_again_run))%nat
  /\ (SearchStatistics.states_generated (stats_of bfs_again_run)
      + n_cc_pruned (engine_after bfs_run)
      + n_cost_pruned (engine_after bfs_run)
      = SearchStatistics.states_expanded (stats_of bfs_again_run)
        + SearchStatistics.states_pruned_cycles (stats_of bfs_again_run)
        + SearchStatistics.states_pruned_cost (stats_of bfs_again_run))%nat.
Proof.
  apply (RunsTheory.pruned_counts_carry_over (engine_after bfs_run)
           (engine_of bfs_again) (engine_after bfs_again_run) start
           (reaches 2) _zero_hfn _fval_function (process_after bfs_run)
           (process_of bfs_again) (process_after bfs_again_run) 10 None None
           (Some (found_of bfs_again_run)) (stats_of bfs_again_run)).
  - by vm_compute.
  - by vm_compute.
Defined.

Lemma dictionary_untouched_without_full_checking_witness :
  path_to_gval (engine_after plain_run) = path_to_gval (made "breadth_first" "none")
  /\ (cc (made "breadth_first" "none") = _CC_NONE ->
      SearchStatistics.states_pruned_cycles (stats_of plain_run)
      = n_cc_pruned (made "breadth_first" "none")).
Proof.
  apply (RunsTheory.dictionary_untouched_without_full_checking (made "breadth_first" "none")
           (engine_of plain_to_end) (engine_after plain_run) start
           (reaches 2) _zero_hfn _fval_function (built steady 0) (process_of plain_to_end)
           (process_after plain_run) 10 None None (Some (found_of plain_run))
           (stats_of plain_run)).
  - by vm_compute.
  - reflexivity.
  - by vm_compute.
Defined.

Lemma Zltb_strict_weak : strict_weak Z.ltb.
Proof.
  split.
  - intros a. apply Z.ltb_irrefl.
  - intros a b c Hab%Z.ltb_lt Hbc%Z.ltb_lt. apply Z.ltb_lt. lia.
  - intros a b c Hba%Z.ltb_ge Hcb%Z.ltb_ge. apply Z.ltb_ge. lia.
Qed.

Lemma is_heap_132 : is_heap Z.ltb [1; 3; 2].
Proof.
  intros i x y Hi Hx Hy.
  destruct i as [| [| [| i]]]; [lia | | | done]; simpl in Hx, Hy;
    injection Hx as <-; injection Hy as <-; reflexivity.
Qed.

Lemma heappush_heappop_spec_witness :
  (forall item,
      is_heap Z.ltb (heapq.heappush Z.ltb [1; 3; 2] item)
      /\ heapq.heappush Z.ltb [1; 3; 2] item ≡ₚ item :: [1; 3; 2])
  /\ (forall item rest,
        heapq.heappop Z.ltb [1; 3; 2] = Some (item, rest) ->
        is_heap Z.ltb rest /\ [1; 3; 2] ≡ₚ item :: rest
        /\ forall x, x ∈ [1; 3; 2] -> Z.ltb x item = false).
Proof.
  apply (HeapTheory.heappush_heappop_spec Z.ltb Zltb_strict_weak [1; 3; 2]).
  exact is_heap_132.
Defined.

Lemma stack_and_queue_order_witness :
  (exists c,
      insert_all (OpenNodeCollection.__init__ _DEPTH_FIRST ticking).1 three_nodes ticking
      = Ok c
      /\ extract_all 3 c ticking = Ok (reverse three_nodes))
  /\ (exists c,
        insert_all (OpenNodeCollection.__init__ _BREADTH_FIRST ticking).1 three_nodes ticking
        = Ok c
        /\ extract_all 3 c ticking = Ok three_nodes).
Proof.
  apply (FrontierTheory.stack_and_queue_order three_nodes 3 ticking ticking).
  simpl. lia.
Defined.

Lemma extract_from_empty_witness :
  OpenNodeCollection.is_empty (OpenNodeCollection.Build (Config := nat) [] _ASTAR) = Ok true
  /\ OpenNodeCollection.extract (OpenNodeCollection.Build (Config := nat) [] _ASTAR) ticking
     = Raise IndexError.
Proof.
  apply (FrontierTheory.extract_from_empty _ASTAR ticking). reflexivity.
Defined.

Lemma priority_queue_order_witness :
  exists (c : OpenNodeCollection.t nat) (out : list (SearchNode.t nat)),
    insert_all (OpenNodeCollection.__init__ _ASTAR ticking).1 three_nodes
      (OpenNodeCollection.__init__ (Config := nat) _ASTAR ticking).2
    = Ok c
    /\ extract_all 3 c (OpenNodeCollection.__init__ (Config := nat) _ASTAR ticking).2 = Ok out
    /\ out ≡ₚ three_nodes
    /\ (_ASTAR = _UCS ->
        StronglySorted (fun a b => SearchNode.gval a <= SearchNode.gval b) out)
    /\ (_ASTAR = _BEST_FIRST ->
        StronglySorted (fun a b => SearchNode.hval a <= SearchNode.hval b) out)
    /\ (_ASTAR = _ASTAR ->
        StronglySorted
          (fun a b => SearchNode.gval a + SearchNode.hval a
                      <= SearchNode.gval b + SearchNode.hval b) out)
    /\ (_ASTAR = _CUSTOM ->
        StronglySorted
          (fun a b => SearchNode.fval (SearchNode.fval_function a) a
                      <= SearchNode.fval (SearchNode.fval_function b) b) out).
Proof.
  apply (FrontierTheory.priority_queue_order _ASTAR three_nodes 3 ticking).
  - reflexivity.
  - simpl. lia.
Defined.

Lemma get_strategy_reports_names_witness :
  get_strategy (made "depth_first" "default")
  = Ok ("depth_first" +:+ " with "
        +:+ (if bool_decide ("default" = _CC_DEFAULT_STR) then
               if bool_decide ("depth_first" = _DEPTH_FIRST_STR) then _CC_PATH_STR
               else _CC_FULL_STR
             else "default")
        +:+ " cycle checking").
Proof.
  apply (ReportingTheory.get_strategy_reports_names "depth_first" "default"
           (made "depth_first" "default")).
  reflexivity.
Defined.

Lemma pushed_successor :
  pushed ∈ (StateSpace.successors (problem := problem toy_hash) room after_room).1.
Proof. vm_compute. constructor. Qed.

Lemma room_small : small_room room.
Proof.
  split.
  - intros cell Hcell.
    change (cell ∈ ({[ (1, 0) ]} : gset (Z * Z)) ∪ {[ (2, 0) ]}) in Hcell.
    apply elem_of_union in Hcell as [Hcell | Hcell];
      apply elem_of_singleton in Hcell; subst cell; reflexivity.
  - by vm_compute.
Qed.

Lemma room_storage : storage (StateSpace.config room) <> ∅.
Proof. intros Hempty. by vm_compute in Hempty. Qed.

Lemma successor_keeps_puzzle_witness :
  StateSpace.gval pushed = StateSpace.gval room + 1
  /\ StateSpace.parent pushed = Some room
  /\ same_puzzle room pushed
  /\ (tidy room -> tidy pushed).
Proof.
  apply (SokobanTheory.successor_keeps_puzzle toy_hash room pushed after_room).
  exact pushed_successor.
Defined.

Lemma successor_is_one_move_witness :
  exists (robot_idx : nat) (robot_pos : Z * Z) (direction : sokoban_direction.t),
    let c := StateSpace.config room in
    let c' := StateSpace.config pushed in
    let new_pos := sokoban_direction.move direction robot_pos in
    let box_dest := sokoban_direction.move direction new_pos in
    robots c !! robot_idx = Some robot_pos
    /\ direction ∈ [sokoban_direction.UP; sokoban_direction.RIGHT;
                    sokoban_direction.DOWN; sokoban_direction.LEFT]
    /\ StateSpace.action pushed
       = "Move robot " +:+ pretty robot_idx +:+ " " +:+ sokoban_direction.name direction
    /\ robots c' = <[robot_idx := new_pos]> (robots c)
    /\ _in_bounds room new_pos = true
    /\ (new_pos ∉ obstacles c)
    /\ (new_pos ∉ boxes c')
    /\ ((new_pos ∉ boxes c) /\ boxes c' = boxes c
        \/ new_pos ∈ boxes c
           /\ _in_bounds room box_dest = true
           /\ (box_dest ∉ obstacles c)
           /\ (box_dest ∉ boxes c)
           /\ boxes c' = (boxes c ∖ {[new_pos]}) ∪ {[box_dest]}).
Proof.
  apply (SokobanTheory.successor_is_one_move toy_hash room pushed after_room).
  exact pushed_successor.
Defined.

Lemma generated_keeps_puzzle_witness :
  same_puzzle room pushed
  /\ (tidy room -> tidy pushed)
  /\ StateSpace.gval pushed - StateSpace.gval room
     = Z.of_nat (length (StateSpace.ancestors pushed))
       - Z.of_nat (length (StateSpace.ancestors room)).
Proof.
  apply (SokobanTheory.generated_keeps_puzzle toy_hash room pushed).
  apply (generated_step room room pushed after_room);
    [apply generated_init | exact pushed_successor].
Defined.

Lemma heur_manhattan_distance_at_goal_witness :
  heur_manhattan_distance pushed = Some (Ok 0).
Proof. apply (SokobanTheory.heur_manhattan_distance_at_goal pushed). reflexivity. Defined.

Lemma heur_manhattan_distance_without_storage_witness :
  heur_manhattan_distance bare_room = Some (Raise ValueError).
Proof.
  apply (SokobanTheory.heur_manhattan_distance_without_storage bare_room).
  - reflexivity.
  - intros Hempty. by vm_compute in Hempty.
Defined.

Lemma heur_manhattan_distance_counts_unstored_witness :
  exists h,
    heur_manhattan_distance room = Some (Ok h)
    /\ Z.of_nat (size (unstored room)) <= h
    /\ (h = 0 <-> sokoban_goal_state room = true).
Proof.
  apply (SokobanTheory.heur_manhattan_distance_counts_unstored room).
  - exact room_storage.
  - exact room_small.
Defined.

Lemma heur_manhattan_distance_consistent_witness :
  exists h h',
    heur_manhattan_distance room = Some (Ok h)
    /\ heur_manhattan_distance pushed = Some (Ok h')
    /\ h <= h' + 1
    /\ h' <= h + 1.
Proof.
  apply (SokobanTheory.heur_manhattan_distance_consistent toy_hash room pushed after_room).
  - exact room_storage.
  - exact room_small.
  - exact pushed_successor.
Defined.

End ScenariosTheory.
